(** * Bloomora: session ledger, progression engine and sync reconciler

    A shallow embedding of the core of [bloomora/app.js]: the session
    ledger ([saveSession], [deleteSessionById], [resetStats]), the garden
    progression ([computeFruitsReady], [harvestFruits], [restartTree]), the
    reconciliation pass ([fullSync] with [applyProfileRow],
    [rowToLocalSession], [rowToLocalLabel], [ensureClientIds]) and the
    load-time and import-time merges with defaults ([loadState],
    [importStateFromFile]).

    Conventions.
    - The operations of the ledger and of the reconciler are embedded over
      records whose fields carry the types of the data model and of the SQL
      schema: integers are [Z] (seconds, milliseconds since the epoch),
      the ambient volume is a finite rational ([Qc]), strings are [string],
      a nullable column or an optional argument is an [option].
    - The ledger is embedded twice: over these records, with the duration
      handed to [saveSession] a finite number, and in [Ledger] over
      JavaScript numbers, where the duration may be [NaN] or an infinity.
    - [loadState] and [importStateFromFile] read arbitrary JSON, so they are
      embedded over an untyped JavaScript [value].
    - The global variables [state] and [sb] are threaded explicitly; calls
      that leave the program ([saveState], [toast], the remote requests) are
      recorded in a list of [effect]s; what the environment supplies (clock
      readings, random identifiers, the answers of the remote store) is an
      argument. *)

From Stdlib Require Import ZArith QArith Qcanon Qround Lia Lqa.
From stdpp Require Import base gmap strings list pretty sorting.

#[local] Set Warnings "-register-all".
#[local] Open Scope Z_scope.

(* ================================================================== *)
(** * JavaScript operators on typed data *)

(** Truthiness: the empty string, [0] and [false] are falsy; an absent
    ([null] / [undefined]) value is falsy. *)
Class Truthy (A : Type) := truthy : A → bool.

#[global] Instance truthy_string : Truthy string :=
  λ s, match s with EmptyString => false | _ => true end.
#[global] Instance truthy_Z : Truthy Z := λ z, negb (z =? 0).
#[global] Instance truthy_bool : Truthy bool := λ b, b.
#[global] Instance truthy_option {A} `{Truthy A} : Truthy (option A) :=
  λ o, match o with Some a => truthy a | None => false end.

(** [a || b] on two values of one type. *)
Definition or_else {A} `{Truthy A} (a b : A) : A := if truthy a then a else b.

(** [x ? f(x) : d] and [x || d] where [x] may be absent. *)
Definition opt_case {A B} `{Truthy A} (o : option A) (f : A → B) (d : B) : B :=
  match o with
  | Some a => if truthy a then f a else d
  | None => d
  end.
Definition opt_or {A} `{Truthy A} (o : option A) (d : A) : A := opt_case o (λ a, a) d.

(** [x ?? d]. *)
Definition nullish {A} (o : option A) (d : A) : A := default d o.

(** [Math.round] on a finite number: the nearest integer, halves upwards. *)
Definition Math_round (d : Qc) : Z := Qfloor (d + Q2Qc (1 # 2))%Qc.

(** [clamp(n, a, b) = Math.max(a, Math.min(b, n))]. *)
Definition clamp (n a b : Z) : Z := Z.max a (Z.min b n).

Definition Qc_min (a b : Qc) : Qc := if Qclt_le_dec b a then b else a.
Definition Qc_max (a b : Qc) : Qc := if Qclt_le_dec a b then b else a.
Definition clamp01 (n : Qc) : Qc := Qc_max 0%Qc (Qc_min 1%Qc n).

(** Strings are sequences of code units below 256. [s.trim()] removes the
    white space of that range from both ends; [s.slice(0, n)] keeps the
    first [n] units. *)
Definition is_white (c : Ascii.ascii) : bool :=
  let n := Ascii.nat_of_ascii c in
  ((9 <=? n)%nat && (n <=? 13)%nat) || (n =? 32)%nat || (n =? 160)%nat.

Fixpoint trimStart (s : string) : string :=
  match s with
  | String c s' => if is_white c then trimStart s' else s
  | EmptyString => EmptyString
  end.

Fixpoint trimEnd (s : string) : string :=
  match s with
  | EmptyString => EmptyString
  | String c s' =>
      match trimEnd s' with
      | EmptyString => if is_white c then EmptyString else String c EmptyString
      | r => String c r
      end
  end.

Definition trim (s : string) : string := trimEnd (trimStart s).

Definition slice0 (n : nat) (s : string) : string := String.substring 0 n s.

(** A string is trimmed at the front when it is empty or starts with a
    unit that is not white space. *)
Definition front_ok (s : string) : Prop :=
  match s with String c _ => is_white c = false | EmptyString => True end.

(** A JavaScript [Map] with string keys: insertion ordered, one entry per
    key, [set] on a present key replaces the value in place. *)
Module JsMap.
Definition t (V : Type) := list (string * V).

Fixpoint set {V} (k : string) (v : V) (m : t V) : t V :=
  match m with
  | [] => [(k, v)]
  | (k', v') :: m' =>
      if bool_decide (k' = k) then (k', v) :: m' else (k', v') :: set k v m'
  end.

Fixpoint get {V} (k : string) (m : t V) : option V :=
  match m with
  | [] => None
  | (k', v') :: m' => if bool_decide (k' = k) then Some v' else get k m'
  end.

Definition has {V} (k : string) (m : t V) : bool :=
  match get k m with Some _ => true | None => false end.

(** [new Map(entries)] *)
Definition of_entries {V} (l : list (string * V)) : t V :=
  fold_left (λ m kv, set kv.1 kv.2 m) l [].

(** [Array.from(m.values())] *)
Definition values {V} (m : t V) : list V := map snd m.
Definition keys {V} (m : t V) : list string := map fst m.
End JsMap.

(** The entry a list holds under a key when it is read into a [Map]: the
    last element that carries the key. *)
Definition byKey {V} (key : V → string) (k : string) (l : list V) : option V :=
  last (filter (λ x, key x = k) l).

(** A map is well formed when its keys are distinct, and keyed when every
    value sits under its own key. *)
Definition wf {V} (m : JsMap.t V) : Prop := NoDup (JsMap.keys m).
Definition keyed {V} (key : V → string) (m : JsMap.t V) : Prop :=
  Forall (λ kv, key kv.2 = kv.1) m.

(** [for (const x of l) m.set(key(x), x)] and
    [for (const x of l) if (!m.has(key(x))) m.set(key(x), x)]. *)
Definition setAll {V} (key : V → string) (l : list V) (m : JsMap.t V) : JsMap.t V :=
  fold_left (λ m x, JsMap.set (key x) x m) l m.
Definition addAbsent {V} (key : V → string) (l : list V) (m : JsMap.t V) : JsMap.t V :=
  fold_left (λ m x, if JsMap.has (key x) m then m else JsMap.set (key x) x m) l m.

(** [Array.prototype.sort(cmp)]: a stable sort; [a] stays before [b] unless
    [cmp(a, b) > 0]. *)
Fixpoint insert_by {A} (cmp : A → A → Z) (x : A) (l : list A) : list A :=
  match l with
  | [] => [x]
  | y :: l' => if cmp x y <=? 0 then x :: y :: l' else y :: insert_by cmp x l'
  end.

Definition sort_by {A} (cmp : A → A → Z) (l : list A) : list A :=
  foldr (insert_by cmp) [] l.

(* ================================================================== *)
(** * Data model *)

Record Session := mkSession {
  ses_id : string;
  ses_clientId : string;      (* empty when the field is missing *)
  ses_startTs : Z;
  ses_endTs : Z;
  ses_durationSec : Z;
  ses_method : string;
  ses_rewardMode : string;
  ses_label : string;
}.

Record Label := mkLabel {
  lbl_id : string;
  lbl_name : string;
  lbl_color : string;
  lbl_favorite : bool;
  lbl_createdTs : Z;
}.

Record Profile := mkProfile {
  name : string;
  weeklyGoalHours : Z;
  theme : string;
  stopwatchCapOn : bool;
  stopwatchCapHours : Z;
  ambientType : string;       (* profile.sessionAmbient.type *)
  ambientVolume : Qc;         (* profile.sessionAmbient.volume *)
}.

Record Garden := mkGarden {
  treeType : string;
  growthSec : Z;
  harvestedOnThisTree : Z;
}.

(** The sections of [state] that the ledger, the progression engine and the
    reconciler read or write. *)
Record State := mkState {
  profile : Profile;
  worldView : string;                  (* state.ui.worldView *)
  sessions : list Session;
  xpSec : Z;                           (* state.island.xpSec *)
  garden : Garden;
  fruitCollection : gmap string Z;
  labels : list Label;                 (* state.labels.items *)
}.

Definition set_profile (p : Profile) (st : State) : State :=
  mkState p (worldView st) (sessions st) (xpSec st) (garden st)
          (fruitCollection st) (labels st).
Definition set_sessions (l : list Session) (st : State) : State :=
  mkState (profile st) (worldView st) l (xpSec st) (garden st)
          (fruitCollection st) (labels st).
Definition set_xpSec (x : Z) (st : State) : State :=
  mkState (profile st) (worldView st) (sessions st) x (garden st)
          (fruitCollection st) (labels st).
Definition set_garden (g : Garden) (st : State) : State :=
  mkState (profile st) (worldView st) (sessions st) (xpSec st) g
          (fruitCollection st) (labels st).
Definition set_fruitCollection (fc : gmap string Z) (st : State) : State :=
  mkState (profile st) (worldView st) (sessions st) (xpSec st) (garden st)
          fc (labels st).
Definition set_labels (l : list Label) (st : State) : State :=
  mkState (profile st) (worldView st) (sessions st) (xpSec st) (garden st)
          (fruitCollection st) l.

Definition set_growthSec (x : Z) (g : Garden) : Garden :=
  mkGarden (treeType g) x (harvestedOnThisTree g).
Definition set_harvested (x : Z) (g : Garden) : Garden :=
  mkGarden (treeType g) (growthSec g) x.

Definition zeroFruits : gmap string Z :=
  {[ "Apple" := 0; "Orange" := 0; "Cherry" := 0; "Mango" := 0; "Peach" := 0 ]}.

Definition defaultState : State :=
  {| profile := {| name := "Student"; weeklyGoalHours := 10; theme := "midnight";
                   stopwatchCapOn := true; stopwatchCapHours := 6;
                   ambientType := "off"; ambientVolume := Q2Qc (4 # 10) |};
     worldView := "island";
     sessions := [];
     xpSec := 0;
     garden := {| treeType := "Apple"; growthSec := 0; harvestedOnThisTree := 0 |};
     fruitCollection := zeroFruits;
     labels := [] |}.

(** Calls that leave the modelled program. *)
Inductive effect :=
| SaveState
| SbSaveMeta
| RenderAll
| RenderGarden
| RenderStats
| RenderAuthUi
| Toast (title : string)
| SbUpsertSoon
| SbDeleteSession (clientId : string)
| SbDeleteAllSessions
| RemoteDeleteLabels (ids : list string)
| SelectProfile
| SelectLabels
| SelectSessions
| UpsertProfile (p : Profile) (xp : Z) (g : Garden) (fc : gmap string Z)
| UpsertLabels (l : list Label)
| UpsertSessions (l : list Session).

(* ================================================================== *)
(** * Progression engine *)

Record Stage := mkStage { stage_id : string; stage_name : string; minSec : Z }.

Definition TREE_STAGES : list Stage :=
  [ mkStage "seed" "Seed" 0;
    mkStage "sprout" "Sprout" (10 * 60);
    mkStage "plant" "Plant" (30 * 60);
    mkStage "sapling" "Sapling" (60 * 60);
    mkStage "tree" "Tree" (2 * 60 * 60) ].

Definition FRUIT_RATE_SEC : Z := 30 * 60.

Definition treeMin : Z :=
  match List.find (λ s, String.eqb (stage_id s) "tree") TREE_STAGES with
  | Some s => minSec s
  | None => 0
  end.

Definition computeFruitsReady (g : Garden) : Z :=
  if growthSec g <? treeMin then 0
  else
    let total := (growthSec g - treeMin) / FRUIT_RATE_SEC in
    Z.max 0 (total - or_else (harvestedOnThisTree g) 0).

Definition normalizeRewardMode (mode : string) : string :=
  if String.eqb mode "garden" then "garden" else "island".

Definition harvestFruits (st : State) : State * list effect :=
  let ready := computeFruitsReady (garden st) in
  if ready <=? 0 then (st, [])
  else
    let type := treeType (garden st) in
    let fc := fruitCollection st in
    let st1 := set_fruitCollection (<[type := or_else (default 0 (fc !! type)) 0 + ready]> fc) st in
    let st2 := set_garden (set_harvested (or_else (harvestedOnThisTree (garden st1)) 0 + ready)
                                         (garden st1)) st1 in
    (st2, [SaveState; RenderGarden; RenderStats; Toast "Harvested!"]).

Definition restartTree (newType : string) (st : State) : State * list effect :=
  let g := mkGarden (or_else newType (treeType (garden st))) 0 0 in
  (set_garden g st, [SaveState; RenderGarden; RenderStats; Toast "Garden restarted"]).

(* ================================================================== *)
(** * Session ledger *)

(** The argument object of [saveSession], for a duration that is a finite
    number; [Ledger.saveSession] takes every number. *)
Record SaveArgs := mkSaveArgs {
  arg_durationSec : Qc;
  arg_method : string;
  arg_rewardMode : option string;
  arg_label : option string;
  arg_startedAt : option Z;
  arg_endedAt : option Z;
}.

(** What [saveSession] draws from the environment: the reading of [now()]
    and the text generated after the prefix of the identifier
    ([Math.random] and [Date.now]). *)
Record SaveEnv := mkSaveEnv { env_now : Z; env_fresh : string }.

Definition saveSession (e : SaveEnv) (a : SaveArgs) (st : State)
  : bool * State * list effect :=
  let dur := Z.max 0 (Math_round (arg_durationSec a)) in
  if dur <? 60 then (false, st, [Toast "Session not saved"])
  else
    let endTs := opt_or (arg_endedAt a) (env_now e) in
    let startTs := opt_or (arg_startedAt a) (endTs - dur * 1000) in
    let id := "s_" +:+ env_fresh e in
    let session :=
      {| ses_id := id;
         ses_clientId := id;
         ses_startTs := startTs;
         ses_endTs := endTs;
         ses_durationSec := dur;
         ses_method := arg_method a;
         ses_rewardMode :=
           normalizeRewardMode (or_else (opt_or (arg_rewardMode a) (worldView st)) "island");
         ses_label := slice0 24 (trim (opt_or (arg_label a) "")) |} in
    let st1 := set_sessions (session :: sessions st) st in
    let st2 := set_xpSec (xpSec st1 + dur) st1 in
    let st3 := set_garden (set_growthSec (growthSec (garden st2) + dur) (garden st2)) st2 in
    (true, st3, [SaveState; SbUpsertSoon; RenderAll; Toast "Session saved"]).

Definition deleteSessionById (sessionId : string) (st : State)
  : bool * State * list effect :=
  if negb (truthy sessionId) then (false, st, [])
  else
    match list_find (λ s, ses_id s = sessionId) (sessions st) with
    | None => (false, st, [])
    | Some (idx, removed) =>
        let st1 := set_sessions (delete idx (sessions st)) st in
        let dur := or_else (ses_durationSec removed) 0 in
        let st2 := set_xpSec (Z.max 0 (or_else (xpSec st1) 0 - dur)) st1 in
        let st3 := set_garden (set_growthSec (Z.max 0 (or_else (growthSec (garden st2)) 0 - dur))
                                             (garden st2)) st2 in
        (true, st3,
         [SaveState; RenderAll; Toast "Deleted";
          SbDeleteSession (or_else (or_else (ses_clientId removed) (ses_id removed)) sessionId)])
    end.

Definition resetStats (st : State) : State * list effect :=
  let st1 := set_sessions [] st in
  let st2 := set_xpSec 0 st1 in
  let st3 := set_garden (set_harvested 0 (set_growthSec 0 (garden st2))) st2 in
  let st4 := set_fruitCollection zeroFruits st3 in
  (st4, [SaveState; SbDeleteAllSessions; SbUpsertSoon; RenderAll; Toast "Reset"]).

(** A ledger operation, and a run of operations from a state. *)
Inductive LedgerOp :=
| OpSave (e : SaveEnv) (a : SaveArgs)
| OpDelete (sessionId : string)
| OpReset.

Definition stepLedger (op : LedgerOp) (st : State) : State :=
  match op with
  | OpSave e a => snd (fst (saveSession e a st))
  | OpDelete i => snd (fst (deleteSessionById i st))
  | OpReset => fst (resetStats st)
  end.

Definition runLedger (ops : list LedgerOp) (st : State) : State :=
  fold_left (λ s op, stepLedger op s) ops st.

(** The states reached after each operation of a run, in order. *)
Fixpoint traceLedger (ops : list LedgerOp) (st : State) : list State :=
  match ops with
  | [] => []
  | op :: ops' => stepLedger op st :: traceLedger ops' (stepLedger op st)
  end.

(** The two progression counters agree. *)
Definition coupled (st : State) : Prop := xpSec st = growthSec (garden st).

(** Inputs used as examples. *)
Definition exampleSession (id : string) (endTs dur : Z) : Session :=
  {| ses_id := id; ses_clientId := id; ses_startTs := endTs - dur * 1000; ses_endTs := endTs;
     ses_durationSec := dur; ses_method := "stopwatch"; ses_rewardMode := "island";
     ses_label := "Maths" |}.

Definition exampleArgs (d : Qc) : SaveArgs :=
  {| arg_durationSec := d; arg_method := "stopwatch"; arg_rewardMode := None;
     arg_label := Some "Maths"; arg_startedAt := None; arg_endedAt := None |}.

Definition exampleEnv : SaveEnv := {| env_now := 1700000000000; env_fresh := "a1b2_18c" |}.

(* ================================================================== *)
(** * Remote row store: rows as the schema declares them *)

(** A [timestamptz] column is carried as the instant [Date.parse] reads from
    it; a nullable column is an [option]. *)
Record SessionRow := mkSessionRow {
  client_id : string;
  started_at : option Z;
  ended_at : option Z;
  duration_sec : Z;
  label_name : option string;
  source : option string;
  reward_mode : option string;
}.

Record LabelRow := mkLabelRow {
  row_id : string;                 (* labels.id, the server's uuid *)
  local_id : option string;
  row_name : string;
  row_color : string;
  favorite : option bool;
  created_ts : option Z;
}.

Record ProfileRow := mkProfileRow {
  display_name : option string;
  weekly_goal_hours : option Z;
  row_theme : option string;
  stopwatch_cap_on : option bool;
  stopwatch_cap_hours : option Z;
  session_ambient_type : option string;
  session_ambient_volume : option Qc;
  island_xp_sec : option Z;
  garden_growth_sec : option Z;
  garden_tree_type : option string;
  garden_harvested_on_tree : option Z;
  fruit_collection : option (gmap string Z);
}.

(** [now1] and [now2] are the readings of the two calls of [now()]. *)
Definition rowToLocalSession (now1 now2 : Z) (wv : string) (r : SessionRow) : Session :=
  let startTs := started_at r in
  let endTs := ended_at r in
  let durMs := or_else (duration_sec r) 0 * 1000 in
  {| ses_id := client_id r;
     ses_clientId := client_id r;
     ses_startTs := opt_or startTs (opt_case endTs (λ e, e - durMs) now1);
     ses_endTs := opt_or endTs (opt_case startTs (λ s, s + durMs) now2);
     ses_durationSec := or_else (duration_sec r) 0;
     ses_method := opt_or (source r) "manual";
     ses_rewardMode := or_else (opt_or (reward_mode r) wv) "island";
     ses_label := opt_or (label_name r) "" |}.

Definition rowToLocalLabel (now : Z) (r : LabelRow) : Label :=
  {| lbl_id := opt_or (local_id r) (row_id r);
     lbl_name := or_else (row_name r) "";
     lbl_color := or_else (row_color r) "#a855f7";
     lbl_favorite := truthy (favorite r);
     lbl_createdTs := match created_ts r with Some t => t | None => now end |}.

Definition applyProfileRow (r : ProfileRow) (st : State) : State :=
  let p := profile st in
  let p' :=
    {| name := or_else (opt_or (display_name r) (name p)) "Student";
       weeklyGoalHours :=
         nullish (weekly_goal_hours r) (nullish (Some (weeklyGoalHours p)) 10);
       theme := or_else (opt_or (row_theme r) (theme p)) "midnight";
       stopwatchCapOn :=
         match stopwatch_cap_on r with Some false => false | _ => true end;
       stopwatchCapHours :=
         clamp (nullish (stopwatch_cap_hours r) (nullish (Some (stopwatchCapHours p)) 6)) 1 24;
       ambientType := or_else (opt_or (session_ambient_type r) (ambientType p)) "off";
       ambientVolume :=
         clamp01 (nullish (session_ambient_volume r)
                          (nullish (Some (ambientVolume p)) (Q2Qc (4 # 10)))) |} in
  let g := garden st in
  let g' :=
    {| treeType := or_else (opt_or (garden_tree_type r) (treeType g)) "Apple";
       growthSec := nullish (garden_growth_sec r) (nullish (Some (growthSec g)) 0);
       harvestedOnThisTree :=
         nullish (garden_harvested_on_tree r) (nullish (Some (harvestedOnThisTree g)) 0) |} in
  let fc' :=
    match fruit_collection r with
    | Some remote => remote ∪ fruitCollection st
    | None => fruitCollection st
    end in
  {| profile := p';
     worldView := worldView st;
     sessions := sessions st;
     xpSec := nullish (island_xp_sec r) (nullish (Some (xpSec st)) 0);
     garden := g';
     fruitCollection := fc';
     labels := labels st |}.

(* ================================================================== *)
(** * Sync reconciler *)

(** The object [sb]; [signedIn] is [sbSignedIn()], that is
    [sb.ready && sb.client && sb.user]. *)
Record Sb := mkSb {
  signedIn : bool;
  syncing : bool;
  lastSyncMs : Z;
  forcePushOnce : bool;
  deletedLabelIds : list string;
}.

Definition set_syncing (b : bool) (s : Sb) : Sb :=
  mkSb (signedIn s) b (lastSyncMs s) (forcePushOnce s) (deletedLabelIds s).
Definition set_lastSyncMs (t : Z) (s : Sb) : Sb :=
  mkSb (signedIn s) (syncing s) t (forcePushOnce s) (deletedLabelIds s).
Definition set_forcePushOnce (b : bool) (s : Sb) : Sb :=
  mkSb (signedIn s) (syncing s) (lastSyncMs s) b (deletedLabelIds s).
Definition set_deletedLabelIds (l : list string) (s : Sb) : Sb :=
  mkSb (signedIn s) (syncing s) (lastSyncMs s) (forcePushOnce s) l.

(** The answer to a [select]: an error, or the rows. *)
Inductive response (A : Type) := Failed | Fetched (data : A).
Arguments Failed {A}.
Arguments Fetched {A} data.

(** What one pass draws from the environment. *)
Record SyncEnv := mkSyncEnv {
  fresh_session : nat → string;     (* random text, per session without ids *)
  fresh_label : nat → string;       (* random text, per label without id *)
  label_clock : nat → Z;            (* readings of now(), per label row *)
  session_clock : nat → Z;          (* readings of now(), two per session row *)
  date_now : Z;                     (* Date.now() at the end of the pass *)
  delete_ok : bool;                 (* did the remote bulk delete succeed *)
  profile_res : response (option ProfileRow);
  labels_res : response (list LabelRow);
  sessions_res : response (list SessionRow);
}.

Definition ensureClientIds (e : SyncEnv) (st : State) : State :=
  let fixSession (i : nat) (s : Session) : Session :=
    let c1 := or_else (ses_clientId s) (or_else (ses_id s) "") in
    let c2 := or_else c1 ("s_" +:+ fresh_session e i) in
    mkSession (ses_id s) c2 (ses_startTs s) (ses_endTs s) (ses_durationSec s)
              (ses_method s) (ses_rewardMode s) (ses_label s) in
  let fixLabel (i : nat) (l : Label) : Label :=
    mkLabel (or_else (lbl_id l) ("lbl_" +:+ fresh_label e i))
            (lbl_name l) (lbl_color l) (lbl_favorite l) (lbl_createdTs l) in
  set_labels (imap fixLabel (labels st)) (set_sessions (imap fixSession (sessions st)) st).

Definition sbDeleteLabelsNow (signed : bool) (remote_ok : bool) (localIds : list string)
  : bool * list effect :=
  if negb signed then (false, [])
  else
    let ids := filter (λ s, truthy s = true) localIds in
    match ids with
    | [] => (true, [])
    | _ => (remote_ok, [RemoteDeleteLabels ids])
    end.

(** [sbQueueDeleteLabel]: the synchronous part, and the callback that runs
    when the immediate remote delete has succeeded. *)
Definition sbQueueDeleteLabel (localId : string) (s : Sb) : Sb * list effect :=
  if negb (truthy localId) then (s, [])
  else
    let q := if bool_decide (localId ∈ deletedLabelIds s) then deletedLabelIds s
             else deletedLabelIds s ++ [localId] in
    (set_deletedLabelIds q s,
     SbSaveMeta :: (if signedIn s then snd (sbDeleteLabelsNow (signedIn s) true [localId]) else [])).

Definition sbQueueDeleteLabel_confirmed (localId : string) (s : Sb) : Sb * list effect :=
  (set_deletedLabelIds (filter (λ x, x ≠ localId) (deletedLabelIds s)) s, [SbSaveMeta]).

Definition deleteLabel (id : string) (st : State) (s : Sb) : State * Sb * list effect :=
  match list_find (λ l, lbl_id l = id) (labels st) with
  | None => (st, s, [])
  | Some (idx, l) =>
      let st1 := set_labels (delete idx (labels st)) st in
      let '(s1, eff) := sbQueueDeleteLabel (lbl_id l) s in
      (st1, s1, eff ++ [SaveState; SbUpsertSoon; RenderAll; Toast "Label deleted"])
  end.

(** The label step of the pull phase. *)
Definition mergeLabels (deleted : list string) (local remote : list Label) : list Label :=
  let remoteLabels := filter (λ l, lbl_id l ∉ deleted) remote in
  let byId := JsMap.of_entries (map (λ l, (lbl_id l, l)) local) in
  JsMap.values (fold_left (λ m rl, JsMap.set (lbl_id rl) rl m) remoteLabels byId).

(** [lblRes.data.map(rowToLocalLabel)] *)
Definition remoteLabels (e : SyncEnv) (rows : list LabelRow) : list Label :=
  imap (λ i r, rowToLocalLabel (label_clock e i) r) rows.

Definition pullLabels (e : SyncEnv) (deleted : list string) (rows : list LabelRow)
    (st : State) : State :=
  set_labels (mergeLabels deleted (labels st) (remoteLabels e rows)) st.

(** The session step of the pull phase. *)
Definition sessionKey (s : Session) : string := or_else (ses_clientId s) (ses_id s).

Definition byEndTsDesc (a b : Session) : Z :=
  or_else (ses_endTs b) 0 - or_else (ses_endTs a) 0.

Definition mergeSessions (local remote : list Session) : list Session :=
  let byClient := JsMap.of_entries (map (λ s, (sessionKey s, s)) local) in
  let byClient' :=
    fold_left (λ m rs, if JsMap.has (sessionKey rs) m then m
                       else JsMap.set (sessionKey rs) rs m) remote byClient in
  sort_by byEndTsDesc (JsMap.values byClient').

(** [sesRes.data.map(rowToLocalSession)] *)
Definition remoteSessions (e : SyncEnv) (wv : string) (rows : list SessionRow) : list Session :=
  imap (λ i r, rowToLocalSession (session_clock e (2 * i)) (session_clock e (2 * i + 1)) wv r) rows.

Definition pullSessions (e : SyncEnv) (rows : list SessionRow) (st : State) : State :=
  set_sessions (mergeSessions (sessions st) (remoteSessions e (worldView st) rows)) st.

(** The pull phase: profile, then labels, then sessions; a failed request
    leaves its part of the state alone. *)
Definition pullPhase (e : SyncEnv) (s : Sb) (st : State) : State * list effect :=
  let '(st1, eff1) :=
    match profile_res e with
    | Failed => (st, [Toast "Sync pull failed"])
    | Fetched (Some row) => (applyProfileRow row st, [])
    | Fetched None => (st, [])
    end in
  let '(st2, eff2) :=
    match labels_res e with
    | Failed => (st1, [Toast "Sync pull failed"])
    | Fetched rows => (pullLabels e (deletedLabelIds s) rows st1, [])
    end in
  let '(st3, eff3) :=
    match sessions_res e with
    | Failed => (st2, [Toast "Sync pull failed"])
    | Fetched rows => (pullSessions e rows st2, [])
    end in
  (st3, [SelectProfile] ++ eff1 ++ [SelectLabels] ++ eff2 ++ [SelectSessions] ++ eff3).

(** The push phase reads the state; it does not write it. *)
Definition pushPhase (st : State) : list effect :=
  [UpsertProfile (profile st) (xpSec st) (garden st) (fruitCollection st)]
  ++ (match labels st with [] => [] | l => [UpsertLabels l] end)
  ++ (match sessions st with [] => [] | l => [UpsertSessions l] end).

(** One reconciliation pass. The result is [None] when the guard at the top
    returns at once (not signed in, or a pass is running). *)
Definition fullSync (e : SyncEnv) (s : Sb) (st : State)
  : option (State * Sb * list effect) :=
  if negb (signedIn s) || syncing s then None
  else
    let s0 := set_syncing true s in
    let st0 := ensureClientIds e st in
    let '(s1, effDel) :=
      match deletedLabelIds s0 with
      | [] => (s0, [])
      | ids =>
          let '(ok, eff) := sbDeleteLabelsNow (signedIn s0) (delete_ok e) ids in
          if ok then (set_deletedLabelIds [] s0, eff ++ [SbSaveMeta])
          else (s0, eff ++ [Toast "Sync push failed"])
      end in
    let skipPull := forcePushOnce s1 in
    let '(st1, effPull) := if skipPull then (st0, []) else pullPhase e s1 st0 in
    let '(s2, effFlag) :=
      if forcePushOnce s1 then (set_forcePushOnce false s1, [SbSaveMeta]) else (s1, []) in
    let effPush := pushPhase st1 in
    let s3 := set_lastSyncMs (date_now e) s2 in
    let s4 := set_syncing false s3 in
    Some (st1, s4,
          [RenderAuthUi] ++ effDel ++ effPull ++ effFlag ++ effPush
          ++ [SbSaveMeta; SaveState; RenderAll; RenderAuthUi]).

(** The order of the session list after a pull, and the bound on stored
    durations. *)
Definition endTsDesc (a b : Session) : Prop := ses_endTs b ≤ ses_endTs a.
Definition minDuration (st : State) : Prop :=
  Forall (λ s, 60 ≤ ses_durationSec s) (sessions st).

(** "Remote wins", read field by field: whatever value the row holds for a
    field is the value of the local field after the row is applied. *)
Definition remoteWins (r : ProfileRow) (st : State) : Prop :=
  let st' := applyProfileRow r st in
  (∀ s, display_name r = Some s → name (profile st') = s)
  ∧ (∀ z, weekly_goal_hours r = Some z → weeklyGoalHours (profile st') = z)
  ∧ (∀ s, row_theme r = Some s → theme (profile st') = s)
  ∧ (∀ b, stopwatch_cap_on r = Some b → stopwatchCapOn (profile st') = b)
  ∧ (∀ z, stopwatch_cap_hours r = Some z → stopwatchCapHours (profile st') = z)
  ∧ (∀ s, session_ambient_type r = Some s → ambientType (profile st') = s)
  ∧ (∀ q, session_ambient_volume r = Some q → ambientVolume (profile st') = q)
  ∧ (∀ z, island_xp_sec r = Some z → xpSec st' = z)
  ∧ (∀ z, garden_growth_sec r = Some z → growthSec (garden st') = z)
  ∧ (∀ s, garden_tree_type r = Some s → treeType (garden st') = s)
  ∧ (∀ z, garden_harvested_on_tree r = Some z → harvestedOnThisTree (garden st') = z)
  ∧ (∀ m, fruit_collection r = Some m → fruitCollection st' = m).

(** The requests of the pull phase. *)
Definition is_select (x : effect) : bool :=
  match x with
  | SelectProfile | SelectLabels | SelectSessions => true
  | _ => false
  end.

(** Every session has a client identifier and every label an identifier. *)
Definition identified (st : State) : Prop :=
  Forall (λ s, truthy (ses_clientId s) = true) (sessions st)
  ∧ Forall (λ l, truthy (lbl_id l) = true) (labels st).

(** Inputs used as examples: a remote store that answers every request. *)
Definition exampleSessionRow (cid : string) (ended dur : Z) : SessionRow :=
  {| client_id := cid; started_at := None; ended_at := Some ended; duration_sec := dur;
     label_name := Some "Physics"; source := Some "timer"; reward_mode := Some "garden" |}.

Definition exampleLabelRow (lid : string) (nm : string) : LabelRow :=
  {| row_id := "6f1c"; local_id := Some lid; row_name := nm; row_color := "#22c55e";
     favorite := Some true; created_ts := Some 1600000000000 |}.

Definition exampleProfileRow : ProfileRow :=
  {| display_name := Some ""; weekly_goal_hours := Some 0; row_theme := None;
     stopwatch_cap_on := None; stopwatch_cap_hours := Some 0;
     session_ambient_type := Some "sea"; session_ambient_volume := None;
     island_xp_sec := None; garden_growth_sec := Some 0; garden_tree_type := Some "";
     garden_harvested_on_tree := None; fruit_collection := Some {[ "Mango" := 4 ]} |}.

Definition exampleState : State :=
  {| profile := {| name := "Alice"; weeklyGoalHours := 12; theme := "ocean";
                   stopwatchCapOn := true; stopwatchCapHours := 8;
                   ambientType := "fire"; ambientVolume := Q2Qc (1 # 2) |};
     worldView := "island";
     sessions := [exampleSession "s_X" 1700000000000 1500];
     xpSec := 1500;
     garden := {| treeType := "Cherry"; growthSec := 1500; harvestedOnThisTree := 0 |};
     fruitCollection := <["Cherry" := 3]> zeroFruits;
     labels := [mkLabel "lbl_1" "Maths" "#a855f7" false 1650000000000] |}.

Definition exampleSyncEnv : SyncEnv :=
  {| fresh_session := λ _, "0f_1"; fresh_label := λ _, "0e_2";
     label_clock := λ _, 1700000500000; session_clock := λ _, 1700000500000;
     date_now := 1700000600000; delete_ok := false;
     profile_res := Fetched (Some exampleProfileRow);
     labels_res := Fetched [exampleLabelRow "lbl_1" "Remote name"; exampleLabelRow "lbl_9" "Gone"];
     sessions_res := Fetched [exampleSessionRow "s_X" 1700000400000 900;
                              exampleSessionRow "s_Y" 1700000300000 30] |}.

Definition exampleSb (force : bool) : Sb :=
  {| signedIn := true; syncing := false; lastSyncMs := 0; forcePushOnce := force;
     deletedLabelIds := ["lbl_9"] |}.

(* ================================================================== *)
(** * Untyped values: what [JSON.parse] yields and [loadState] repairs *)

Module Blob.

(** A JavaScript number: a finite rational, an infinity or [NaN]. *)
Inductive num := NaN | NegInf | Fin (q : Qc) | PosInf.

Inductive value :=
| VUndef
| VNull
| VBool (b : bool)
| VNum (n : num)
| VStr (s : string)
| VArr (l : list value)
| VObj (m : gmap string value).

Definition zn (z : Z) : value := VNum (Fin (Q2Qc (inject_Z z))).
Definition qn (q : Q) : value := VNum (Fin (Q2Qc q)).
Definition obj (l : list (string * value)) : value := VObj (list_to_map l).

(** [a < b]; false when either side is [NaN]. *)
Definition num_lt (a b : num) : bool :=
  match a, b with
  | NaN, _ | _, NaN => false
  | _, NegInf => false
  | NegInf, _ => true
  | PosInf, _ => false
  | _, PosInf => true
  | Fin x, Fin y => if Qclt_le_dec x y then true else false
  end.

Definition is_NaN (a : num) : bool := match a with NaN => true | _ => false end.

Definition Math_min (a b : num) : num :=
  if is_NaN a || is_NaN b then NaN else if num_lt b a then b else a.
Definition Math_max (a b : num) : num :=
  if is_NaN a || is_NaN b then NaN else if num_lt a b then b else a.

(** [clamp(n, a, b)] and [clamp01(n)] of the source, on numbers. *)
Definition clamp (n a b : num) : num := Math_max a (Math_min b n).
Definition clamp01 (n : num) : num := clamp n (Fin 0%Qc) (Fin 1%Qc).

#[global] Instance truthy_num : Truthy num :=
  λ n, match n with
       | NaN => false
       | Fin q => if Qc_eq_dec q 0%Qc then false else true
       | _ => true
       end.

#[global] Instance truthy_value : Truthy value :=
  λ v, match v with
       | VUndef | VNull => false
       | VBool b => b
       | VNum n => truthy n
       | VStr s => truthy s
       | VArr _ | VObj _ => true
       end.

(** [a ?? b] *)
Definition v_nullish (a b : value) : value :=
  match a with VUndef | VNull => b | _ => a end.

(** [a && b] *)
Definition v_and (a b : value) : value := if truthy a then b else a.

(** [a != null] *)
Definition not_nullish (a : value) : bool :=
  match a with VUndef | VNull => false | _ => true end.

(** [typeof v === 'object'], [v && typeof v === 'object'], [Array.isArray(v)] *)
Definition typeof_object (v : value) : bool :=
  match v with VNull | VArr _ | VObj _ => true | _ => false end.
Definition is_object (v : value) : bool :=
  match v with VArr _ | VObj _ => true | _ => false end.
Definition isArray (v : value) : bool :=
  match v with VArr _ => true | _ => false end.

(** [v === 'text'] *)
Definition is_str (v : value) (text : string) : bool :=
  match v with VStr s => String.eqb s text | _ => false end.

(** [m.k] on the properties [m] of an object: [undefined] when absent. *)
Definition field (m : gmap string value) (k : string) : value :=
  default VUndef (m !! k).

(** [v.k] where [v] is neither [null] nor [undefined] and [k] is one of the
    identifiers the source reads: no index, not [length], and no member of
    a prototype of the value it is read from. *)
Definition get (v : value) (k : string) : value :=
  match v with VObj m => field m k | _ => VUndef end.

(** [v?.k] *)
Definition get_opt (v : value) (k : string) : value :=
  match v with VUndef | VNull => VUndef | _ => get v k end.

(** The own enumerable properties that [{...v}] copies: the members of an
    object, the elements of an array and the units of a string under
    their indices, nothing for the other values. *)
Definition indexed {A} (f : A → value) (l : list A) : gmap string value :=
  list_to_map (imap (λ i x, (pretty i, f x)) l).

Definition spread (v : value) : gmap string value :=
  match v with
  | VObj m => m
  | VArr l => indexed (λ x, x) l
  | VStr s => indexed (λ c, VStr (String c EmptyString)) (String.list_ascii_of_string s)
  | _ => ∅
  end.

(** [{ ...dsec, ...(v || {}) }] *)
Definition over (dsec : gmap string value) (v : value) : gmap string value :=
  spread (or_else v (VObj ∅)) ∪ dsec.

(** The host's number formatting and parsing ([Number::toString],
    [StringToNumber]). *)
Class Host := {
  num_to_string : num → string;
  string_to_num : string → num;
}.

Section conversions.
Context `{H : Host}.

(** [String(v)]; [None] is the [TypeError] of an object whose own
    [toString] member hides the callable one. *)
Fixpoint to_string (v : value) : option string :=
  match v with
  | VUndef => Some "undefined"
  | VNull => Some "null"
  | VBool b => Some (if b then "true" else "false")
  | VNum n => Some (num_to_string n)
  | VStr s => Some s
  | VArr l =>
      (fix join (l : list value) : option string :=
         match l with
         | [] => Some ""
         | x :: l' =>
             s ← match x with VUndef | VNull => Some "" | _ => to_string x end;
             match l' with
             | [] => Some s
             | _ => r ← join l'; Some (s +:+ "," +:+ r)
             end
         end) l
  | VObj m =>
      match m !! "toString" with
      | Some _ => None
      | None => Some "[object Object]"
      end
  end.

(** [Number(v)] *)
Definition to_number (v : value) : option num :=
  match v with
  | VUndef => Some NaN
  | VNull => Some (Fin 0%Qc)
  | VBool b => Some (Fin (if b then 1%Qc else 0%Qc))
  | VNum n => Some n
  | VStr s => Some (string_to_num s)
  | VArr _ => string_to_num <$> to_string v
  | VObj m =>
      match m !! "toString" with
      | Some _ => None
      | None => Some NaN
      end
  end.
End conversions.

(** [S] has every key of [d]. *)
Definition covers (d S : gmap string value) : Prop :=
  ∀ k, is_Some (d !! k) → is_Some (S !! k).

(* ---------------------------------------------------------------- *)
(** ** The three patterns that read a video id out of an embed URL *)

Definition is_id_char (c : Ascii.ascii) : bool :=
  let n := Ascii.nat_of_ascii c in
  ((48 <=? n)%nat && (n <=? 57)%nat) || ((65 <=? n)%nat && (n <=? 90)%nat)
  || ((97 <=? n)%nat && (n <=? 122)%nat) || (n =? 95)%nat || (n =? 45)%nat.

Definition lower (c : Ascii.ascii) : Ascii.ascii :=
  let n := Ascii.nat_of_ascii c in
  if ((65 <=? n)%nat && (n <=? 90)%nat) then Ascii.ascii_of_nat (n + 32) else c.

(** One element of a pattern's fixed head: the set of units it accepts. *)
Definition head_pat := list (list Ascii.ascii).

Fixpoint match_head (p : head_pat) (s : list Ascii.ascii) : option (list Ascii.ascii) :=
  match p, s with
  | [], _ => Some s
  | cs :: p', c :: s' =>
      if bool_decide (lower c ∈ cs) then match_head p' s' else None
  | _ :: _, [] => None
  end.

Fixpoint take_id (s : list Ascii.ascii) : list Ascii.ascii :=
  match s with
  | c :: s' => if is_id_char c then c :: take_id s' else []
  | [] => []
  end.

(** [s.match(/head([a-zA-Z0-9_-]{6,})/i)]: the first capture group of the
    leftmost match, if there is a match. *)
Fixpoint regex_capture (p : head_pat) (s : list Ascii.ascii) : option string :=
  let here :=
    match match_head p s with
    | Some rest =>
        let run := take_id rest in
        if (6 <=? length run)%nat then Some (String.string_of_list_ascii run) else None
    | None => None
    end in
  match here with
  | Some r => Some r
  | None => match s with
            | [] => None
            | _ :: s' => regex_capture p s'
            end
  end.

Definition lit (text : string) : head_pat :=
  (λ c, [lower c]) <$> String.list_ascii_of_string text.

Definition pat_embed : head_pat := lit "/embed/".
Definition pat_v : head_pat := String.list_ascii_of_string "?&" :: lit "v=".
Definition pat_youtu : head_pat := lit "youtu.be/".

(** [(m1 && m1[1]) || (m2 && m2[1]) || (m3 && m3[1]) || ''] *)
Definition vidOfUrl (rawUrl : string) : string :=
  let s := String.list_ascii_of_string rawUrl in
  let m1 := regex_capture pat_embed s in
  let m2 := regex_capture pat_v s in
  let m3 := regex_capture pat_youtu s in
  or_else (or_else (or_else (default "" m1) (default "" m2)) (default "" m3)) "".

(* ---------------------------------------------------------------- *)
(** ** [defaultState()] *)

Definition dProfile (year : Z) : gmap string value :=
  list_to_map
    [ ("name", VStr "Student"); ("weeklyGoalHours", zn 10); ("theme", VStr "midnight");
      ("lastYearViewed", zn year); ("stopwatchCapOn", VBool true);
      ("stopwatchCapHours", zn 6);
      ("sessionAmbient", obj [("type", VStr "off"); ("volume", qn (4 # 10))]) ].

Definition dUi : gmap string value := list_to_map [ ("worldView", VStr "island") ].

Definition dAmbient : gmap string value :=
  list_to_map
    [ ("fire", obj [("on", VBool false); ("vol", qn (45 # 100))]);
      ("wind", obj [("on", VBool false); ("vol", qn (35 # 100))]);
      ("sea", obj [("on", VBool false); ("vol", qn (35 # 100))]);
      ("nature", obj [("on", VBool false); ("vol", qn (35 # 100))]) ].

Definition defaultLofiId : string := "CFGLoQIhmow".
Definition embedUrl (vid : string) : string :=
  "https://www.youtube.com/embed/" +:+ vid +:+ "?autoplay=0&rel=0&modestbranding=1".

Definition dAudio : gmap string value :=
  list_to_map
    [ ("master", qn (6 # 10)); ("ambient", VObj dAmbient);
      ("lofiVideoId", VStr defaultLofiId); ("lofiEmbedUrl", VStr (embedUrl defaultLofiId));
      ("videoBgOn", VBool false); ("videoBgOpacity", qn (22 # 100));
      ("videoOverlayOpacity", qn (55 # 100)); ("ytVolume", zn 60);
      ("isPlaying", VBool false) ].

Definition dPomodoro : gmap string value :=
  list_to_map
    [ ("focusMin", zn 25); ("breakMin", zn 5); ("longBreakMin", zn 15); ("longEvery", zn 4) ].

Definition dIsland : gmap string value := list_to_map [ ("xpSec", zn 0) ].

Definition dGarden : gmap string value :=
  list_to_map
    [ ("treeType", VStr "Apple"); ("growthSec", zn 0); ("harvestedOnThisTree", zn 0) ].

Definition dFruitCollection : gmap string value :=
  list_to_map
    [ ("Apple", zn 0); ("Orange", zn 0); ("Cherry", zn 0); ("Mango", zn 0); ("Peach", zn 0) ].

Definition dLabels : gmap string value :=
  list_to_map [ ("items", VArr []); ("view", VStr "grid"); ("sort", VStr "name") ].

Definition dHabits : gmap string value :=
  list_to_map [ ("items", VArr []); ("completions", VObj ∅) ].

Definition defaultState (year : Z) : gmap string value :=
  list_to_map
    [ ("version", zn 3); ("profile", VObj (dProfile year)); ("ui", VObj dUi);
      ("tasks", VArr []); ("audio", VObj dAudio); ("pomodoro", VObj dPomodoro);
      ("sessions", VArr []); ("island", VObj dIsland); ("garden", VObj dGarden);
      ("fruitCollection", VObj dFruitCollection); ("labels", VObj dLabels);
      ("habits", VObj dHabits) ].

(* ---------------------------------------------------------------- *)
(** ** [loadState()] *)

(** The text found in the storage, seen through [safeParseJson]: no item
    (or the empty text), a text that [JSON.parse] rejects, or the value it
    yields. *)
Inductive blob := NoItem | NotJson | Json (v : value).

(** What [loadState] draws from the environment. *)
Record LoadEnv := mkLoadEnv {
  currentYear : Z;
  bgStored : bool;           (* the storage holds a custom background *)
  setItem_ok : bool;         (* a write to the storage goes through *)
  uid_text : nat → string;   (* the random part of uid(), per task *)
  task_now : nat → Z;        (* Date.now(), per task *)
}.

Definition allowedThemes : list string :=
  ["midnight"; "violet"; "emerald"; "ocean"; "sunset"].

Definition normalizeRewardMode (mode : value) : string :=
  if is_str mode "garden" then "garden" else "island".

(** [v !== false] *)
Definition not_false (v : value) : bool :=
  match v with VBool false => false | _ => true end.

Section load.
Context `{H : Host}.

(** The [try] block that moves a legacy custom background out of the
    state: the member stays only when [String] throws on it. *)
Definition bgThrows (e : LoadEnv) (P : gmap string value) : bool :=
  let bg := field P "backgroundCustomData" in
  truthy bg && negb (bgStored e)
  && match to_string bg with Some _ => false | None => true end.

Definition bgStoredAfter (e : LoadEnv) (P : gmap string value) : bool :=
  let bg := field P "backgroundCustomData" in
  bgStored e
  || (truthy bg
      && match to_string bg with Some s => truthy s && setItem_ok e | None => false end).

(** [merged.profile]: the spread, the background migration and the four
    type repairs; the theme is then checked against the allowed set. *)
Definition repairProfile (e : LoadEnv) (P0 : gmap string value)
  : option (gmap string value) :=
  let P1 := if bgThrows e P0 then P0 else delete "backgroundCustomData" P0 in
  n ← to_number (v_nullish (field P1 "weeklyGoalHours") (zn 10));
  let P2 := <["weeklyGoalHours" := VNum n]> P1 in
  t ← to_string (or_else (field P2 "theme") (VStr "midnight"));
  let P3 := <["theme" := VStr t]> P2 in
  let P4 := <["stopwatchCapOn" := VBool (not_false (field P3 "stopwatchCapOn"))]> P3 in
  h ← to_number (v_nullish (field P4 "stopwatchCapHours") (zn 6));
  let P5 := <["stopwatchCapHours" := VNum (clamp h (Fin 1%Qc) (Fin (Q2Qc 24)))]> P4 in
  Some (if bool_decide (t ∈ allowedThemes) then P5 else <["theme" := VStr "midnight"]> P5).

(** [merged.ui] with the migration of [profile.defaultRewardMode]. *)
Definition repairUi (st : value) (U0 : gmap string value) : gmap string value :=
  let legacyMode := get (or_else (get st "profile") (VObj ∅)) "defaultRewardMode" in
  let U1 := if truthy legacyMode && negb (truthy (get st "ui"))
            then <["worldView" := legacyMode]> U0 else U0 in
  <["worldView" := VStr (normalizeRewardMode (or_else (field U1 "worldView") (VStr "island")))]> U1.

(** One element of [merged.tasks.map(...)]; [i] is its index. *)
Definition repairTask (e : LoadEnv) (i : nat) (t : value) : option value :=
  id ← to_string (or_else (get t "id") (VStr ("id_" +:+ uid_text e i)));
  text ← to_string (or_else (get t "text") (VStr ""));
  created ← to_number (or_else (get t "createdTs") (zn (task_now e i)));
  Some (obj [ ("id", VStr id); ("text", VStr (slice0 80 text));
              ("done", VBool (truthy (get t "done"))); ("createdTs", VNum created) ]).

Fixpoint repairTasksFrom (e : LoadEnv) (i : nat) (l : list value) : option (list value) :=
  match l with
  | [] => Some []
  | t :: l' =>
      t' ← repairTask e i t;
      r ← repairTasksFrom e (S i) l';
      Some (t' :: r)
  end.

Definition repairTasks (e : LoadEnv) (tasks : value) : option (list value) :=
  match tasks with
  | VArr l => repairTasksFrom e 0 (filter (λ t, is_object t = true) l)
  | _ => Some []
  end.

(** One round of the loop over ['fire','wind','sea','nature']. *)
Definition repairAmbient (amb : gmap string value) (k : string)
  : option (gmap string value) :=
  let def := field dAmbient k in
  let cur := or_else (field amb k) (VObj ∅) in
  vol ← to_number (v_nullish (get cur "vol") (get def "vol"));
  Some (<[k := obj [("on", VBool (truthy (get cur "on"))); ("vol", VNum (clamp01 vol))]]> amb).

Definition repairAmbients (amb : gmap string value) : option (gmap string value) :=
  a1 ← repairAmbient amb "fire";
  a2 ← repairAmbient a1 "wind";
  a3 ← repairAmbient a2 "sea";
  repairAmbient a3 "nature".

(** The video id: the stored one, else the one read from the stored
    URL, else the default. *)
Definition lofiVid (A : gmap string value) : option string :=
  s ← to_string (or_else (field A "lofiVideoId") (VStr ""));
  u ← to_string (or_else (field A "lofiEmbedUrl") (VStr ""));
  let vid := trim s in
  let rawUrl := trim u in
  let vid1 := if negb (truthy vid) && truthy rawUrl then vidOfUrl rawUrl else vid in
  Some (if truthy vid1 then vid1 else defaultLofiId).

(** [merged.audio], from [st.audio] *)
Definition repairAudio (audio : value) : option (gmap string value) :=
  let stAudio := or_else audio (VObj ∅) in
  let A0 := <["ambient" := VObj (over dAmbient (get stAudio "ambient"))]>
              (over dAudio audio) in
  master ← to_number (v_nullish (field A0 "master") (field dAudio "master"));
  let A1 := <["master" := VNum (clamp01 master)]> A0 in
  amb ← repairAmbients (spread (field A1 "ambient"));
  let A2 := <["ambient" := VObj amb]> A1 in
  vid ← lofiVid A2;
  let A3 := <["lofiEmbedUrl" := VStr (embedUrl vid)]> (<["lofiVideoId" := VStr vid]> A2) in
  let A4 := <["videoBgOn" := VBool (truthy (field A3 "videoBgOn"))]> A3 in
  op ← to_number (v_nullish (field A4 "videoBgOpacity") (qn (22 # 100)));
  let A5 := <["videoBgOpacity" := VNum (clamp01 op)]> A4 in
  ov ← to_number (v_nullish (field A5 "videoOverlayOpacity") (qn (55 # 100)));
  let A6 := <["videoOverlayOpacity" := VNum (clamp01 ov)]> A5 in
  yt ← to_number (v_nullish (field A6 "ytVolume") (zn 60));
  let A7 := <["ytVolume" := VNum (clamp yt (Fin 0%Qc) (Fin (Q2Qc 100)))]> A6 in
  Some (<["isPlaying" := VBool false]> A7).

Definition repairIsland (I0 : gmap string value) : option (gmap string value) :=
  x ← to_number (v_nullish (field I0 "xpSec") (zn 0));
  Some (<["xpSec" := VNum x]> I0).

Definition repairGarden (G0 : gmap string value) : option (gmap string value) :=
  g ← to_number (v_nullish (field G0 "growthSec") (zn 0));
  let G1 := <["growthSec" := VNum g]> G0 in
  h ← to_number (v_nullish (field G1 "harvestedOnThisTree") (zn 0));
  Some (<["harvestedOnThisTree" := VNum h]> G1).

Definition repairLabels (L0 : gmap string value) : gmap string value :=
  let L1 := <["items" := if isArray (field L0 "items") then field L0 "items" else VArr []]> L0 in
  let L2 := <["view" := VStr (if is_str (field L1 "view") "list" then "list" else "grid")]> L1 in
  <["sort" := VStr (if is_str (field L2 "sort") "date" then "date" else "name")]> L2.

Definition repairHabits (H0 : gmap string value) : gmap string value :=
  let H1 := <["items" := if isArray (field H0 "items") then field H0 "items" else VArr []]> H0 in
  <["completions" := if is_object (field H1 "completions")
                     then field H1 "completions" else VObj ∅]> H1.

(** The body of [loadState] from [const st = parsed.value] on. The
    sections of [merged] are distinct objects; each is repaired on its
    own and the object is assembled at the end. [None] is a [TypeError];
    the boolean tells whether the storage holds a custom background
    afterwards. *)
Definition mergeDefaults (e : LoadEnv) (st : value) : option (value * bool) :=
  if negb (not_nullish st) then None
  else
    let d := defaultState (currentYear e) in
    let P0 := over (dProfile (currentYear e)) (get st "profile") in
    profile' ← repairProfile e P0;
    island' ← repairIsland (over dIsland (get st "island"));
    garden' ← repairGarden (over dGarden (get st "garden"));
    let ui' := repairUi st (over dUi (get st "ui")) in
    tasks' ← repairTasks e (if isArray (get st "tasks") then get st "tasks" else VArr []);
    audio' ← repairAudio (get st "audio");
    let labels' := repairLabels (over dLabels (get st "labels")) in
    let habits' := repairHabits (over dHabits (get st "habits")) in
    let merged :=
      <["sessions" := if isArray (get st "sessions") then get st "sessions" else VArr []]>
      (<["habits" := VObj habits']>
      (<["labels" := VObj labels']>
      (<["fruitCollection" := VObj (over dFruitCollection (get st "fruitCollection"))]>
      (<["garden" := VObj garden']>
      (<["island" := VObj island']>
      (<["pomodoro" := VObj (over dPomodoro (get st "pomodoro"))]>
      (<["audio" := VObj audio']>
      (<["tasks" := VArr tasks']>
      (<["ui" := VObj ui']>
      (<["profile" := VObj profile']>
      (spread st ∪ d))))))))))) in
    Some (VObj merged, bgStoredAfter e P0).

(** Every task of a state has a truthy [id] and a truthy [createdTs]. *)
Definition tasksStable (M : value) : Prop :=
  match get M "tasks" with
  | VArr ts =>
      Forall (λ t, truthy (get t "id") = true ∧ truthy (get t "createdTs") = true) ts
  | _ => True
  end.

(** The shape of a repaired task. *)
Definition task_shape (t : value) : Prop :=
  ∃ id text done created,
    t = obj [ ("id", VStr id); ("text", VStr (slice0 80 text));
              ("done", VBool done); ("createdTs", VNum created) ].

Definition loadState (e : LoadEnv) (raw : blob) : option (value * bool) :=
  match raw with
  | NoItem => Some (VObj (defaultState (currentYear e)), bgStored e)
  | NotJson => Some (VObj (defaultState (currentYear e)), bgStored e)
  | Json st => mergeDefaults e st
  end.

(* -------------------------------------------------------------- *)
(** ** [importStateFromFile] *)

Inductive imported := Threw | Rejected | Replaced (st : value).

(** [cond ? { k : conv(v) } : {}] spread over [m]. *)
Definition put_if (cond : bool) (k : string) (v : option value)
    (m : gmap string value) : option (gmap string value) :=
  if cond then (x ← v; Some (<[k := x]> m)) else Some m.

Definition importStateFromFile (year : Z) (content : blob) : imported :=
  match content with
  | NoItem | NotJson => Rejected
  | Json incoming =>
      if negb (truthy incoming && typeof_object incoming && isArray (get incoming "sessions"))
      then Rejected
      else
        let d := defaultState year in
        let island := get incoming "island" in
        let garden := get incoming "garden" in
        let prof := get incoming "profile" in
        let legacyIslandXpSec :=
          v_nullish (v_nullish (v_nullish
            (v_and island (v_nullish (get island "xpSec") (get island "xp_sec")))
            (get incoming "island_xp_sec"))
            (get_opt prof "island_xp_sec"))
            (get_opt prof "islandXpSec") in
        let legacyGardenGrowthSec :=
          v_nullish (v_nullish (v_nullish
            (v_and garden (v_nullish (get garden "growthSec") (get garden "growth_sec")))
            (get incoming "garden_growth_sec"))
            (get_opt prof "garden_growth_sec"))
            (get_opt prof "gardenGrowthSec") in
        let legacyGardenTreeType :=
          v_nullish (v_nullish
            (v_and garden (v_nullish (get garden "treeType") (get garden "tree_type")))
            (get incoming "garden_tree_type"))
            (get_opt prof "garden_tree_type") in
        let legacyGardenHarvested :=
          v_nullish (v_nullish
            (v_and garden (v_nullish (get garden "harvestedOnThisTree")
                                     (get garden "harvested_on_tree")))
            (get incoming "garden_harvested_on_tree"))
            (get_opt prof "garden_harvested_on_tree") in
        let result :=
          island' ← put_if (not_nullish legacyIslandXpSec) "xpSec"
                           (VNum <$> to_number legacyIslandXpSec)
                           (over dIsland island);
          g1 ← put_if (not_nullish legacyGardenGrowthSec) "growthSec"
                      (VNum <$> to_number legacyGardenGrowthSec)
                      (over dGarden garden);
          g2 ← put_if (truthy legacyGardenTreeType) "treeType"
                      (VStr <$> to_string legacyGardenTreeType) g1;
          g3 ← put_if (not_nullish legacyGardenHarvested) "harvestedOnThisTree"
                      (VNum <$> to_number legacyGardenHarvested) g2;
          let fc2 := get incoming "fruit_collection" in
          let fc := (if truthy fc2 && typeof_object fc2 then spread fc2 else ∅)
                    ∪ over dFruitCollection (get incoming "fruitCollection") in
          Some (VObj
            (<["sessions" := get incoming "sessions"]>
            (<["fruitCollection" := VObj fc]>
            (<["garden" := VObj g3]>
            (<["island" := VObj island']>
            (<["profile" := VObj (over (dProfile year) prof)]>
            (spread incoming ∪ d))))))) in
        match result with
        | Some st => Replaced st
        | None => Threw
        end
  end.
End load.

(* ---------------------------------------------------------------- *)
(** ** The idempotence of the merge, as a statement, and example inputs *)

(** "merge(defaults, merge(defaults, X)) == merge(defaults, X)" for every
    [X] on which the merge returns. *)
Definition mergeIdempotent : Prop :=
  ∀ (H : Host) (e : LoadEnv) (X M : value) (b : bool),
    mergeDefaults e X = Some (M, b) → ∃ b', mergeDefaults e M = Some (M, b').

(** A host for the examples; none of them formats a number or parses a
    text, so its two conversions are never consulted. *)
Definition exampleHost : Host :=
  {| num_to_string := λ _, "NaN"; string_to_num := λ _, NaN |}.

Definition exampleLoadEnv : LoadEnv :=
  {| currentYear := 2026; bgStored := false; setItem_ok := true;
     uid_text := λ _, "9a3f_18c2"; task_now := λ _, 1700000000000 |}.

(** A task whose [id] is the empty array: truthy, and [String([])] is the
    empty text. *)
Definition blobEmptyId : value :=
  obj [ ("tasks", VArr [ obj [ ("id", VArr []); ("text", VStr "read") ] ]) ].

(** A blob with a well-formed task and a legacy setting. *)
Definition blobPlain : value :=
  obj [ ("tasks", VArr [ obj [ ("id", VStr "t_1"); ("text", VStr "read");
                               ("done", VBool true); ("createdTs", zn 1690000000000) ] ]);
        ("profile", obj [ ("name", VStr "Alice"); ("defaultRewardMode", VStr "garden");
                          ("stopwatchCapHours", zn 40) ]);
        ("island", obj [ ("xpSec", zn 1500) ]) ].

(** A backup whose only session lasts five seconds. *)
Definition blobShortSession : value :=
  obj [ ("sessions", VArr [ obj [ ("id", VStr "s_1"); ("durationSec", zn 5) ] ]) ].

(** The state a merge (or an import) leaves, and the [id] of its first task. *)
Definition merged_of (r : option (value * bool)) : value :=
  match r with Some (M, _) => M | None => VUndef end.

Definition firstTaskId (M : value) : value :=
  match get M "tasks" with
  | VArr (t :: _) => get t "id"
  | _ => VUndef
  end.

Definition imported_state (r : imported) : value :=
  match r with Replaced st => st | _ => VUndef end.

End Blob.

(* ================================================================== *)
(** * Levels, tree stages and the fruit count *)

(** The host's double-precision quotient and product, on the rationals that
    the doubles denote. (The floor of the quotient of two integers is taken on
    the exact quotient: the rounding of the division does not reach the next
    integer.) *)
Class Float64 := {
  fdiv : Qc → Qc → Qc;
  fmul : Qc → Qc → Qc;
}.

(** A host whose quotient and product are exact, for the examples. *)
Definition exactFloat64 : Float64 := {| fdiv := Qcdiv; fmul := Qcmult |}.

Definition LEVEL_SEC : Z := 5 * 60 * 60.

(** [clamp(Math.floor((a / b) * 100), 0, 100)] *)
Definition pctOf `{Float64} (a b : Z) : Z :=
  clamp (Qfloor (fmul (fdiv (Q2Qc (inject_Z a)) (Q2Qc (inject_Z b))) (Q2Qc 100))) 0 100.

Record Level := mkLevel {
  lv_level : Z;
  lv_pct : Z;
  lv_remainingSec : Z;
  lv_inLevel : Z;
}.

Definition computeLevel `{Float64} (totalSec : Z) : Level :=
  let level := totalSec / LEVEL_SEC in
  let inLevel := totalSec - level * LEVEL_SEC in
  {| lv_level := level;
     lv_pct := pctOf inLevel LEVEL_SEC;
     lv_remainingSec := Z.max 0 (LEVEL_SEC - inLevel);
     lv_inLevel := inLevel |}.

Record TreeProgress := mkTreeProgress {
  tp_current : Stage;
  tp_next : option Stage;
  tp_pct : Z;
  tp_toNextSec : Z;
}.

(** [TREE_STAGES[0]] *)
Definition firstStage : Stage := default (mkStage "" "" 0) (head TREE_STAGES).

Definition getTreeStage `{Float64} (growthSec : Z) : TreeProgress :=
  let current :=
    fold_left (λ cur st, if minSec st <=? growthSec then st else cur) TREE_STAGES firstStage in
  let currentIdx :=
    match list_find (λ s, stage_id s = stage_id current) TREE_STAGES with
    | Some (i, _) => Z.of_nat i
    | None => -1
    end in
  let next := TREE_STAGES !! Z.to_nat (currentIdx + 1) in
  match next with
  | Some n =>
      let span := minSec n - minSec current in
      let into := growthSec - minSec current in
      {| tp_current := current; tp_next := next;
         tp_pct := pctOf into span;
         tp_toNextSec := Z.max 0 (minSec n - growthSec) |}
  | None =>
      {| tp_current := current; tp_next := None; tp_pct := 100; tp_toNextSec := 0 |}
  end.


(* ================================================================== *)
(** * Labels *)

Definition getLabelById (id : string) (st : State) : option Label :=
  snd <$> list_find (λ l, lbl_id l = id) (labels st).

Definition labelNameFromId (id : string) (st : State) : string :=
  match getLabelById id st with
  | Some lbl => lbl_name lbl
  | None => ""
  end.

(** What [createLabel] draws from the environment: the text [uid] generates
    after its prefix, and the reading of [now()]. *)
Record LabelEnv := mkLabelEnv { lenv_fresh : string; lenv_now : Z }.

Definition createLabel (e : LabelEnv) (name color : option string) (st : State)
  : bool * State * list effect :=
  let n := trim (opt_or name "") in
  if negb (truthy n) then (false, st, [Toast "Label name required"])
  else
    let label :=
      {| lbl_id := "lbl_" +:+ lenv_fresh e;
         lbl_name := slice0 24 n;
         lbl_color := opt_or color "#a855f7";
         lbl_favorite := false;
         lbl_createdTs := lenv_now e |} in
    (true, set_labels (labels st ++ [label]) st,
     [SaveState; SbUpsertSoon; RenderAll; Toast "Label created"]).

Definition set_favorite (b : bool) (l : Label) : Label :=
  mkLabel (lbl_id l) (lbl_name l) (lbl_color l) b (lbl_createdTs l).

Definition toggleLabelFavorite (id : string) (st : State) : State * list effect :=
  match list_find (λ l, lbl_id l = id) (labels st) with
  | None => (st, [])
  | Some (i, l) =>
      (set_labels (<[i := set_favorite (negb (lbl_favorite l)) l]> (labels st)) st,
       [SaveState; RenderAll])
  end.

(** [getLabelsSorted]; [sortMode] is [state.labels.sort] and [localeCompare]
    the host's collation. *)
Definition getLabelsSorted (localeCompare : string → string → Z) (sortMode : string)
    (st : State) : list Label :=
  if String.eqb sortMode "date"
  then sort_by (λ a b, or_else (lbl_createdTs b) 0 - or_else (lbl_createdTs a) 0) (labels st)
  else sort_by (λ a b, localeCompare (or_else (lbl_name a) "") (or_else (lbl_name b) ""))
               (labels st).

(* ================================================================== *)
(** * Tasks *)

(** An element of [state.tasks]; a missing [desc] or [labelId] is the empty
    text. *)
Record Task := mkTask {
  task_id : string;
  task_text : string;
  task_desc : string;
  task_labelId : string;
  task_done : bool;
  task_createdTs : Z;
}.

(** The calls of the task functions: [saveState()] and [renderTasks()]. *)
Inductive task_call := TaskSaveState | TaskRender.

(** What [addTask] draws from the environment: the text [uid] generates
    after its prefix, and [Date.now()]. *)
Record TaskEnv := mkTaskEnv { tenv_fresh : string; tenv_now : Z }.

(** [addTask(text, desc = '', labelId = '')] *)
Definition addTask (e : TaskEnv) (text : string) (desc labelId : option string)
    (tasks : list Task) : list Task * list task_call :=
  let clean := slice0 80 (trim (or_else text "")) in
  if negb (truthy clean) then (tasks, [])
  else
    ({| task_id := "id_" +:+ tenv_fresh e;
        task_text := clean;
        task_desc := slice0 220 (trim (or_else (default "" desc) ""));
        task_labelId := or_else (default "" labelId) "";
        task_done := false;
        task_createdTs := tenv_now e |} :: tasks,
     [TaskSaveState; TaskRender]).

Definition set_done (b : bool) (t : Task) : Task :=
  mkTask (task_id t) (task_text t) (task_desc t) (task_labelId t) b (task_createdTs t).

Definition toggleTaskDone (id : string) (done : bool) (tasks : list Task)
  : list Task * list task_call :=
  match list_find (λ x, task_id x = id) tasks with
  | None => (tasks, [])
  | Some (i, t) => (<[i := set_done done t]> tasks, [TaskSaveState; TaskRender])
  end.

Definition deleteTask (id : string) (tasks : list Task) : list Task * list task_call :=
  (filter (λ t, task_id t ≠ id) tasks, [TaskSaveState; TaskRender]).

Definition clearDoneTasks (tasks : list Task) : list Task * list task_call :=
  let before := length tasks in
  let tasks' := filter (λ t, task_done t = false) tasks in
  (tasks', (if bool_decide (length tasks' ≠ before) then [TaskSaveState] else [])
           ++ [TaskRender]).

Definition clearAllTasks (tasks : list Task) : list Task * list task_call :=
  match tasks with
  | [] => (tasks, [])
  | _ => ([], [TaskSaveState; TaskRender])
  end.

(* ================================================================== *)
(** * Local records as remote rows *)

(** The instants of a valid [Date]: those [toISOString] accepts. *)
Definition validTime (t : Z) : bool :=
  (-8640000000000000 <=? t) && (t <=? 8640000000000000).

(** [localSessionToRow(s)], seen through the columns that are read back
    ([user_id] and [updated_at] are not); [None] is the [RangeError] of
    [toISOString] on an invalid date. *)
Definition localSessionToRow (s : Session) : option SessionRow :=
  if validTime (ses_startTs s) && validTime (ses_endTs s) then
    Some {| client_id := or_else (ses_clientId s) (ses_id s);
            started_at := Some (ses_startTs s);
            ended_at := Some (ses_endTs s);
            duration_sec := or_else (ses_durationSec s) 0;
            label_name := Some (or_else (ses_label s) "");
            source := Some (or_else (ses_method s) "");
            reward_mode := Some (or_else (ses_rewardMode s) "") |}
  else None.

(** The object [localLabelToRow] builds; the table assigns the row's own
    [id]. [now] is the reading of the clock used when the label has no
    creation time; [None] is the [RangeError] of [toISOString] on a
    creation time that is no valid date. *)
Record LabelPayload := mkLabelPayload {
  up_local_id : string;
  up_name : string;
  up_color : string;
  up_favorite : bool;
  up_created_ts : Z;
}.

Definition localLabelToRow (now : Z) (l : Label) : option LabelPayload :=
  let row (created : Z) :=
    {| up_local_id := lbl_id l;
       up_name := or_else (lbl_name l) "";
       up_color := or_else (lbl_color l) "#a855f7";
       up_favorite := lbl_favorite l;
       up_created_ts := created |} in
  if truthy (lbl_createdTs l) then
    if validTime (lbl_createdTs l) then Some (row (lbl_createdTs l)) else None
  else Some (row now).

(** The row of the table that holds an upserted label, under the
    identifier [uuid] the table gave it. *)
Definition labelRowOf (uuid : string) (p : LabelPayload) : LabelRow :=
  {| row_id := uuid;
     local_id := Some (up_local_id p);
     row_name := up_name p;
     row_color := up_color p;
     favorite := Some (up_favorite p);
     created_ts := Some (up_created_ts p) |}.

(** [localProfileToRow()] *)
Definition localProfileToRow (st : State) : ProfileRow :=
  let p := profile st in
  {| display_name := Some (or_else (name p) "Student");
     weekly_goal_hours := Some (or_else (weeklyGoalHours p) 0);
     row_theme := Some (or_else (theme p) "midnight");
     stopwatch_cap_on := Some (stopwatchCapOn p);
     stopwatch_cap_hours := Some (or_else (stopwatchCapHours p) 6);
     session_ambient_type := Some (or_else (ambientType p) "off");
     session_ambient_volume := Some (ambientVolume p);
     island_xp_sec := Some (or_else (xpSec st) 0);
     garden_growth_sec := Some (or_else (growthSec (garden st)) 0);
     garden_tree_type := Some (or_else (treeType (garden st)) "Apple");
     garden_harvested_on_tree := Some (or_else (harvestedOnThisTree (garden st)) 0);
     fruit_collection := Some (fruitCollection st) |}.

(** A state whose settings are what [applyProfileRow] would store. *)
Definition profileSettled (st : State) : Prop :=
  name (profile st) ≠ "" ∧ theme (profile st) ≠ ""
  ∧ ambientType (profile st) ≠ "" ∧ treeType (garden st) ≠ ""
  ∧ 1 ≤ stopwatchCapHours (profile st) ≤ 24
  ∧ (0 <= ambientVolume (profile st))%Qc ∧ (ambientVolume (profile st) <= 1)%Qc.

(** The requests of the push phase. *)
Definition is_upsert (x : effect) : bool :=
  match x with
  | UpsertProfile _ _ _ _ | UpsertLabels _ | UpsertSessions _ => true
  | _ => false
  end.

(* ================================================================== *)
(** * A pass with the rows it sends *)

(** [fullSync] above takes the push phase as its three upserts. The rows
    they send are built by [localLabelToRow] and [localSessionToRow], which
    throw on a time that is no valid date. [fullSync] has no handler: the
    pass is rejected at the conversion, after the requests made before it,
    with [sb.syncing] still set. Its only caller, the timer callback of
    [queueSyncSoon], catches the rejection and sets [sb.syncing] back. As
    above, every request resolves, with a result or with an error object. *)
Inductive Pass :=
| NotRun
| Done (st : State) (s : Sb) (eff : list effect)
| Threw (st : State) (s : Sb) (eff : list effect).

(** [fullSync] from [sb.syncing = true] up to the first upsert. *)
Definition passHead (e : SyncEnv) (s : Sb) (st : State) : State * Sb * list effect :=
  let s0 := set_syncing true s in
  let st0 := ensureClientIds e st in
  let '(s1, effDel) :=
    match deletedLabelIds s0 with
    | [] => (s0, [])
    | ids =>
        let '(ok, eff) := sbDeleteLabelsNow (signedIn s0) (delete_ok e) ids in
        if ok then (set_deletedLabelIds [] s0, eff ++ [SbSaveMeta])
        else (s0, eff ++ [Toast "Sync push failed"])
    end in
  let skipPull := forcePushOnce s1 in
  let '(st1, effPull) := if skipPull then (st0, []) else pullPhase e s1 st0 in
  let '(s2, effFlag) :=
    if forcePushOnce s1 then (set_forcePushOnce false s1, [SbSaveMeta]) else (s1, []) in
  (st1, s2, [RenderAuthUi] ++ effDel ++ effPull ++ effFlag).

(** [fullSync], with the conversions of the push phase. The rows are not
    part of the log; whether they can be built does not depend on the
    reading of the clock. *)
Definition fullSyncRows (e : SyncEnv) (s : Sb) (st : State) : Pass :=
  if negb (signedIn s) || syncing s then NotRun
  else
    let '(st1, s2, pre) := passHead e s st in
    let upProfile :=
      [UpsertProfile (profile st1) (xpSec st1) (garden st1) (fruitCollection st1)] in
    match mapM (localLabelToRow (date_now e)) (labels st1) with
    | None => Threw st1 s2 (pre ++ upProfile)
    | Some _ =>
        let upLabels := match labels st1 with [] => [] | l => [UpsertLabels l] end in
        match mapM localSessionToRow (sessions st1) with
        | None => Threw st1 s2 (pre ++ upProfile ++ upLabels)
        | Some _ =>
            let upSessions := match sessions st1 with [] => [] | l => [UpsertSessions l] end in
            Done st1 (set_syncing false (set_lastSyncMs (date_now e) s2))
                 (pre ++ upProfile ++ upLabels ++ upSessions
                  ++ [SbSaveMeta; SaveState; RenderAll; RenderAuthUi])
        end
    end.

(** The timer callback of [queueSyncSoon]: [fullSync().catch(...)]. Of the
    handler the log keeps [renderAuthUi]. *)
Definition queueSyncSoon_callback (e : SyncEnv) (s : Sb) (st : State) : State * Sb * list effect :=
  match fullSyncRows e s st with
  | NotRun => (st, s, [])
  | Done st' s' eff => (st', s', eff)
  | Threw st' s' eff => (st', set_syncing false s', eff ++ [RenderAuthUi])
  end.

(** The states whose rows can be built: every creation time of a label, when
    it has one, and every start and end of a session is a valid date. *)
Definition datable (st : State) : Prop :=
  Forall (λ l, lbl_createdTs l = 0 ∨ validTime (lbl_createdTs l) = true) (labels st)
  ∧ Forall (λ s, validTime (ses_startTs s) = true ∧ validTime (ses_endTs s) = true)
      (sessions st).

(* ================================================================== *)
(** * Durations as text *)

Section formatting.
Context `{H : Blob.Host}.

(** [String(n)] of a whole number: its decimal numeral from 0 up to
    [10^21], the host's formatting elsewhere. *)
Definition num_text (n : Z) : string :=
  if (0 <=? n) && (n <? 10 ^ 21) then pretty n
  else Blob.num_to_string (Blob.Fin (Q2Qc (inject_Z n))).

(** [String(n).padStart(2, '0')] *)
Definition pad2 (n : Z) : string :=
  let s := num_text n in
  match String.length s with
  | O => "00"
  | 1%nat => "0" +:+ s
  | _ => s
  end.

Definition formatHMS (sec : Qc) : string :=
  let sec := Z.max 0 (Math_round sec) in
  let h := sec / 3600 in
  let m := (Z.rem sec 3600) / 60 in
  let s := Z.rem sec 60 in
  pad2 h +:+ ":" +:+ pad2 m +:+ ":" +:+ pad2 s.

Definition formatMMSS (sec : Qc) : string :=
  let sec := Z.max 0 (Math_round sec) in
  let m := sec / 60 in
  let s := Z.rem sec 60 in
  pad2 m +:+ ":" +:+ pad2 s.

End formatting.

(** The whole seconds that the formats show, and the two decimal digits of
    a number below 100. *)
Definition shownSeconds (sec : Qc) : Z := Z.max 0 (Math_round sec).

Definition two_digits (x : Z) : string :=
  String (Ascii.ascii_of_nat (48 + Z.to_nat (x / 10)))
    (String (Ascii.ascii_of_nat (48 + Z.to_nat (x mod 10))) "").

(* ================================================================== *)
(** * The pomodoro timer *)

Record PomSettings := mkPomSettings {
  focusMin : Z;
  breakMin : Z;
  longBreakMin : Z;
  longEvery : Z;
}.

(** The object [{ focusMin, breakMin, longBreakMin, longEvery }] that
    [savePomSettingsModal] stores in [state.pomodoro]. *)
Definition pomSettingsValue (s : PomSettings) : Blob.value :=
  Blob.obj [ ("focusMin", Blob.zn (focusMin s)); ("breakMin", Blob.zn (breakMin s));
             ("longBreakMin", Blob.zn (longBreakMin s)); ("longEvery", Blob.zn (longEvery s)) ].

Section pomodoro.
Context `{H : Blob.Host}.

(** [toInt(v, fallback)]: the rounded number when [Number(v)] is finite. *)
Definition toInt (v : Blob.value) (fallback : Z) : option Z :=
  n ← Blob.to_number v;
  Some (match n with Blob.Fin q => Math_round q | _ => fallback end).

(** [normalizePomSettings(input = {})]; [None] is a [TypeError] (a member
    of [null] is read, or a conversion throws). *)
Definition normalizePomSettings (input : Blob.value) : option PomSettings :=
  match input with
  | Blob.VNull => None
  | _ =>
      let input := match input with Blob.VUndef => Blob.VObj ∅ | _ => input end in
      f ← toInt (Blob.get input "focusMin") 25;
      b ← toInt (Blob.get input "breakMin") 5;
      l ← toInt (Blob.get input "longBreakMin") 15;
      e ← toInt (Blob.get input "longEvery") 4;
      Some {| focusMin := clamp f 1 180;
              breakMin := clamp b 1 60;
              longBreakMin := clamp l 1 120;
              longEvery := clamp e 2 12 |}
  end.

Inductive Phase := Focus | Break.

(** The object [pom]; [pom_interval] tells whether its interval timer is
    installed. *)
Record Pom := mkPom {
  pom_phase : Phase;
  pom_session : Z;
  pom_running : bool;
  pom_remainingSec : Z;
  pom_interval : bool;
}.

(** The globals the timer works on: [state] with its [pomodoro] section,
    [pomSettings] and [pom]. *)
Record PomWorld := mkPomWorld {
  pw_state : State;
  pw_pomodoro : Blob.value;
  pw_settings : PomSettings;
  pw_pom : Pom;
}.

Definition set_pom (p : Pom) (w : PomWorld) : PomWorld :=
  mkPomWorld (pw_state w) (pw_pomodoro w) (pw_settings w) p.

(** The calls of the timer: those of [saveSession], and the drawing, the
    tone and the ambient sound. *)
Inductive timer_call :=
| Ledger (x : effect)
| PomRender
| PomPhaseChip (phase : Phase)
| PomStartText (text : string)
| PomLabelClear
| NotifyTone (kind : string)
| SessEnsureCtx
| SessSyncAmbient.

(** [saveSession] as the timer calls it: [renderAll], which an accepted
    session runs, reads [pomSettings] again from [state.pomodoro]. *)
Definition saveSessionIn (e : SaveEnv) (a : SaveArgs) (w : PomWorld)
  : option (bool * PomWorld * list timer_call) :=
  let '(ok, st', eff) := saveSession e a (pw_state w) in
  if ok then
    s ← normalizePomSettings (pw_pomodoro w);
    Some (true, mkPomWorld st' (pw_pomodoro w) s (pw_pom w), Ledger <$> eff)
  else Some (false, mkPomWorld st' (pw_pomodoro w) (pw_settings w) (pw_pom w), Ledger <$> eff).

Definition pomSetPhase (phase : Phase) (w : PomWorld) : PomWorld * list timer_call :=
  let p := pw_pom w in
  (set_pom (mkPom phase (pom_session p) (pom_running p) (pom_remainingSec p) (pom_interval p)) w,
   [PomPhaseChip phase]).

Definition set_remainingSec (r : Z) (w : PomWorld) : PomWorld :=
  let p := pw_pom w in
  set_pom (mkPom (pom_phase p) (pom_session p) (pom_running p) r (pom_interval p)) w.

Definition set_session (n : Z) (w : PomWorld) : PomWorld :=
  let p := pw_pom w in
  set_pom (mkPom (pom_phase p) n (pom_running p) (pom_remainingSec p) (pom_interval p)) w.

Definition pomStart (w : PomWorld) : PomWorld * list timer_call :=
  let p := pw_pom w in
  if pom_running p then (w, [])
  else
    (set_pom (mkPom (pom_phase p) (pom_session p) true (pom_remainingSec p) true) w,
     [SessEnsureCtx; SessSyncAmbient; PomStartText "Pause"; PomRender]).

Definition pomPause (w : PomWorld) : PomWorld * list timer_call :=
  let p := pw_pom w in
  if negb (pom_running p) then (w, [])
  else
    (set_pom (mkPom (pom_phase p) (pom_session p) false (pom_remainingSec p) false) w,
     [SessSyncAmbient; PomStartText "Start"; PomRender]).

Definition pomToggleStart (w : PomWorld) : PomWorld * list timer_call :=
  if pom_running (pw_pom w) then pomPause w else pomStart w.

Definition pomReset (w : PomWorld) : PomWorld * list timer_call :=
  let '(w1, c1) := pomPause w in
  let '(w2, c2) := pomSetPhase Focus w1 in
  let w3 := set_remainingSec (focusMin (pw_settings w2) * 60) w2 in
  let w4 := set_session 1 w3 in
  (w4, c1 ++ c2 ++ [PomRender]).

Definition pomSkip (w : PomWorld) : PomWorld * list timer_call :=
  match pom_phase (pw_pom w) with
  | Focus =>
      let '(w1, c1) := pomPause w in
      let '(w2, c2) := pomSetPhase Break w1 in
      (set_remainingSec (breakMin (pw_settings w2) * 60) w2, c1 ++ c2 ++ [PomRender])
  | Break =>
      let '(w1, c1) := pomPause w in
      let '(w2, c2) := pomSetPhase Focus w1 in
      let w3 := set_remainingSec (focusMin (pw_settings w2) * 60) w2 in
      (set_session (pom_session (pw_pom w3) + 1) w3, c1 ++ c2 ++ [PomRender])
  end.

(** [pom.session % pomSettings.longEvery === 0]; the remainder by zero is
    [NaN]. *)
Definition isLong (session every : Z) : bool :=
  if every =? 0 then false else Z.rem session every =? 0.

(** [pomCompletePhase]; [labelSel] is the value of the label select. *)
Definition pomCompletePhase (e : SaveEnv) (labelSel : string) (w : PomWorld)
  : option (PomWorld * list timer_call) :=
  let focusDur := focusMin (pw_settings w) * 60 in
  match pom_phase (pw_pom w) with
  | Focus =>
      let reward := normalizeRewardMode (or_else (worldView (pw_state w)) "island") in
      let labelId := or_else labelSel "" in
      let label := if truthy labelId then labelNameFromId labelId (pw_state w) else "" in
      r ← saveSessionIn e {| arg_durationSec := Q2Qc (inject_Z focusDur);
                             arg_method := "pomodoro";
                             arg_rewardMode := Some reward;
                             arg_label := Some label;
                             arg_startedAt := None;
                             arg_endedAt := None |} w;
      let '(_, w1, c1) := r in
      let '(w2, c2) := pomSetPhase Break w1 in
      let s := pw_settings w2 in
      let long := isLong (pom_session (pw_pom w2)) (longEvery s) in
      let w3 := set_remainingSec ((if long then longBreakMin s else breakMin s) * 60) w2 in
      Some (w3, [NotifyTone "pom"] ++ c1 ++ c2 ++ [PomRender])
  | Break =>
      let '(w1, c1) := pomSetPhase Focus w in
      let w2 := set_session (pom_session (pw_pom w1) + 1) w1 in
      let w3 := set_remainingSec (focusMin (pw_settings w2) * 60) w2 in
      Some (w3, [NotifyTone "pom"] ++ c1 ++ [PomRender])
  end.

(** The callback of the interval timer. *)
Definition pomTick (e : SaveEnv) (labelSel : string) (w : PomWorld)
  : option (PomWorld * list timer_call) :=
  let w1 := set_remainingSec (pom_remainingSec (pw_pom w) - 1) w in
  if pom_remainingSec (pw_pom w1) <=? 0 then
    r ← pomCompletePhase e labelSel (set_remainingSec 0 w1);
    Some (fst r, [PomRender] ++ snd r)
  else Some (w1, [PomRender]).

(** [n] rounds of the callback; [envs i] is what the [i]-th round draws
    from the environment. *)
Fixpoint pomTicks (envs : nat → SaveEnv) (labelSel : string) (n : nat) (w : PomWorld)
  : option PomWorld :=
  match n with
  | O => Some w
  | S n' =>
      r ← pomTick (envs O) labelSel w;
      pomTicks (λ i, envs (S i)) labelSel n' (fst r)
  end.

Definition pomSaveFocusElapsed (e : SaveEnv) (labelSel : string) (w : PomWorld)
  : option (PomWorld * list timer_call) :=
  match pom_phase (pw_pom w) with
  | Break => Some (w, [])
  | Focus =>
      let focusDur := focusMin (pw_settings w) * 60 in
      let elapsed := focusDur - pom_remainingSec (pw_pom w) in
      if elapsed <? 60 then Some (w, [])
      else
        let reward :=
          normalizeRewardMode (or_else (worldView (pw_state w)) "island") in
        r ← saveSessionIn e {| arg_durationSec := Q2Qc (inject_Z elapsed);
                               arg_method := "pomodoro";
                               arg_rewardMode := Some reward;
                               arg_label := Some labelSel;
                               arg_startedAt := None;
                               arg_endedAt := None |} w;
        let '(saved, w1, c1) := r in
        if (saved : bool) then
          let '(w2, c2) := pomPause w1 in
          let '(w3, c3) := pomSetPhase Focus w2 in
          let w4 := set_remainingSec (focusMin (pw_settings w3) * 60) w3 in
          Some (w4, c1 ++ c2 ++ c3 ++ [PomRender; PomLabelClear])
        else Some (w1, c1)
  end.

(** [pomSettings] is what [state.pomodoro] normalises to. *)
Definition settingsInStep (w : PomWorld) : Prop :=
  normalizePomSettings (pw_pomodoro w) = Some (pw_settings w).

End pomodoro.

(** A timer in its fourth focus phase, with the default settings. *)
Definition examplePomWorld (remaining : Z) : PomWorld :=
  {| pw_state := exampleState;
     pw_pomodoro := Blob.VObj Blob.dPomodoro;
     pw_settings := mkPomSettings 25 5 15 4;
     pw_pom := mkPom Focus 4 true remaining true |}.

(* ================================================================== *)
(** * Shapes of loaded values *)

Module Loaded.
Import Blob.

(** A number that is [NaN] or lies between two bounds. *)
Definition nanOrWithin (lo hi : Qc) (v : value) : Prop :=
  v = VNum NaN ∨ ∃ q, v = VNum (Fin q) ∧ (lo <= q)%Qc ∧ (q <= hi)%Qc.

Definition isNumber (v : value) : Prop := ∃ n, v = VNum n.
Definition isBoolean (v : value) : Prop := ∃ b, v = VBool b.
Definition isList (v : value) : Prop := ∃ l, v = VArr l.

(** What every loaded state satisfies; [year] is the current year. *)
Definition loadedShape (year : Z) (M : value) : Prop :=
  (∃ merged, M = VObj merged ∧ covers (defaultState year) merged)
  ∧ (get (get M "ui") "worldView" = VStr "island"
     ∨ get (get M "ui") "worldView" = VStr "garden")
  ∧ (∃ t, get (get M "profile") "theme" = VStr t ∧ t ∈ allowedThemes)
  ∧ isBoolean (get (get M "profile") "stopwatchCapOn")
  ∧ nanOrWithin 1 (Q2Qc 24) (get (get M "profile") "stopwatchCapHours")
  ∧ isNumber (get (get M "profile") "weeklyGoalHours")
  ∧ isNumber (get (get M "island") "xpSec")
  ∧ isNumber (get (get M "garden") "growthSec")
  ∧ isNumber (get (get M "garden") "harvestedOnThisTree")
  ∧ isList (get M "sessions")
  ∧ isList (get M "tasks")
  ∧ isList (get (get M "labels") "items")
  ∧ (get (get M "labels") "view" = VStr "list" ∨ get (get M "labels") "view" = VStr "grid")
  ∧ (get (get M "labels") "sort" = VStr "date" ∨ get (get M "labels") "sort" = VStr "name")
  ∧ get (get M "audio") "isPlaying" = VBool false
  ∧ nanOrWithin 0 (Q2Qc 100) (get (get M "audio") "ytVolume")
  ∧ nanOrWithin 0 1 (get (get M "audio") "master")
  ∧ nanOrWithin 0 1 (get (get M "audio") "videoBgOpacity")
  ∧ nanOrWithin 0 1 (get (get M "audio") "videoOverlayOpacity")
  ∧ (∃ vid, vid ≠ "" ∧ get (get M "audio") "lofiVideoId" = VStr vid
            ∧ get (get M "audio") "lofiEmbedUrl" = VStr (embedUrl vid)).

(** What a task holds after a load: four members, the text cut to 80
    units, and neither a description nor a label. *)
Definition bareTask (t : value) : Prop :=
  (∃ id text done created,
     t = obj [ ("id", VStr id); ("text", VStr text);
               ("done", VBool done); ("createdTs", VNum created) ]
     ∧ (String.length text <= 80)%nat)
  ∧ get t "desc" = VUndef
  ∧ get t "labelId" = VUndef.

(** A blob whose task has a description and a label. *)
Definition blobTaskDetails : value :=
  obj [ ("tasks", VArr [ obj [ ("id", VStr "id_4e_18c"); ("text", VStr "read chapter 3");
                               ("desc", VStr "pages 40 to 62"); ("labelId", VStr "lbl_1");
                               ("done", VBool false); ("createdTs", zn 1700000000000) ] ]) ].

End Loaded.

(* ================================================================== *)
(** * The session ledger on JavaScript numbers *)

(** [saveSession] compares the rounded duration with 60 and nothing else,
    and a comparison with [NaN] is false: the guard lets a [NaN] duration
    through. The records above cannot hold the result, so the ledger is
    embedded a second time over records whose numeric fields are JavaScript
    numbers ([NaN] and the infinities included; a finite number stands for
    itself). [saveSession], [deleteSessionById] and [resetStats] above are
    these functions on finite durations and whole counters. *)
Module Ledger.

Definition of_Z (z : Z) : Blob.num := Blob.Fin (Q2Qc (inject_Z z)).

(** [-a], [a + b], [a - b] and [a * b] *)
Definition num_neg (a : Blob.num) : Blob.num :=
  match a with
  | Blob.NaN => Blob.NaN
  | Blob.NegInf => Blob.PosInf
  | Blob.Fin q => Blob.Fin (- q)%Qc
  | Blob.PosInf => Blob.NegInf
  end.

Definition num_add (a b : Blob.num) : Blob.num :=
  match a, b with
  | Blob.NaN, _ | _, Blob.NaN => Blob.NaN
  | Blob.Fin x, Blob.Fin y => Blob.Fin (x + y)%Qc
  | Blob.PosInf, Blob.NegInf | Blob.NegInf, Blob.PosInf => Blob.NaN
  | Blob.PosInf, _ | _, Blob.PosInf => Blob.PosInf
  | Blob.NegInf, _ | _, Blob.NegInf => Blob.NegInf
  end.

Definition num_sub (a b : Blob.num) : Blob.num := num_add a (num_neg b).

(** An infinity times a finite number. *)
Definition scale_inf (inf : Blob.num) (x : Qc) : Blob.num :=
  match (x ?= 0)%Qc with
  | Eq => Blob.NaN
  | Gt => inf
  | Lt => num_neg inf
  end.

Definition num_mul (a b : Blob.num) : Blob.num :=
  match a, b with
  | Blob.NaN, _ | _, Blob.NaN => Blob.NaN
  | Blob.Fin x, Blob.Fin y => Blob.Fin (x * y)%Qc
  | Blob.Fin x, inf => scale_inf inf x
  | inf, Blob.Fin y => scale_inf inf y
  | Blob.PosInf, Blob.PosInf | Blob.NegInf, Blob.NegInf => Blob.PosInf
  | _, _ => Blob.NegInf
  end.

(** [a <= b] and [a >= b]; false when either side is [NaN]. *)
Definition num_le (a b : Blob.num) : bool :=
  negb (Blob.is_NaN a) && negb (Blob.is_NaN b) && negb (Blob.num_lt b a).
Definition num_ge (a b : Blob.num) : bool := num_le b a.

(** [Math.round]: [NaN] and the infinities are returned as they are. *)
Definition Math_round (n : Blob.num) : Blob.num :=
  match n with
  | Blob.Fin q => of_Z (Math_round q)
  | _ => n
  end.

(** A whole number. *)
Definition isInteger (n : Blob.num) : Prop := ∃ z, n = of_Z z.

Record Session := mkSession {
  ses_id : string;
  ses_clientId : string;
  ses_startTs : Blob.num;
  ses_endTs : Blob.num;
  ses_durationSec : Blob.num;
  ses_method : string;
  ses_rewardMode : string;
  ses_label : string;
}.

(** The members of [state] that the ledger reads or writes. *)
Record State := mkState {
  worldView : string;                  (* state.ui.worldView *)
  sessions : list Session;
  xpSec : Blob.num;                         (* state.island.xpSec *)
  growthSec : Blob.num;                     (* state.garden.growthSec *)
  harvestedOnThisTree : Blob.num;           (* state.garden.harvestedOnThisTree *)
  fruitCollection : gmap string Blob.num;
}.

Definition defaultState : State :=
  {| worldView := "island"; sessions := []; xpSec := of_Z 0; growthSec := of_Z 0;
     harvestedOnThisTree := of_Z 0; fruitCollection := of_Z <$> zeroFruits |}.

(** The argument object of [saveSession]. *)
Record SaveArgs := mkSaveArgs {
  arg_durationSec : Blob.num;
  arg_method : string;
  arg_rewardMode : option string;
  arg_label : option string;
  arg_startedAt : option Blob.num;
  arg_endedAt : option Blob.num;
}.

Definition saveSession (e : SaveEnv) (a : SaveArgs) (st : State)
  : bool * State * list effect :=
  let dur := Blob.Math_max (of_Z 0) (Math_round (arg_durationSec a)) in
  if Blob.num_lt dur (of_Z 60) then (false, st, [Toast "Session not saved"])
  else
    let endTs := opt_or (arg_endedAt a) (of_Z (env_now e)) in
    let startTs := opt_or (arg_startedAt a) (num_sub endTs (num_mul dur (of_Z 1000))) in
    let id := "s_" +:+ env_fresh e in
    let session :=
      {| ses_id := id;
         ses_clientId := id;
         ses_startTs := startTs;
         ses_endTs := endTs;
         ses_durationSec := dur;
         ses_method := arg_method a;
         ses_rewardMode :=
           normalizeRewardMode (or_else (opt_or (arg_rewardMode a) (worldView st)) "island");
         ses_label := slice0 24 (trim (opt_or (arg_label a) "")) |} in
    (true,
     {| worldView := worldView st;
        sessions := session :: sessions st;
        xpSec := num_add (xpSec st) dur;
        growthSec := num_add (growthSec st) dur;
        harvestedOnThisTree := harvestedOnThisTree st;
        fruitCollection := fruitCollection st |},
     [SaveState; SbUpsertSoon; RenderAll; Toast "Session saved"]).

Definition deleteSessionById (sessionId : string) (st : State)
  : bool * State * list effect :=
  if negb (truthy sessionId) then (false, st, [])
  else
    match list_find (λ s, ses_id s = sessionId) (sessions st) with
    | None => (false, st, [])
    | Some (idx, removed) =>
        let dur := or_else (ses_durationSec removed) (of_Z 0) in
        (true,
         {| worldView := worldView st;
            sessions := delete idx (sessions st);
            xpSec := Blob.Math_max (of_Z 0) (num_sub (or_else (xpSec st) (of_Z 0)) dur);
            growthSec := Blob.Math_max (of_Z 0) (num_sub (or_else (growthSec st) (of_Z 0)) dur);
            harvestedOnThisTree := harvestedOnThisTree st;
            fruitCollection := fruitCollection st |},
         [SaveState; RenderAll; Toast "Deleted";
          SbDeleteSession (or_else (or_else (ses_clientId removed) (ses_id removed)) sessionId)])
    end.

Definition resetStats (st : State) : State * list effect :=
  ({| worldView := worldView st; sessions := []; xpSec := of_Z 0; growthSec := of_Z 0;
      harvestedOnThisTree := of_Z 0; fruitCollection := of_Z <$> zeroFruits |},
   [SaveState; SbDeleteAllSessions; SbUpsertSoon; RenderAll; Toast "Reset"]).

(** A ledger operation, and the states reached after each operation of a
    run, in order. *)
Inductive LedgerOp :=
| OpSave (e : SaveEnv) (a : SaveArgs)
| OpDelete (sessionId : string)
| OpReset.

Definition stepLedger (op : LedgerOp) (st : State) : State :=
  match op with
  | OpSave e a => snd (fst (saveSession e a st))
  | OpDelete i => snd (fst (deleteSessionById i st))
  | OpReset => fst (resetStats st)
  end.

Fixpoint traceLedger (ops : list LedgerOp) (st : State) : list State :=
  match ops with
  | [] => []
  | op :: ops' => stepLedger op st :: traceLedger ops' (stepLedger op st)
  end.

(** The operation hands [saveSession] a finite duration, if it is a save. *)
Definition finiteSave (op : LedgerOp) : Prop :=
  match op with
  | OpSave _ a => ∃ q, arg_durationSec a = Blob.Fin q
  | _ => True
  end.

(** The recorded study time: the sum of the stored durations. *)
Definition totalDuration (l : list Session) : Blob.num :=
  foldr (λ s acc, num_add (ses_durationSec s) acc) (of_Z 0) l.

Definition ledgerExact (st : State) : Prop :=
  xpSec st = totalDuration (sessions st) ∧ growthSec st = totalDuration (sessions st).

(** Every stored duration is a whole number of at least 60 seconds. *)
Definition minDuration (st : State) : Prop :=
  Forall (λ s, ∃ z, ses_durationSec s = of_Z z ∧ 60 ≤ z) (sessions st).

(** "A session is persisted if and only if round(d) >= 60", for every
    duration. *)
Definition minimumDuration : Prop :=
  ∀ e a st,
    fst (fst (saveSession e a st)) = true
    ↔ num_ge (Math_round (arg_durationSec a)) (of_Z 60) = true.

(** The arguments [manualAddSession] builds when [durSec] is [NaN]. *)
Definition nanArgs : SaveArgs :=
  {| arg_durationSec := Blob.NaN; arg_method := "manual"; arg_rewardMode := Some "island";
     arg_label := Some ""; arg_startedAt := None; arg_endedAt := Some (of_Z 1700000000000) |}.

Definition finiteArgs (d : Z) : SaveArgs :=
  {| arg_durationSec := of_Z d; arg_method := "stopwatch"; arg_rewardMode := None;
     arg_label := Some "Maths"; arg_startedAt := None; arg_endedAt := None |}.

End Ledger.

(** The records above, read as records of the ledger on numbers. *)
Definition ledgerSession (s : Session) : Ledger.Session :=
  {| Ledger.ses_id := ses_id s;
     Ledger.ses_clientId := ses_clientId s;
     Ledger.ses_startTs := Ledger.of_Z (ses_startTs s);
     Ledger.ses_endTs := Ledger.of_Z (ses_endTs s);
     Ledger.ses_durationSec := Ledger.of_Z (ses_durationSec s);
     Ledger.ses_method := ses_method s;
     Ledger.ses_rewardMode := ses_rewardMode s;
     Ledger.ses_label := ses_label s |}.

Definition ledgerState (st : State) : Ledger.State :=
  {| Ledger.worldView := worldView st;
     Ledger.sessions := ledgerSession <$> sessions st;
     Ledger.xpSec := Ledger.of_Z (xpSec st);
     Ledger.growthSec := Ledger.of_Z (growthSec (garden st));
     Ledger.harvestedOnThisTree := Ledger.of_Z (harvestedOnThisTree (garden st));
     Ledger.fruitCollection := Ledger.of_Z <$> fruitCollection st |}.

Definition ledgerArgs (a : SaveArgs) : Ledger.SaveArgs :=
  {| Ledger.arg_durationSec := Blob.Fin (arg_durationSec a);
     Ledger.arg_method := arg_method a;
     Ledger.arg_rewardMode := arg_rewardMode a;
     Ledger.arg_label := arg_label a;
     Ledger.arg_startedAt := Ledger.of_Z <$> arg_startedAt a;
     Ledger.arg_endedAt := Ledger.of_Z <$> arg_endedAt a |}.

(* ================================================================== *)
(** * The pull phase, row by row *)

(** [r.local_id || r.id]: the identifier under which a label row is
    merged. *)
Definition rowLabelId (r : LabelRow) : string := opt_or (local_id r) (row_id r).

(** "Local wins", for every local session: a local session whose
    [clientId] a remote row carries is in the list after the pull, as it
    was. *)
Definition localWins : Prop :=
  ∀ e rows st s r,
    s ∈ sessions st → r ∈ rows → client_id r = ses_clientId s →
    s ∈ sessions (pullSessions e rows st).

(** "Local-only entries are preserved", for every local label: a local
    label whose identifier no remote row carries is in the label set after
    the pull. *)
Definition localOnlyKept : Prop :=
  ∀ e deleted rows st l,
    l ∈ labels st → (∀ r, r ∈ rows → rowLabelId r ≠ lbl_id l) →
    l ∈ labels (pullLabels e deleted rows st).

(** Two local sessions under one key, and two local labels under one
    identifier. *)
Definition exampleTwins : State :=
  set_labels [ mkLabel "lbl_1" "Maths" "#a855f7" false 1650000000000;
               mkLabel "lbl_1" "Physics" "#22c55e" true 1660000000000 ]
    (set_sessions [ exampleSession "s_X" 1700000000000 1500;
                    exampleSession "s_X" 1700000900000 600 ] exampleState).

(* ================================================================== *)
(** * Saving the state and reading it back *)

Module Store.
Import Blob.

(** [JSON.parse(JSON.stringify(v))] for a [v] that [JSON.stringify] writes
    (every [v] but [undefined] itself): [NaN] and the infinities are
    written as [null], a member that is [undefined] is left out, an element
    that is [undefined] is written as [null]. *)
Fixpoint reparse (v : value) : value :=
  match v with
  | VNum (Fin q) => VNum (Fin q)
  | VNum _ => VNull
  | VArr l => VArr (map (λ x, match x with VUndef => VNull | _ => reparse x end) l)
  | VObj m => VObj (omap (λ x, match x with VUndef => None | _ => Some (reparse x) end) m)
  | _ => v
  end.

(** [saveState()], that is [storage.setItem(STORAGE_KEY,
    JSON.stringify(state))], when the write goes through, followed by the
    reading of the item through [safeParseJson]: the blob that the next
    [loadState] finds. The text [undefined] that is stored for a state
    that is [undefined] does not parse. *)
Definition saveState (state : value) : blob :=
  match state with
  | VUndef => NotJson
  | _ => Json (reparse state)
  end.

(** A value without [NaN], infinity or [undefined] in it. *)
Fixpoint lossless (v : value) : bool :=
  match v with
  | VUndef => false
  | VNum (Fin _) => true
  | VNum _ => false
  | VArr l => forallb lossless l
  | VObj m => map_fold (λ _ x b, lossless x && b) true m
  | _ => true
  end.

(** The number of nodes of a value. *)
Fixpoint size (v : value) : nat :=
  match v with
  | VArr l => S (foldr (λ x n, size x + n)%nat 0%nat l)
  | VObj m => S (map_fold (λ _ x n, size x + n)%nat 0%nat m)
  | _ => 1%nat
  end.

(** "Loading the serialization of a previously-loaded state reproduces
    it", for every loaded state. *)
Definition reloadExact : Prop :=
  ∀ (H : Host) (e : LoadEnv) (raw : blob) (M : value) (b : bool),
    loadState e raw = Some (M, b) → ∃ b', loadState e (saveState M) = Some (M, b').

(** What [JSON.parse] yields for a text with the number [1e999] as weekly
    goal and an object as [xpSec]. *)
Definition blobLossy : value :=
  obj [ ("profile", obj [ ("weeklyGoalHours", VNum PosInf) ]);
        ("island", obj [ ("xpSec", VObj ∅) ]) ].

End Store.

(* ================================================================== *)
(* ================================================================== *)
(** * Theorems *)

(* ================================================================== *)
(** * Facts about the JavaScript operators *)

Lemma or_else_Z_0 (z : Z) : or_else z 0 = z.
Proof.
  unfold or_else, truthy, truthy_Z.
  destruct (z =? 0) eqn:E; simpl; [apply Z.eqb_eq in E; lia | reflexivity].
Qed.

(* ================================================================== *)
(** * Session ledger *)

Lemma saveSession_reject e a st :
  Z.max 0 (Math_round (arg_durationSec a)) < 60 →
  saveSession e a st = (false, st, [Toast "Session not saved"]).
Proof.
  intros Hlt. unfold saveSession.
  destruct (Z.ltb_spec (Z.max 0 (Math_round (arg_durationSec a))) 60); [reflexivity | lia].
Qed.

Lemma saveSession_accept e a st :
  60 ≤ Math_round (arg_durationSec a) →
  ∃ s, saveSession e a st =
         (true,
          set_garden (set_growthSec (growthSec (garden st) + Math_round (arg_durationSec a))
                                    (garden st))
            (set_xpSec (xpSec st + Math_round (arg_durationSec a))
               (set_sessions (s :: sessions st) st)),
          [SaveState; SbUpsertSoon; RenderAll; Toast "Session saved"])
       ∧ ses_durationSec s = Math_round (arg_durationSec a)
       ∧ ses_clientId s = ses_id s.
Proof.
  intros Hge. unfold saveSession.
  replace (Z.max 0 (Math_round (arg_durationSec a))) with (Math_round (arg_durationSec a)) by lia.
  destruct (Z.ltb_spec (Math_round (arg_durationSec a)) 60); [lia |].
  eexists. split; [reflexivity | split; reflexivity].
Qed.

(** ** The ledger on numbers *)

(** Whole numbers. *)

Lemma of_Z_inj (a b : Z) : Ledger.of_Z a = Ledger.of_Z b → a = b.
Proof.
  unfold Ledger.of_Z. intros Heq.
  apply (f_equal (λ n, match n with Blob.Fin q => q | _ => 0%Qc end)) in Heq.
  change (Q2Qc (inject_Z a) = Q2Qc (inject_Z b)) in Heq.
  apply Q2Qc_eq_iff in Heq. by apply inject_Z_injective.
Qed.

Lemma of_Z_add (a b : Z) :
  Ledger.num_add (Ledger.of_Z a) (Ledger.of_Z b) = Ledger.of_Z (a + b).
Proof.
  unfold Ledger.of_Z, Ledger.num_add. f_equal.
  apply Qc_is_canon. simpl. rewrite !Qred_correct. by rewrite inject_Z_plus.
Qed.

Lemma of_Z_sub (a b : Z) :
  Ledger.num_sub (Ledger.of_Z a) (Ledger.of_Z b) = Ledger.of_Z (a - b).
Proof.
  unfold Ledger.of_Z, Ledger.num_sub, Ledger.num_neg, Ledger.num_add. f_equal.
  apply Qc_is_canon. simpl. rewrite !Qred_correct.
  unfold Z.sub. by rewrite inject_Z_plus, inject_Z_opp.
Qed.

Lemma of_Z_mul (a b : Z) :
  Ledger.num_mul (Ledger.of_Z a) (Ledger.of_Z b) = Ledger.of_Z (a * b).
Proof.
  unfold Ledger.of_Z, Ledger.num_mul. f_equal.
  apply Qc_is_canon. simpl. rewrite !Qred_correct. by rewrite inject_Z_mult.
Qed.

Lemma of_Z_lt (a b : Z) : Blob.num_lt (Ledger.of_Z a) (Ledger.of_Z b) = (a <? b).
Proof.
  unfold Ledger.of_Z, Blob.num_lt.
  destruct (Qclt_le_dec _ _) as [Hlt | Hge]; symmetry.
  - apply Z.ltb_lt. unfold Qclt in Hlt. simpl in Hlt. rewrite !Qred_correct in Hlt.
    by rewrite Zlt_Qlt.
  - apply Z.ltb_ge. unfold Qcle in Hge. simpl in Hge. rewrite !Qred_correct in Hge.
    by rewrite Zle_Qle.
Qed.

Lemma of_Z_max (a b : Z) :
  Blob.Math_max (Ledger.of_Z a) (Ledger.of_Z b) = Ledger.of_Z (Z.max a b).
Proof.
  unfold Blob.Math_max. change (Blob.is_NaN (Ledger.of_Z a)) with false.
  change (Blob.is_NaN (Ledger.of_Z b)) with false. cbn [orb].
  rewrite of_Z_lt. destruct (Z.ltb_spec a b); f_equal; lia.
Qed.

Lemma of_Z_truthy (a : Z) : truthy (Ledger.of_Z a) = truthy a.
Proof.
  unfold truthy, Blob.truthy_num, truthy_Z, Ledger.of_Z.
  destruct (Qc_eq_dec _ _) as [Heq | Hne]; destruct (Z.eqb_spec a 0) as [-> | Hz];
    cbn [negb]; try reflexivity.
  - exfalso. apply Hz. apply (of_Z_inj a 0). unfold Ledger.of_Z. by rewrite Heq.
  - exfalso. by apply Hne.
Qed.

Lemma of_Z_or_else (a b : Z) :
  or_else (Ledger.of_Z a) (Ledger.of_Z b) = Ledger.of_Z (or_else a b).
Proof. unfold or_else. rewrite of_Z_truthy. by destruct (truthy a). Qed.

Lemma of_Z_ge (a b : Z) : Ledger.num_ge (Ledger.of_Z a) (Ledger.of_Z b) = (b <=? a).
Proof.
  unfold Ledger.num_ge, Ledger.num_le.
  change (Blob.is_NaN (Ledger.of_Z a)) with false.
  change (Blob.is_NaN (Ledger.of_Z b)) with false. cbn [negb andb].
  rewrite of_Z_lt. destruct (Z.ltb_spec a b), (Z.leb_spec b a); try reflexivity; lia.
Qed.

(** ** The ledger on numbers: [saveSession] *)

Lemma ledger_saveSession_reject e a st :
  Blob.num_lt (Blob.Math_max (Ledger.of_Z 0) (Ledger.Math_round (Ledger.arg_durationSec a)))
              (Ledger.of_Z 60) = true →
  Ledger.saveSession e a st = (false, st, [Toast "Session not saved"]).
Proof. intros Hlt. unfold Ledger.saveSession. by rewrite Hlt. Qed.

Lemma ledger_saveSession_accept e a st :
  let dur := Blob.Math_max (Ledger.of_Z 0) (Ledger.Math_round (Ledger.arg_durationSec a)) in
  Blob.num_lt dur (Ledger.of_Z 60) = false →
  ∃ s, Ledger.saveSession e a st
       = (true,
          Ledger.mkState (Ledger.worldView st) (s :: Ledger.sessions st)
            (Ledger.num_add (Ledger.xpSec st) dur) (Ledger.num_add (Ledger.growthSec st) dur)
            (Ledger.harvestedOnThisTree st) (Ledger.fruitCollection st),
          [SaveState; SbUpsertSoon; RenderAll; Toast "Session saved"])
       ∧ Ledger.ses_durationSec s = dur
       ∧ Ledger.ses_id s = "s_" +:+ env_fresh e
       ∧ Ledger.ses_clientId s = Ledger.ses_id s.
Proof.
  intros dur Hge. unfold Ledger.saveSession. fold dur. rewrite Hge.
  eexists. split; [reflexivity |]. by repeat split.
Qed.

(** The duration [saveSession] works with, by the kind of number it is
    handed. *)
Lemma ledger_dur_cases (d : Blob.num) :
  let r := Ledger.Math_round d in
  let dur := Blob.Math_max (Ledger.of_Z 0) r in
  match d with
  | Blob.NaN =>
      r = Blob.NaN ∧ dur = Blob.NaN
      ∧ Blob.num_lt r (Ledger.of_Z 60) = false ∧ Ledger.num_ge r (Ledger.of_Z 60) = false
      ∧ Blob.num_lt dur (Ledger.of_Z 60) = false
  | Blob.NegInf =>
      Blob.num_lt r (Ledger.of_Z 60) = true ∧ Ledger.num_ge r (Ledger.of_Z 60) = false
      ∧ Blob.num_lt dur (Ledger.of_Z 60) = true
  | Blob.PosInf =>
      r = Blob.PosInf ∧ dur = Blob.PosInf
      ∧ Blob.num_lt r (Ledger.of_Z 60) = false ∧ Ledger.num_ge r (Ledger.of_Z 60) = true
      ∧ Blob.num_lt dur (Ledger.of_Z 60) = false
  | Blob.Fin q =>
      r = Ledger.of_Z (Math_round q) ∧ dur = Ledger.of_Z (Z.max 0 (Math_round q))
      ∧ Blob.num_lt r (Ledger.of_Z 60) = (Math_round q <? 60)
      ∧ Ledger.num_ge r (Ledger.of_Z 60) = (60 <=? Math_round q)
      ∧ Blob.num_lt dur (Ledger.of_Z 60) = (Math_round q <? 60)
  end.
Proof.
  intros r dur. subst r dur. destruct d as [| | q |]; cbn [Ledger.Math_round].
  - by repeat split.
  - by repeat split.
  - rewrite of_Z_max, !of_Z_lt, of_Z_ge. repeat split.
    destruct (Z.ltb_spec (Math_round q) 60), (Z.ltb_spec (Z.max 0 (Math_round q)) 60);
      try reflexivity; lia.
  - by repeat split.
Qed.

(** C1. [saveSession] on every number it can be handed. For a duration
    that is not [NaN] it does what the claim says: the session is persisted
    exactly when the rounded duration is at least 60; below 60 the call
    returns [false] with the state as it was and nothing saved; from 60 on
    the record is put at the front of the list with the rounded duration and
    both counters grow by it. A [NaN] duration is neither below 60 nor at
    least 60, and it gets past the guard: the call returns [true], a record
    whose [durationSec] is [NaN] is put at the front of the list and saved,
    and both counters become [NaN]. *)
Theorem saveSession_minimum_duration (e : SaveEnv) (a : Ledger.SaveArgs) (st : Ledger.State) :
  let d := Ledger.arg_durationSec a in
  let r := Ledger.Math_round d in
  let ok := fst (fst (Ledger.saveSession e a st)) in
  let st' := snd (fst (Ledger.saveSession e a st)) in
  let eff := snd (Ledger.saveSession e a st) in
  (d ≠ Blob.NaN →
     ((ok = true ∧ SaveState ∈ eff
       ∧ length (Ledger.sessions st') = S (length (Ledger.sessions st)))
      ↔ Ledger.num_ge r (Ledger.of_Z 60) = true)
     ∧ (Ledger.num_ge r (Ledger.of_Z 60) = false → Blob.num_lt r (Ledger.of_Z 60) = true))
  ∧ (Blob.num_lt r (Ledger.of_Z 60) = true →
       ok = false ∧ (SaveState ∉ eff) ∧ st' = st)
  ∧ (Ledger.num_ge r (Ledger.of_Z 60) = true →
       ok = true ∧ SaveState ∈ eff
       ∧ (∃ s, Ledger.sessions st' = s :: Ledger.sessions st ∧ Ledger.ses_durationSec s = r)
       ∧ Ledger.xpSec st' = Ledger.num_add (Ledger.xpSec st) r
       ∧ Ledger.growthSec st' = Ledger.num_add (Ledger.growthSec st) r)
  ∧ (d = Blob.NaN →
       Ledger.num_ge r (Ledger.of_Z 60) = false
       ∧ Blob.num_lt r (Ledger.of_Z 60) = false
       ∧ ok = true ∧ SaveState ∈ eff
       ∧ (∃ s, Ledger.sessions st' = s :: Ledger.sessions st
               ∧ Ledger.ses_durationSec s = Blob.NaN)
       ∧ Ledger.xpSec st' = Blob.NaN
       ∧ Ledger.growthSec st' = Blob.NaN).
Proof.
  intros d r ok st' eff. subst ok st' eff.
  pose proof (ledger_dur_cases d) as Hd. cbv zeta in Hd. fold r in Hd.
  assert (Hrej : Blob.num_lt (Blob.Math_max (Ledger.of_Z 0) r) (Ledger.of_Z 60) = true →
                 fst (fst (Ledger.saveSession e a st)) = false
                 ∧ SaveState ∉ snd (Ledger.saveSession e a st)
                 ∧ snd (fst (Ledger.saveSession e a st)) = st).
  { intros Hlt. rewrite (ledger_saveSession_reject e a st Hlt). cbn [fst snd].
    repeat split. intros Hin. apply list_elem_of_singleton in Hin. discriminate Hin. }
  assert (Hacc : Blob.num_lt (Blob.Math_max (Ledger.of_Z 0) r) (Ledger.of_Z 60) = false →
                 fst (fst (Ledger.saveSession e a st)) = true
                 ∧ SaveState ∈ snd (Ledger.saveSession e a st)
                 ∧ length (Ledger.sessions (snd (fst (Ledger.saveSession e a st))))
                   = S (length (Ledger.sessions st))
                 ∧ (∃ s, Ledger.sessions (snd (fst (Ledger.saveSession e a st)))
                         = s :: Ledger.sessions st
                         ∧ Ledger.ses_durationSec s = Blob.Math_max (Ledger.of_Z 0) r)
                 ∧ Ledger.xpSec (snd (fst (Ledger.saveSession e a st)))
                   = Ledger.num_add (Ledger.xpSec st) (Blob.Math_max (Ledger.of_Z 0) r)
                 ∧ Ledger.growthSec (snd (fst (Ledger.saveSession e a st)))
                   = Ledger.num_add (Ledger.growthSec st) (Blob.Math_max (Ledger.of_Z 0) r)).
  { intros Hge. destruct (ledger_saveSession_accept e a st Hge) as (s & -> & Hdur & _).
    cbn [fst snd Ledger.sessions Ledger.xpSec Ledger.growthSec length].
    split; [done |]. split; [left |]. split; [done |]. split; [by exists s |]. done. }
  destruct d as [| | q |].
  - (* NaN *)
    destruct Hd as (Hr & Hdur & Hlt & Hge & Hdlt).
    destruct (Hacc Hdlt) as (A1 & A2 & A3 & (s & A4 & A5) & A6 & A7).
    rewrite Hdur in A5, A6, A7.
    split; [done |]. split; [by rewrite Hlt |]. split; [by rewrite Hge |].
    intros _. do 4 (split; [done |]). split; [by exists s |].
    split; [rewrite A6; by destruct (Ledger.xpSec st)
           | rewrite A7; by destruct (Ledger.growthSec st)].
  - (* -Infinity *)
    destruct Hd as (Hlt & Hge & Hdlt). destruct (Hrej Hdlt) as (R1 & R2 & R3).
    split; [| split; [done | split; [by rewrite Hge | done]]].
    intros _. split; [| done]. rewrite Hge, R1. split; [intros [? _] |]; done.
  - (* a finite number *)
    destruct Hd as (Hr & Hdur & Hlt & Hge & Hdlt).
    destruct (Z.ltb_spec (Math_round q) 60) as [Hq | Hq].
    + destruct (Hrej Hdlt) as (R1 & R2 & R3).
      assert (Hge' : Ledger.num_ge r (Ledger.of_Z 60) = false).
      { rewrite Hge. by apply Z.leb_gt. }
      split; [| split; [done | split; [by rewrite Hge' | done]]].
      intros _. split; [| done]. rewrite Hge', R1. split; [intros [? _] |]; done.
    + destruct (Hacc Hdlt) as (A1 & A2 & A3 & (s & A4 & A5) & A6 & A7).
      assert (Hge' : Ledger.num_ge r (Ledger.of_Z 60) = true).
      { rewrite Hge. by apply Z.leb_le. }
      assert (Hmax : Blob.Math_max (Ledger.of_Z 0) r = r).
      { rewrite Hdur, Hr. f_equal. lia. }
      rewrite Hmax in A5, A6, A7.
      split; [| split; [by rewrite Hlt | split; [| done]]].
      * intros _. split; [| by rewrite Hge']. rewrite Hge'. done.
      * intros _. do 2 (split; [done |]). split; [by exists s | done].
  - (* +Infinity *)
    destruct Hd as (Hr & Hdur & Hlt & Hge & Hdlt).
    destruct (Hacc Hdlt) as (A1 & A2 & A3 & (s & A4 & A5) & A6 & A7).
    assert (Hmax : Blob.Math_max (Ledger.of_Z 0) r = r) by by rewrite Hdur, Hr.
    rewrite Hmax in A5, A6, A7.
    split; [| split; [by rewrite Hlt | split; [| done]]].
    + intros _. split; [| by rewrite Hge]. rewrite Hge. done.
    + intros _. do 2 (split; [done |]). split; [by exists s | done].
Qed.

(** The guard at [NaN]: the rounded duration is not at least 60, and the
    session is stored. *)
Lemma saveSession_stores_NaN : ¬ Ledger.minimumDuration.
Proof.
  intros Hmin.
  destruct (Hmin exampleEnv Ledger.nanArgs Ledger.defaultState) as [Hto _].
  discriminate (Hto eq_refl).
Qed.

Example saveSession_NaN_example :
  Ledger.saveSession exampleEnv Ledger.nanArgs Ledger.defaultState
  = (true,
     {| Ledger.worldView := "island";
        Ledger.sessions :=
          [ Ledger.mkSession "s_a1b2_18c" "s_a1b2_18c" Blob.NaN (Ledger.of_Z 1700000000000)
              Blob.NaN "manual" "island" "" ];
        Ledger.xpSec := Blob.NaN;
        Ledger.growthSec := Blob.NaN;
        Ledger.harvestedOnThisTree := Ledger.of_Z 0;
        Ledger.fruitCollection := Ledger.of_Z <$> zeroFruits |},
     [SaveState; SbUpsertSoon; RenderAll; Toast "Session saved"]).
Proof. reflexivity. Qed.

(** ** The ledger above is the ledger on numbers, on finite durations *)

Lemma opt_or_of_Z (o : option Z) (d : Z) :
  opt_or (Ledger.of_Z <$> o) (Ledger.of_Z d) = Ledger.of_Z (opt_or o d).
Proof.
  destruct o as [z |]; [| done]. unfold opt_or, opt_case. cbn [fmap option_fmap option_map].
  rewrite of_Z_truthy. by destruct (truthy z).
Qed.

Lemma saveSession_on_numbers e a st :
  Ledger.saveSession e (ledgerArgs a) (ledgerState st)
  = (fst (fst (saveSession e a st)), ledgerState (snd (fst (saveSession e a st))),
     snd (saveSession e a st)).
Proof.
  unfold Ledger.saveSession, saveSession.
  cbn [ledgerArgs Ledger.arg_durationSec Ledger.Math_round Ledger.arg_endedAt
         Ledger.arg_startedAt Ledger.arg_method Ledger.arg_rewardMode Ledger.arg_label].
  rewrite of_Z_max, of_Z_lt.
  destruct (Z.ltb_spec (Z.max 0 (Math_round (arg_durationSec a))) 60); [done |].
  cbn [fst snd]. f_equal. f_equal.
  rewrite !opt_or_of_Z, of_Z_mul, of_Z_sub, opt_or_of_Z.
  destruct st as [p wv ss xp [tt gs h] fc ls]. unfold ledgerState.
  cbn [Ledger.worldView Ledger.sessions Ledger.xpSec Ledger.growthSec
         Ledger.harvestedOnThisTree Ledger.fruitCollection worldView sessions xpSec garden
         growthSec harvestedOnThisTree fruitCollection set_sessions set_xpSec set_garden
         set_growthSec treeType profile labels].
  rewrite !of_Z_add. rewrite fmap_cons. reflexivity.
Qed.

Lemma deleteSessionById_on_numbers i st :
  Ledger.deleteSessionById i (ledgerState st)
  = (fst (fst (deleteSessionById i st)), ledgerState (snd (fst (deleteSessionById i st))),
     snd (deleteSessionById i st)).
Proof.
  unfold Ledger.deleteSessionById, deleteSessionById.
  destruct (truthy i); cbn [negb]; [| done].
  unfold ledgerState at 1. cbn [Ledger.sessions].
  rewrite (list_find_fmap ledgerSession (λ s, Ledger.ses_id s = i) (sessions st)).
  change (list_find ((λ s, Ledger.ses_id s = i) ∘ ledgerSession) (sessions st))
    with (list_find (λ s, ses_id s = i) (sessions st)).
  destruct (list_find (λ s, ses_id s = i) (sessions st)) as [[idx removed] |]; [| done].
  cbn [fmap option_fmap option_map prod_map id fst snd ledgerSession Ledger.ses_durationSec
         Ledger.ses_clientId Ledger.ses_id].
  f_equal. f_equal.
  destruct st as [p wv ss xp [tt gs h] fc ls]. unfold ledgerState.
  cbn [Ledger.worldView Ledger.sessions Ledger.xpSec Ledger.growthSec
         Ledger.harvestedOnThisTree Ledger.fruitCollection worldView sessions xpSec garden
         growthSec harvestedOnThisTree fruitCollection set_sessions set_xpSec set_garden
         set_growthSec treeType profile labels].
  rewrite !of_Z_or_else, !of_Z_sub, !of_Z_max, list_fmap_delete. reflexivity.
Qed.

Lemma resetStats_on_numbers st :
  Ledger.resetStats (ledgerState st) = (ledgerState (fst (resetStats st)), snd (resetStats st)).
Proof. destruct st as [p wv ss xp [tt gs h] fc ls]. reflexivity. Qed.

Lemma ledger_step_minDuration op st :
  Ledger.finiteSave op → Ledger.minDuration st → Ledger.minDuration (Ledger.stepLedger op st).
Proof.
  unfold Ledger.minDuration. intros Hfin Hmin.
  destruct op as [e a | i |]; cbn [Ledger.stepLedger].
  - destruct Hfin as [q Hq].
    pose proof (ledger_dur_cases (Ledger.arg_durationSec a)) as Hd. cbv zeta in Hd.
    rewrite Hq in Hd. destruct Hd as (_ & Hdur & _ & _ & Hlt). rewrite <- Hq in Hdur, Hlt.
    destruct (Z.ltb_spec (Math_round q) 60) as [Hlow | Hhigh].
    + by rewrite (ledger_saveSession_reject e a st Hlt).
    + destruct (ledger_saveSession_accept e a st Hlt) as (s & -> & Hs & _).
      cbn [fst snd Ledger.sessions]. constructor; [| done].
      exists (Z.max 0 (Math_round q)). split; [by rewrite Hs, Hdur | lia].
  - unfold Ledger.deleteSessionById. destruct (truthy i); cbn [negb]; [| done].
    destruct (list_find _ _) as [[idx removed] |]; [| done].
    cbn [fst snd Ledger.sessions]. by apply Forall_delete.
  - constructor.
Qed.

(** ** The ledger on finite durations *)

Example saveSession_rounds_up :
  Math_round (Q2Qc (595 # 10)) = 60
  ∧ fst (fst (saveSession exampleEnv (exampleArgs (Q2Qc (595 # 10))) defaultState)) = true
  ∧ Math_round (Q2Qc (594 # 10)) = 59
  ∧ saveSession exampleEnv (exampleArgs (Q2Qc (594 # 10))) defaultState
    = (false, defaultState, [Toast "Session not saved"]).
Proof. vm_compute. repeat split. Qed.

(** Recording 1500 seconds and deleting the record again. *)
Example record_then_delete :
  let st1 := snd (fst (saveSession exampleEnv (exampleArgs (Q2Qc 1500)) defaultState)) in
  let st2 := snd (fst (deleteSessionById "s_a1b2_18c" st1)) in
  sessions st1
  = [ mkSession "s_a1b2_18c" "s_a1b2_18c" 1699998500000 1700000000000 1500
        "stopwatch" "island" "Maths" ]
  ∧ xpSec st1 = 1500 ∧ growthSec (garden st1) = 1500
  ∧ sessions st2 = [] ∧ xpSec st2 = 0 ∧ growthSec (garden st2) = 0.
Proof. vm_compute. repeat split. Qed.

Lemma saveSession_cases e a st :
  saveSession e a st = (false, st, [Toast "Session not saved"])
  ∨ ∃ s r, 60 ≤ r
      ∧ ses_durationSec s = r
      ∧ snd (fst (saveSession e a st)) =
          set_garden (set_growthSec (growthSec (garden st) + r) (garden st))
            (set_xpSec (xpSec st + r) (set_sessions (s :: sessions st) st)).
Proof.
  destruct (Z.lt_ge_cases (Math_round (arg_durationSec a)) 60) as [Hlt | Hge].
  - left. apply saveSession_reject. lia.
  - right. destruct (saveSession_accept e a st Hge) as (s & Heq & Hdur & _).
    exists s, (Math_round (arg_durationSec a)). rewrite Heq. auto.
Qed.

Lemma deleteSessionById_cases i st :
  deleteSessionById i st = (false, st, [])
  ∨ ∃ idx removed,
      sessions st !! idx = Some removed
      ∧ ses_id removed = i
      ∧ snd (fst (deleteSessionById i st)) =
          set_garden (set_growthSec (Z.max 0 (growthSec (garden st) - ses_durationSec removed))
                                    (garden st))
            (set_xpSec (Z.max 0 (xpSec st - ses_durationSec removed))
               (set_sessions (delete idx (sessions st)) st)).
Proof.
  unfold deleteSessionById.
  destruct (truthy i); simpl; [| by left].
  destruct (list_find _ _) as [[idx removed] |] eqn:Hfind; [| by left].
  right. exists idx, removed.
  apply list_find_Some in Hfind as (Hlk & Hid & _).
  rewrite !or_else_Z_0. auto.
Qed.

Lemma stepLedger_coupled op st : coupled st → coupled (stepLedger op st).
Proof.
  unfold coupled. intros Hc. destruct op as [e a | i |]; simpl.
  - destruct (saveSession_cases e a st) as [-> | (s & r & _ & _ & ->)]; simpl; lia.
  - destruct (deleteSessionById_cases i st) as [-> | (idx & rm & _ & _ & ->)]; simpl; lia.
  - reflexivity.
Qed.

Lemma traceLedger_coupled ops : ∀ st, coupled st → Forall coupled (traceLedger ops st).
Proof.
  induction ops as [| op ops IH]; intros st Hc; simpl; constructor.
  - by apply stepLedger_coupled.
  - apply IH. by apply stepLedger_coupled.
Qed.

Lemma runLedger_coupled ops : ∀ st, coupled st → coupled (runLedger ops st).
Proof.
  induction ops as [| op ops IH]; intros st Hc; simpl; [done |].
  apply IH. by apply stepLedger_coupled.
Qed.

(** C2. Along every run of [saveSession], [deleteSessionById] and
    [resetStats] from the default state, [xpSec] equals [growthSec] after
    each operation (and so at the end of the run). *)
Theorem progression_coupling (ops : list LedgerOp) :
  Forall coupled (traceLedger ops defaultState)
  ∧ coupled (runLedger ops defaultState).
Proof.
  split; [apply traceLedger_coupled | apply runLedger_coupled]; reflexivity.
Qed.

(** C10. When no stored session carries the identifier (the empty
    identifier included), [deleteSessionById] returns [false], leaves the
    whole state as it was and makes no call: nothing is saved and no remote
    delete is issued. *)
Theorem deleteSessionById_absent (sessionId : string) (st : State) :
  (∀ s, s ∈ sessions st → ses_id s ≠ sessionId) →
  deleteSessionById sessionId st = (false, st, []).
Proof.
  intros Habs. unfold deleteSessionById.
  destruct (truthy sessionId); simpl; [| reflexivity].
  destruct (list_find _ _) as [[idx removed] |] eqn:Hfind; [| reflexivity].
  apply list_find_Some in Hfind as (Hlk & Hid & _).
  exfalso. eapply Habs; [| exact Hid]. eapply list_elem_of_lookup_2; eauto.
Qed.

Lemma deleteSessionById_absent_witness :
  deleteSessionById "s_zz" (set_sessions [exampleSession "s_1" 5000000 1500] defaultState)
  = (false, set_sessions [exampleSession "s_1" 5000000 1500] defaultState, [])
  ∧ deleteSessionById "" (set_sessions [exampleSession "s_1" 5000000 1500] defaultState)
  = (false, set_sessions [exampleSession "s_1" 5000000 1500] defaultState, []).
Proof.
  split; apply deleteSessionById_absent; intros s Hs;
    apply list_elem_of_singleton in Hs; subst s; simpl; discriminate.
Defined.

(* ================================================================== *)
(** * Progression engine *)

Lemma treeMin_eq : treeMin = 7200.
Proof. reflexivity. Qed.

Lemma harvestFruits_none st :
  computeFruitsReady (garden st) = 0 → harvestFruits st = (st, []).
Proof. intros H0. unfold harvestFruits. rewrite H0. reflexivity. Qed.

(** C9. With [growthSec] at the tree threshold plus twice the fruit period
    and nothing harvested on this tree, two fruits are ready; one harvest
    leaves none ready, adds two to the collection under the current tree
    type and two to [harvestedOnThisTree], and touches nothing else. A
    harvest with no fruit ready changes nothing and makes no call. *)
Theorem harvest_two_fruits :
  (∀ st : State,
     growthSec (garden st) = treeMin + 2 * FRUIT_RATE_SEC →
     harvestedOnThisTree (garden st) = 0 →
     let st' := fst (harvestFruits st) in
     let type := treeType (garden st) in
     computeFruitsReady (garden st) = 2
     ∧ computeFruitsReady (garden st') = 0
     ∧ fruitCollection st' !! type = Some (default 0 (fruitCollection st !! type) + 2)
     ∧ (∀ k, k ≠ type → fruitCollection st' !! k = fruitCollection st !! k)
     ∧ harvestedOnThisTree (garden st') = harvestedOnThisTree (garden st) + 2
     ∧ growthSec (garden st') = growthSec (garden st)
     ∧ treeType (garden st') = type
     ∧ sessions st' = sessions st ∧ xpSec st' = xpSec st)
  ∧ (∀ st : State, computeFruitsReady (garden st) = 0 → harvestFruits st = (st, [])).
Proof.
  split; [| exact harvestFruits_none].
  intros st Hg Hh st' type.
  assert (Hready : computeFruitsReady (garden st) = 2).
  { unfold computeFruitsReady. rewrite Hg, Hh. reflexivity. }
  subst st'. unfold harvestFruits. rewrite Hready. simpl.
  rewrite Hh, !or_else_Z_0. simpl.
  repeat split; try done.
  - unfold computeFruitsReady. simpl. rewrite Hg. reflexivity.
  - apply lookup_insert_eq.
  - intros k Hk. by apply lookup_insert_ne.
Qed.

Lemma harvest_two_fruits_witness :
  let st := set_garden (mkGarden "Apple" 10800 0) defaultState in
  computeFruitsReady (garden st) = 2
  ∧ computeFruitsReady (garden (fst (harvestFruits st))) = 0
  ∧ fruitCollection (fst (harvestFruits st)) !! "Apple" = Some 2.
Proof.
  intros st.
  destruct (proj1 harvest_two_fruits st eq_refl eq_refl) as (H1 & H2 & H3 & _).
  split; [exact H1 | split; [exact H2 | exact H3]].
Defined.

(* ================================================================== *)
(** * The insertion-ordered map *)

Section JsMap_facts.
Context {V : Type} (key : V → string).
Implicit Types (m : JsMap.t V) (l : list V) (k : string) (v : V).

Lemma get_set_eq k v m : JsMap.get k (JsMap.set k v m) = Some v.
Proof.
  induction m as [| [k' v'] m IH]; simpl.
  - by rewrite bool_decide_eq_true_2.
  - destruct (decide (k' = k)) as [-> | Hk].
    + rewrite bool_decide_eq_true_2 by done. simpl. by rewrite bool_decide_eq_true_2.
    + rewrite bool_decide_eq_false_2 by done. simpl. by rewrite bool_decide_eq_false_2.
Qed.

Lemma get_set_ne k k' v m : k ≠ k' → JsMap.get k' (JsMap.set k v m) = JsMap.get k' m.
Proof.
  intros Hne. induction m as [| [k1 v1] m IH]; simpl.
  - by rewrite bool_decide_eq_false_2.
  - destruct (decide (k1 = k)) as [-> | Hk].
    + rewrite bool_decide_eq_true_2 by done. simpl. by rewrite !bool_decide_eq_false_2.
    + rewrite bool_decide_eq_false_2 by done. simpl.
      destruct (decide (k1 = k')) as [-> | Hk'].
      * by rewrite !bool_decide_eq_true_2.
      * by rewrite !bool_decide_eq_false_2.
Qed.

Lemma get_None k m : JsMap.get k m = None ↔ k ∉ JsMap.keys m.
Proof.
  induction m as [| [k' v'] m IH]; simpl.
  - split; [intros _; apply not_elem_of_nil | done].
  - rewrite not_elem_of_cons. destruct (decide (k' = k)) as [-> | Hk].
    + rewrite bool_decide_eq_true_2 by done. split; [done | intros [Hne _]; congruence].
    + rewrite bool_decide_eq_false_2 by done. rewrite IH.
      split; [intros ?; split; congruence | tauto].
Qed.

Lemma has_spec k m : JsMap.has k m = true ↔ k ∈ JsMap.keys m.
Proof.
  unfold JsMap.has. destruct (JsMap.get k m) eqn:Hg.
  - split; [intros _ | done].
    destruct (decide (k ∈ JsMap.keys m)) as [| Hn]; [done |].
    apply get_None in Hn. congruence.
  - split; [done |]. apply get_None in Hg. done.
Qed.

Lemma keys_set k v m :
  JsMap.keys (JsMap.set k v m)
  = if bool_decide (k ∈ JsMap.keys m) then JsMap.keys m else JsMap.keys m ++ [k].
Proof.
  induction m as [| [k' v'] m IH]; simpl; [done |].
  destruct (decide (k' = k)) as [-> | Hk].
  - rewrite bool_decide_eq_true_2 by done. simpl.
    rewrite bool_decide_eq_true_2; [done | left].
  - rewrite bool_decide_eq_false_2 by done. simpl. rewrite IH.
    destruct (decide (k ∈ JsMap.keys m)) as [Hin | Hin].
    + rewrite !bool_decide_eq_true_2; [done | by right | done].
    + rewrite !bool_decide_eq_false_2; [done | | done].
      rewrite not_elem_of_cons. split; congruence.
Qed.

Lemma set_wf k v m : wf m → wf (JsMap.set k v m).
Proof.
  unfold wf. intros Hwf. rewrite keys_set. case_bool_decide as Hin; [done |].
  apply NoDup_app. split; [done |]. split.
  - intros x Hx Hx'. apply list_elem_of_singleton in Hx'. by subst x.
  - apply NoDup_singleton.
Qed.

Lemma set_keyed v m : keyed key m → keyed key (JsMap.set (key v) v m).
Proof.
  unfold keyed. induction 1 as [| [k' v'] m Hx Hm IH]; simpl.
  - by repeat constructor.
  - case_bool_decide as Hk; constructor; simpl in *; auto.
Qed.

Lemma keyed_not_in k m :
  keyed key m → k ∉ JsMap.keys m → filter (λ x, key x = k) (JsMap.values m) = [].
Proof.
  unfold keyed. induction 1 as [| [k' v'] m Hx Hm IH]; simpl; [done |].
  rewrite not_elem_of_cons. intros [Hne Hnin]. simpl in *.
  rewrite filter_cons_False by congruence. by apply IH.
Qed.

Lemma byKey_values k m : wf m → keyed key m → byKey key k (JsMap.values m) = JsMap.get k m.
Proof.
  unfold wf, keyed, byKey. intros Hwf Hkeyed.
  induction Hkeyed as [| [k' v'] m Hx Hm IH]; simpl; [done |].
  simpl in *. apply NoDup_cons in Hwf as [Hnin Hwf].
  destruct (decide (k' = k)) as [-> | Hk].
  - rewrite bool_decide_eq_true_2 by done. rewrite filter_cons_True by done.
    rewrite (keyed_not_in k m Hm Hnin). done.
  - rewrite bool_decide_eq_false_2 by done.
    rewrite filter_cons_False by congruence. by apply IH.
Qed.

Lemma values_keys_keyed v m : keyed key m → v ∈ JsMap.values m → key v ∈ JsMap.keys m.
Proof.
  unfold keyed, JsMap.values, JsMap.keys. intros Hm Hin.
  apply list_elem_of_fmap in Hin as ([k1 v1] & -> & Hin).
  rewrite Forall_forall in Hm. specialize (Hm _ Hin). simpl in *. rewrite Hm.
  by apply (list_elem_of_fmap_2 fst) in Hin.
Qed.

Lemma elem_of_values_get v m : wf m → keyed key m →
  v ∈ JsMap.values m ↔ JsMap.get (key v) m = Some v.
Proof.
  unfold wf. intros Hwf Hkeyed.
  induction Hkeyed as [| [k' v'] m Hx Hm IH]; simpl.
  - split; [intros []%elem_of_nil | done].
  - simpl in *. apply NoDup_cons in Hwf as [Hnin Hwf].
    rewrite elem_of_cons. destruct (decide (k' = key v)) as [Hk | Hk].
    + rewrite bool_decide_eq_true_2 by done.
      split; [| intros [= ->]; by left].
      intros [-> | Hin]; [done |]. exfalso. apply Hnin.
      rewrite Hk. by apply values_keys_keyed.
    + rewrite bool_decide_eq_false_2 by done.
      rewrite <- IH by done. split; [| by right].
      intros [-> | Hin]; [congruence | done].
Qed.

Lemma setAll_wf l : ∀ m, wf m → wf (setAll key l m).
Proof. induction l as [| x l IH]; intros m Hm; simpl; [done |]. apply IH, set_wf, Hm. Qed.

Lemma setAll_keyed l : ∀ m, keyed key m → keyed key (setAll key l m).
Proof. induction l as [| x l IH]; intros m Hm; simpl; [done |]. apply IH, set_keyed, Hm. Qed.

(** After [setAll] the last element under each key wins. *)
Lemma get_setAll k l : ∀ m,
  JsMap.get k (setAll key l m)
  = match byKey key k l with Some x => Some x | None => JsMap.get k m end.
Proof.
  unfold byKey. induction l as [| x l IH] using rev_ind; intros m; [done |].
  unfold setAll in *. rewrite fold_left_app. simpl. rewrite filter_app.
  destruct (decide (key x = k)) as [Hk | Hk].
  - rewrite filter_cons_True by done. rewrite filter_nil.
    rewrite last_snoc. subst k. apply get_set_eq.
  - rewrite filter_cons_False by done. rewrite filter_nil, app_nil_r.
    rewrite get_set_ne by done. apply IH.
Qed.

Lemma of_entries_setAll l : JsMap.of_entries (map (λ x, (key x, x)) l) = setAll key l [].
Proof.
  unfold JsMap.of_entries, setAll. generalize (@nil (string * V)).
  induction l as [| x l IH]; intros m; simpl; [done | apply IH].
Qed.

Lemma addAbsent_wf l : ∀ m, wf m → wf (addAbsent key l m).
Proof.
  induction l as [| x l IH]; intros m Hm; simpl; [done |].
  apply IH. destruct (JsMap.has _ _); [done | by apply set_wf].
Qed.

Lemma addAbsent_keyed l : ∀ m, keyed key m → keyed key (addAbsent key l m).
Proof.
  induction l as [| x l IH]; intros m Hm; simpl; [done |].
  apply IH. destruct (JsMap.has _ _); [done | by apply set_keyed].
Qed.

(** After [addAbsent] the entries already there stay, and the first element
    under a new key wins. *)
Lemma get_addAbsent k l : ∀ m,
  JsMap.get k (addAbsent key l m)
  = match JsMap.get k m with
    | Some x => Some x
    | None => head (filter (λ x, key x = k) l)
    end.
Proof.
  induction l as [| x l IH]; intros m; simpl.
  - by destruct (JsMap.get k m).
  - rewrite IH. unfold JsMap.has.
    destruct (decide (key x = k)) as [Hk | Hk].
    + rewrite filter_cons_True by done. subst k. simpl.
      destruct (JsMap.get (key x) m) eqn:Hg; [by rewrite Hg |].
      by rewrite get_set_eq.
    + rewrite filter_cons_False by done.
      destruct (JsMap.get (key x) m) eqn:Hg; [done |].
      by rewrite get_set_ne.
Qed.
End JsMap_facts.

Section byKey_facts.
Context {V : Type} (key : V → string).
Implicit Types (l : list V) (k : string).

Lemma byKey_Some k l x : byKey key k l = Some x → x ∈ l ∧ key x = k.
Proof.
  unfold byKey. intros Hl. apply last_Some_elem_of in Hl.
  apply list_elem_of_filter in Hl. tauto.
Qed.

Lemma byKey_None k l : byKey key k l = None ↔ ∀ x, x ∈ l → key x ≠ k.
Proof.
  unfold byKey. rewrite last_None. split.
  - intros Hnil x Hx Hk. by eapply (filter_nil_not_elem_of _ l x).
  - intros Hall. induction l as [| y l IH]; [done |].
    rewrite filter_cons_False; [| apply Hall; left].
    apply IH. intros x Hx. apply Hall. by right.
Qed.

Lemma byKey_is_Some k l x : x ∈ l → key x = k → is_Some (byKey key k l).
Proof.
  intros Hx Hk. destruct (byKey key k l) eqn:Hb; [eauto |].
  exfalso. rewrite byKey_None in Hb. by eapply Hb.
Qed.

(** Filtering on a property of the key keeps or drops a whole key. *)
Lemma byKey_filter (P : string → Prop) `{!∀ s, Decision (P s)} k l :
  byKey key k (filter (λ x, P (key x)) l) = if decide (P k) then byKey key k l else None.
Proof.
  unfold byKey. destruct (decide (P k)) as [HP | HP].
  - f_equal. induction l as [| y l IH]; [done |].
    destruct (decide (key y = k)) as [Hy | Hy].
    + rewrite (filter_cons_True (λ x, P (key x))) by (by rewrite Hy).
      rewrite !(filter_cons_True (λ x, key x = k)) by done. by rewrite IH.
    + rewrite (filter_cons_False (λ x, key x = k) y l) by done.
      destruct (decide (P (key y))).
      * rewrite (filter_cons_True (λ x, P (key x))) by done.
        by rewrite (filter_cons_False (λ x, key x = k)) by done.
      * by rewrite (filter_cons_False (λ x, P (key x))) by done.
  - apply last_None. induction l as [| y l IH]; [done |].
    destruct (decide (P (key y))).
    + rewrite (filter_cons_True (λ x, P (key x))) by done.
      rewrite (filter_cons_False (λ x, key x = k)); [done | congruence].
    + by rewrite (filter_cons_False (λ x, P (key x))) by done.
Qed.

Lemma keyed_keys (m : JsMap.t V) : keyed key m → JsMap.keys m = key <$> JsMap.values m.
Proof.
  unfold keyed. induction 1 as [| [k v] m Hx Hm IH]; simpl; [done |].
  simpl in Hx. by rewrite IH, Hx.
Qed.

(** What a well-formed keyed map holds, read back as a list. *)
Lemma values_view (m : JsMap.t V) : wf m → keyed key m →
  NoDup (key <$> JsMap.values m)
  ∧ (∀ k, byKey key k (JsMap.values m) = JsMap.get k m)
  ∧ (∀ x, x ∈ JsMap.values m ↔ JsMap.get (key x) m = Some x).
Proof.
  intros Hwf Hk. split; [| split].
  - rewrite <- keyed_keys by done. exact Hwf.
  - intros k. by apply byKey_values.
  - intros x. by apply elem_of_values_get.
Qed.
End byKey_facts.

(** The first and the last element of a list with a property. *)
Lemma head_filter_first {A} (P : A → Prop) `{!∀ x, Decision (P x)} (l : list A) (x : A) :
  head (filter P l) = Some x
  ↔ ∃ i, l !! i = Some x ∧ P x ∧ ∀ j y, (j < i)%nat → l !! j = Some y → ¬ P y.
Proof.
  induction l as [| y l IH].
  - split; [done | intros (i & Hi & _); by destruct i].
  - destruct (decide (P y)) as [Hy | Hy].
    + rewrite filter_cons_True by done. cbn [head]. split.
      * intros [= <-]. exists 0%nat. split; [done |]. split; [done |]. intros j z Hj. lia.
      * intros ([| i] & Hi & HP & Hfirst).
        -- by injection Hi as ->.
        -- exfalso. apply (Hfirst 0%nat y); [lia | done | done].
    + rewrite filter_cons_False by done. rewrite IH. split.
      * intros (i & Hi & HP & Hfirst). exists (S i). split; [done |]. split; [done |].
        intros [| j] z Hj Hz; [by injection Hz as <- |].
        apply (Hfirst j z); [lia | done].
      * intros ([| i] & Hi & HP & Hfirst).
        -- injection Hi as ->. done.
        -- exists i. split; [done |]. split; [done |].
           intros j z Hj Hz. apply (Hfirst (S j) z); [lia | done].
Qed.

Lemma last_filter_last {A} (P : A → Prop) `{!∀ x, Decision (P x)} (l : list A) (x : A) :
  last (filter P l) = Some x
  ↔ ∃ i, l !! i = Some x ∧ P x ∧ ∀ j y, (i < j)%nat → l !! j = Some y → ¬ P y.
Proof.
  induction l as [| y l IH].
  - split; [done | intros (i & Hi & _); by destruct i].
  - destruct (decide (P y)) as [Hy | Hy].
    + rewrite filter_cons_True by done.
      destruct (filter P l) as [| z fl] eqn:Hfl.
      * cbn [last]. split.
        -- intros [= <-]. exists 0%nat. split; [done |]. split; [done |].
           intros [| j] z Hj Hz; [lia |]. cbn in Hz. intros HPz.
           assert (Hin : z ∈ filter P l).
           { apply list_elem_of_filter. split; [done |]. by eapply list_elem_of_lookup_2. }
           rewrite Hfl in Hin. by apply elem_of_nil in Hin.
        -- intros ([| i] & Hi & HP & Hlast); [by injection Hi as -> |].
           exfalso. cbn in Hi.
           assert (Hin : x ∈ filter P l).
           { apply list_elem_of_filter. split; [done |]. by eapply list_elem_of_lookup_2. }
           rewrite Hfl in Hin. by apply elem_of_nil in Hin.
      * rewrite last_cons_cons. rewrite IH. split.
        -- intros (i & Hi & HP & Hlast). exists (S i). split; [done |]. split; [done |].
           intros [| j] w Hj Hw; [lia |]. apply (Hlast j w); [lia | done].
        -- intros ([| i] & Hi & HP & Hlast).
           ++ exfalso. injection Hi as ->.
              assert (Hin : z ∈ filter P l) by (rewrite Hfl; left).
              apply list_elem_of_filter in Hin as [HPz Hin].
              apply list_elem_of_lookup in Hin as [j Hj].
              apply (Hlast (S j) z); [lia | done | done].
           ++ exists i. split; [done |]. split; [done |].
              intros j w Hj Hw. apply (Hlast (S j) w); [lia | done].
    + rewrite filter_cons_False by done. rewrite IH. split.
      * intros (i & Hi & HP & Hlast). exists (S i). split; [done |]. split; [done |].
        intros [| j] w Hj Hw; [lia |]. apply (Hlast j w); [lia | done].
      * intros ([| i] & Hi & HP & Hlast).
        -- injection Hi as ->. done.
        -- exists i. split; [done |]. split; [done |].
           intros j w Hj Hw. apply (Hlast (S j) w); [lia | done].
Qed.

Lemma byKey_NoDup {V} (key : V → string) (l : list V) (s : V) :
  NoDup (key <$> l) → s ∈ l → byKey key (key s) l = Some s.
Proof.
  unfold byKey. induction l as [| y l IH]; [intros _ []%elem_of_nil |].
  rewrite fmap_cons, NoDup_cons, elem_of_cons. intros [Hnin Hnd] [-> | Hin].
  - rewrite filter_cons_True by done.
    assert (Hnil : filter (λ x, key x = key y) l = []).
    { apply last_None. apply (byKey_None key). intros x Hx Hkx.
      apply Hnin. rewrite <- Hkx. by apply list_elem_of_fmap_2. }
    by rewrite Hnil.
  - rewrite filter_cons_False.
    + by apply IH.
    + intros Hk. apply Hnin. rewrite Hk. by apply list_elem_of_fmap_2.
Qed.

(* ================================================================== *)
(** * Pull phase: labels *)

Lemma mergeLabels_map (deleted : list string) (local remote : list Label) :
  mergeLabels deleted local remote
  = JsMap.values (setAll lbl_id (filter (λ l, lbl_id l ∉ deleted) remote)
                         (setAll lbl_id local [])).
Proof. unfold mergeLabels. by rewrite of_entries_setAll. Qed.

Lemma mergeLabels_wf (deleted : list string) (local remote : list Label) :
  wf (setAll lbl_id (filter (λ l, lbl_id l ∉ deleted) remote) (setAll lbl_id local []))
  ∧ keyed lbl_id (setAll lbl_id (filter (λ l, lbl_id l ∉ deleted) remote) (setAll lbl_id local [])).
Proof.
  split.
  - apply setAll_wf, setAll_wf. apply NoDup_nil_2.
  - apply setAll_keyed, setAll_keyed. constructor.
Qed.

(** The entry of the merged set under an identifier: the last surviving
    remote label under it, else the last local label under it. *)
Lemma mergeLabels_entry (deleted : list string) (local remote : list Label) (k : string) :
  byKey lbl_id k (mergeLabels deleted local remote)
  = match (if decide (k ∉ deleted) then byKey lbl_id k remote else None) with
    | Some rl => Some rl
    | None => byKey lbl_id k local
    end.
Proof.
  rewrite mergeLabels_map.
  destruct (mergeLabels_wf deleted local remote) as [Hwf Hk].
  rewrite (byKey_values lbl_id) by done.
  rewrite !get_setAll. simpl.
  pose proof (byKey_filter lbl_id (λ s, s ∉ deleted) k remote) as Hf.
  simpl in Hf. rewrite Hf. clear Hf.
  destruct (decide (k ∉ deleted)); [| by destruct (byKey lbl_id k local)].
  destruct (byKey lbl_id k remote); [done |]. by destruct (byKey lbl_id k local).
Qed.

Lemma remoteLabels_lookup e rows i :
  remoteLabels e rows !! i = (λ r, rowToLocalLabel (label_clock e i) r) <$> rows !! i.
Proof. unfold remoteLabels. by rewrite list_lookup_imap. Qed.

Lemma rowToLocalLabel_fields now r :
  rowToLocalLabel now r
  = {| lbl_id := rowLabelId r;
       lbl_name := row_name r;
       lbl_color := or_else (row_color r) "#a855f7";
       lbl_favorite := match favorite r with Some b => b | None => false end;
       lbl_createdTs := match created_ts r with Some t => t | None => now end |}.
Proof.
  unfold rowToLocalLabel, rowLabelId. f_equal.
  unfold or_else. by destruct (row_name r).
Qed.

(** The last converted row under an identifier. *)
Lemma remoteLabels_last e rows k x :
  byKey lbl_id k (remoteLabels e rows) = Some x
  ↔ ∃ i r, rows !! i = Some r ∧ x = rowToLocalLabel (label_clock e i) r
           ∧ rowLabelId r = k
           ∧ ∀ j r', (i < j)%nat → rows !! j = Some r' → rowLabelId r' ≠ k.
Proof.
  unfold byKey. rewrite (last_filter_last (λ x, lbl_id x = k)). split.
  - intros (i & Hi & Hk & Hlast). rewrite remoteLabels_lookup in Hi.
    destruct (rows !! i) as [r |] eqn:Hr; [| done]. injection Hi as <-.
    exists i, r. split; [done |]. split; [done |]. split; [exact Hk |].
    intros j r' Hj Hr' Hk'.
    apply (Hlast j (rowToLocalLabel (label_clock e j) r')); [done | | exact Hk'].
    by rewrite remoteLabels_lookup, Hr'.
  - intros (i & r & Hr & -> & Hk & Hlast). exists i.
    split; [by rewrite remoteLabels_lookup, Hr |]. split; [exact Hk |].
    intros j y Hj Hy. rewrite remoteLabels_lookup in Hy.
    destruct (rows !! j) as [r' |] eqn:Hr'; [| done]. injection Hy as <-.
    by apply (Hlast j r').
Qed.

Lemma remoteLabels_none e rows k :
  byKey lbl_id k (remoteLabels e rows) = None ↔ ∀ r, r ∈ rows → rowLabelId r ≠ k.
Proof.
  rewrite (byKey_None lbl_id). split.
  - intros Hall r Hr. apply list_elem_of_lookup in Hr as [i Hi].
    apply (Hall (rowToLocalLabel (label_clock e i) r)).
    apply (list_elem_of_lookup_2 _ i). by rewrite remoteLabels_lookup, Hi.
  - intros Hall x Hx. apply list_elem_of_lookup in Hx as [i Hi].
    rewrite remoteLabels_lookup in Hi. destruct (rows !! i) as [r |] eqn:Hr; [| done].
    injection Hi as <-. apply Hall. by eapply list_elem_of_lookup_2.
Qed.

(** C4. The label step of the pull phase, row by row. A row is merged
    under its [local_id], or under its own [id] when it has no [local_id].
    While an identifier is in the tombstone queue no row under it is taken:
    the entry under it is what it was locally (absent when it was absent),
    and every label of the result that is not a local one is the conversion
    of a row whose identifier is not queued. For an identifier that is not
    queued the last row under it replaces the local entry, field by field.
    Under an identifier that is queued or that no row carries the result
    holds the last local label with that identifier: a local label that
    shares its identifier with a later local label is dropped, and every
    such local label stays when the local identifiers are distinct. *)
Theorem pull_labels_tombstones (e : SyncEnv) (deleted : list string)
    (rows : list LabelRow) (st : State) :
  let local := labels st in
  let conv := λ (i : nat) (r : LabelRow),
    {| lbl_id := rowLabelId r;
       lbl_name := row_name r;
       lbl_color := or_else (row_color r) "#a855f7";
       lbl_favorite := match favorite r with Some b => b | None => false end;
       lbl_createdTs := match created_ts r with Some t => t | None => label_clock e i end |} in
  let after := labels (pullLabels e deleted rows st) in
  (∀ k, k ∈ deleted → byKey lbl_id k after = byKey lbl_id k local)
  ∧ (∀ r x, r ∈ rows → rowLabelId r ∈ deleted →
       x ∈ after → lbl_id x = rowLabelId r → x ∈ local)
  ∧ (∀ x, x ∈ after →
       x ∈ local
       ∨ ∃ i r, rows !! i = Some r ∧ rowLabelId r ∉ deleted ∧ x = conv i r
                ∧ ∀ j r', (i < j)%nat → rows !! j = Some r' → rowLabelId r' ≠ rowLabelId r)
  ∧ (∀ i r, rows !! i = Some r → rowLabelId r ∉ deleted →
       (∀ j r', (i < j)%nat → rows !! j = Some r' → rowLabelId r' ≠ rowLabelId r) →
       conv i r ∈ after ∧ ∀ x, x ∈ after → lbl_id x = rowLabelId r → x = conv i r)
  ∧ (∀ k, k ∈ deleted ∨ (∀ r, r ∈ rows → rowLabelId r ≠ k) →
       byKey lbl_id k after = byKey lbl_id k local)
  ∧ (∀ l, l ∈ local → lbl_id l ∈ deleted ∨ (∀ r, r ∈ rows → rowLabelId r ≠ lbl_id l) →
       (l ∈ after ↔ byKey lbl_id (lbl_id l) local = Some l))
  ∧ (∀ k l, byKey lbl_id k local = Some l
            ↔ ∃ i, local !! i = Some l ∧ lbl_id l = k
                   ∧ ∀ j l2, (i < j)%nat → local !! j = Some l2 → lbl_id l2 ≠ k)
  ∧ (NoDup (lbl_id <$> local) →
     ∀ l, l ∈ local → lbl_id l ∈ deleted ∨ (∀ r, r ∈ rows → rowLabelId r ≠ lbl_id l) →
          l ∈ after)
  ∧ NoDup (lbl_id <$> after)
  ∧ (∀ r k, local_id r = Some k → k ≠ "" → rowLabelId r = k)
  ∧ (∀ r, local_id r = None ∨ local_id r = Some "" → rowLabelId r = row_id r).
Proof.
  intros local conv after. subst after. unfold pullLabels. cbn [labels set_labels].
  fold local. set (remote := remoteLabels e rows).
  assert (Hconv : ∀ i r, conv i r = rowToLocalLabel (label_clock e i) r).
  { intros i r. symmetry. apply rowToLocalLabel_fields. }
  assert (Hview : ∀ x, x ∈ mergeLabels deleted local remote
                       ↔ byKey lbl_id (lbl_id x) (mergeLabels deleted local remote) = Some x).
  { intros x. rewrite mergeLabels_map.
    destruct (mergeLabels_wf deleted local remote) as [Hwf Hk].
    destruct (values_view lbl_id _ Hwf Hk) as (_ & Hby & Hin).
    by rewrite Hby, Hin. }
  assert (Hlocal : ∀ k, k ∈ deleted ∨ (∀ r, r ∈ rows → rowLabelId r ≠ k) →
                        byKey lbl_id k (mergeLabels deleted local remote)
                        = byKey lbl_id k local).
  { intros k Hk. rewrite mergeLabels_entry. destruct (decide (k ∉ deleted)) as [Hnd | Hd].
    - destruct Hk as [Hk | Hk]; [done |].
      apply (remoteLabels_none e) in Hk. fold remote in Hk. by rewrite Hk.
    - done. }
  assert (Hremote : ∀ i r, rows !! i = Some r → rowLabelId r ∉ deleted →
            (∀ j r', (i < j)%nat → rows !! j = Some r' → rowLabelId r' ≠ rowLabelId r) →
            byKey lbl_id (rowLabelId r) (mergeLabels deleted local remote) = Some (conv i r)).
  { intros i r Hr Hnd Hlast. rewrite mergeLabels_entry, decide_True by done.
    assert (Hb : byKey lbl_id (rowLabelId r) remote = Some (conv i r)).
    { apply remoteLabels_last. exists i, r. by rewrite Hconv. }
    by rewrite Hb. }
  split; [intros k Hk; apply Hlocal; by left |].
  split.
  { intros r x Hr Hdel Hx Hid. apply Hview in Hx. rewrite Hlocal in Hx.
    - by apply byKey_Some in Hx as [? _].
    - left. by rewrite Hid. }
  split.
  { intros x Hx. apply Hview in Hx. rewrite mergeLabels_entry in Hx.
    destruct (decide (lbl_id x ∉ deleted)) as [Hnd | Hd].
    - destruct (byKey lbl_id (lbl_id x) remote) as [rl |] eqn:Hb.
      + injection Hx as ->. right.
        apply remoteLabels_last in Hb as (i & r & Hr & -> & Hk & Hlast).
        exists i, r. split; [done |].
        change (lbl_id (rowToLocalLabel (label_clock e i) r)) with (rowLabelId r) in *.
        split; [done |]. split; [by rewrite Hconv | done].
      + left. by apply byKey_Some in Hx as [? _].
    - left. by apply byKey_Some in Hx as [? _]. }
  split.
  { intros i r Hr Hnd Hlast. pose proof (Hremote i r Hr Hnd Hlast) as Hb. split.
    - apply Hview. exact Hb.
    - intros x Hx Hid. apply Hview in Hx. rewrite Hid, Hb in Hx. congruence. }
  split; [exact Hlocal |].
  split.
  { intros l Hl Hk. rewrite Hview. by rewrite Hlocal. }
  split; [intros k l; unfold byKey; apply (last_filter_last (λ x, lbl_id x = k)) |].
  split.
  { intros Hnd l Hl Hk. apply Hview. rewrite Hlocal by done.
    by apply (byKey_NoDup lbl_id). }
  split.
  { rewrite mergeLabels_map.
    destruct (mergeLabels_wf deleted local remote) as [Hwf Hk].
    by destruct (values_view lbl_id _ Hwf Hk) as (? & _ & _). }
  split.
  - intros r k Hk Hne. unfold rowLabelId. rewrite Hk. unfold opt_or, opt_case.
    by destruct k.
  - intros r [Hk | Hk]; unfold rowLabelId; by rewrite Hk.
Qed.

(** C4, refuted as stated: two local labels carry one identifier and no
    remote row carries it; after the pull the earlier of the two is gone. *)
Lemma pull_drops_local_label : ¬ localOnlyKept.
Proof.
  intros Hkept.
  pose proof (Hkept exampleSyncEnv [] [] exampleTwins
                (mkLabel "lbl_1" "Maths" "#a855f7" false 1650000000000)) as Hin.
  assert (Hafter : labels (pullLabels exampleSyncEnv [] [] exampleTwins)
                   = [mkLabel "lbl_1" "Physics" "#22c55e" true 1660000000000]) by reflexivity.
  rewrite Hafter in Hin.
  assert (Hx : mkLabel "lbl_1" "Maths" "#a855f7" false 1650000000000
               ∈ [mkLabel "lbl_1" "Physics" "#22c55e" true 1660000000000]).
  { apply Hin; [left |]. intros r Hr. by apply elem_of_nil in Hr. }
  apply list_elem_of_singleton in Hx. discriminate Hx.
Qed.

(* ================================================================== *)
(** * The stable sort *)

Section sort_facts.
Context {A : Type} (cmp : A → A → Z) (R : A → A → Prop).
Hypothesis cmp_le : ∀ x y, cmp x y ≤ 0 → R x y.
Hypothesis cmp_gt : ∀ x y, 0 < cmp x y → R y x.
Hypothesis R_trans : ∀ x y z, R x y → R y z → R x z.

Lemma insert_by_perm x l : insert_by cmp x l ≡ₚ x :: l.
Proof.
  induction l as [| y l IH]; simpl; [done |].
  destruct (cmp x y <=? 0); [done |].
  rewrite IH. apply Permutation_swap.
Qed.

Lemma sort_by_perm l : sort_by cmp l ≡ₚ l.
Proof.
  induction l as [| x l IH]; simpl; [done |].
  unfold sort_by in *. simpl. by rewrite insert_by_perm, IH.
Qed.

Lemma insert_by_sorted x l :
  StronglySorted R l → StronglySorted R (insert_by cmp x l).
Proof.
  induction 1 as [| y l Hl IH Hy]; simpl.
  - repeat constructor.
  - destruct (Z.leb_spec (cmp x y) 0) as [Hle | Hgt].
    + constructor; [by constructor |].
      constructor; [by apply cmp_le |].
      eapply Forall_impl; [exact Hy |]. intros z Hz. eapply R_trans; [| exact Hz].
      by apply cmp_le.
    + constructor; [exact IH |].
      rewrite insert_by_perm. constructor; [by apply cmp_gt | exact Hy].
Qed.

Lemma sort_by_sorted l : StronglySorted R (sort_by cmp l).
Proof.
  induction l as [| x l IH]; unfold sort_by in *; simpl; [constructor |].
  by apply insert_by_sorted.
Qed.
End sort_facts.

(* ================================================================== *)
(** * Pull phase: sessions *)

Lemma mergeSessions_map (local remote : list Session) :
  mergeSessions local remote
  = sort_by byEndTsDesc
      (JsMap.values (addAbsent sessionKey remote (setAll sessionKey local []))).
Proof. unfold mergeSessions. by rewrite of_entries_setAll. Qed.

Lemma mergeSessions_wf (local remote : list Session) :
  wf (addAbsent sessionKey remote (setAll sessionKey local []))
  ∧ keyed sessionKey (addAbsent sessionKey remote (setAll sessionKey local [])).
Proof.
  split.
  - apply addAbsent_wf, setAll_wf. apply NoDup_nil_2.
  - apply addAbsent_keyed, setAll_keyed. constructor.
Qed.

Lemma mergeSessions_sorted (local remote : list Session) :
  StronglySorted endTsDesc (mergeSessions local remote).
Proof.
  rewrite mergeSessions_map. apply sort_by_sorted; unfold endTsDesc, byEndTsDesc.
  - intros x y. rewrite !or_else_Z_0. lia.
  - intros x y. rewrite !or_else_Z_0. lia.
  - intros x y z. lia.
Qed.

(** A session is in the merged list exactly when it is the entry of its
    key: the last local session under the key, else the first remote one. *)
Lemma mergeSessions_elem (local remote : list Session) (x : Session) :
  x ∈ mergeSessions local remote
  ↔ match byKey sessionKey (sessionKey x) local with
    | Some s => Some s
    | None => head (filter (λ r, sessionKey r = sessionKey x) remote)
    end = Some x.
Proof.
  rewrite mergeSessions_map, sort_by_perm.
  destruct (mergeSessions_wf local remote) as [Hwf Hk].
  rewrite (elem_of_values_get sessionKey) by done.
  rewrite get_addAbsent, get_setAll. simpl.
  by destruct (byKey sessionKey (sessionKey x) local).
Qed.

Lemma mergeSessions_NoDup (local remote : list Session) :
  NoDup (sessionKey <$> mergeSessions local remote).
Proof.
  rewrite mergeSessions_map, sort_by_perm.
  destruct (mergeSessions_wf local remote) as [Hwf Hk].
  by destruct (values_view sessionKey _ Hwf Hk) as (? & _ & _).
Qed.

Lemma mergeSessions_origin (local remote : list Session) (x : Session) :
  x ∈ mergeSessions local remote →
  x ∈ local ∨ (x ∈ remote ∧ ∀ s, s ∈ local → sessionKey s ≠ sessionKey x).
Proof.
  intros Hx. apply mergeSessions_elem in Hx.
  destruct (byKey sessionKey (sessionKey x) local) as [s |] eqn:Hb.
  - left. injection Hx as ->. by apply byKey_Some in Hb as [? _].
  - right. apply head_Some_elem_of in Hx. apply list_elem_of_filter in Hx as [_ Hx].
    split; [exact Hx |]. by apply (byKey_None sessionKey).
Qed.

Lemma or_else_same_string (a : string) : or_else a a = a.
Proof. unfold or_else. by destruct (truthy a). Qed.

(** The key of a converted row is its [client_id]; after [ensureClientIds]
    the key of a local session is its [clientId]. *)
Lemma remoteSessions_key e wv rows r :
  r ∈ remoteSessions e wv rows → sessionKey r = ses_clientId r.
Proof.
  unfold remoteSessions. intros Hr. apply list_elem_of_lookup in Hr as [i Hi].
  rewrite list_lookup_imap in Hi. destruct (rows !! i) as [row |]; [| done].
  simpl in Hi. injection Hi as <-. unfold sessionKey. simpl. apply or_else_same_string.
Qed.

Lemma ensureClientIds_key e st s :
  s ∈ sessions (ensureClientIds e st) → sessionKey s = ses_clientId s.
Proof.
  unfold ensureClientIds. cbn [sessions set_labels set_sessions].
  intros Hs. apply list_elem_of_lookup in Hs as [i Hi].
  rewrite list_lookup_imap in Hi. destruct (sessions st !! i) as [s0 |]; [| done].
  simpl in Hi. injection Hi as <-. unfold sessionKey. cbn [ses_clientId ses_id].
  set (c1 := or_else (ses_clientId s0) (or_else (ses_id s0) "")).
  unfold or_else at 1. unfold or_else at 1.
  destruct (truthy c1) eqn:Hc1; [by rewrite Hc1 | done].
Qed.

Lemma remoteSessions_lookup e wv rows i :
  remoteSessions e wv rows !! i
  = (λ r, rowToLocalSession (session_clock e (2 * i)) (session_clock e (2 * i + 1)) wv r)
      <$> rows !! i.
Proof. unfold remoteSessions. by rewrite list_lookup_imap. Qed.

Lemma rowToLocalSession_key now1 now2 wv r :
  sessionKey (rowToLocalSession now1 now2 wv r) = client_id r.
Proof. unfold sessionKey. cbn [ses_clientId ses_id rowToLocalSession]. apply or_else_same_string. Qed.

(** The first converted row under a key. *)
Lemma remoteSessions_first e wv rows k x :
  head (filter (λ r, sessionKey r = k) (remoteSessions e wv rows)) = Some x
  ↔ ∃ i r, rows !! i = Some r
           ∧ x = rowToLocalSession (session_clock e (2 * i)) (session_clock e (2 * i + 1)) wv r
           ∧ client_id r = k
           ∧ ∀ j r', (j < i)%nat → rows !! j = Some r' → client_id r' ≠ k.
Proof.
  rewrite head_filter_first. split.
  - intros (i & Hi & Hk & Hfirst). rewrite remoteSessions_lookup in Hi.
    destruct (rows !! i) as [r |] eqn:Hr; [| done]. injection Hi as <-.
    exists i, r. split; [done |]. split; [done |].
    rewrite rowToLocalSession_key in Hk. split; [done |].
    intros j r' Hj Hr' Hk'. apply (Hfirst j (rowToLocalSession (session_clock e (2 * j))
                                                 (session_clock e (2 * j + 1)) wv r')).
    + done.
    + by rewrite remoteSessions_lookup, Hr'.
    + by rewrite rowToLocalSession_key.
  - intros (i & r & Hr & -> & Hk & Hfirst). exists i.
    split; [by rewrite remoteSessions_lookup, Hr |].
    split; [by rewrite rowToLocalSession_key |].
    intros j y Hj Hy. rewrite remoteSessions_lookup in Hy.
    destruct (rows !! j) as [r' |] eqn:Hr'; [| done]. injection Hy as <-.
    rewrite rowToLocalSession_key. by apply (Hfirst j r').
Qed.

(** C3. The session step of the pull phase. The sessions are merged under
    their key, the [clientId] (the [id] when there is none; for a remote
    row its [client_id]). The merged list is sorted by descending [endTs]
    and holds one session per key. Under every key that a local session
    carries it holds the last local session with that key, with its fields
    as they were, and nothing else, whatever the remote rows hold: local
    wins over remote. A local session is in the list exactly when it is the
    last one under its key, so a local session that shares its key with a
    later one is dropped; every local session stays when the local keys are
    distinct. A remote row enters only under a key that no local session
    carries, and then the first row with that key enters. After
    [ensureClientIds] the key of every local session is its [clientId]. *)
Theorem pull_sessions_local_wins (e : SyncEnv) (rows : list SessionRow) (st : State) :
  let local := sessions st in
  let conv := λ (i : nat) (r : SessionRow),
    rowToLocalSession (session_clock e (2 * i)) (session_clock e (2 * i + 1))
                      (worldView st) r in
  let after := sessions (pullSessions e rows st) in
  StronglySorted endTsDesc after
  ∧ NoDup (sessionKey <$> after)
  ∧ (∀ s, s ∈ local →
       ∃ s', byKey sessionKey (sessionKey s) local = Some s'
             ∧ s' ∈ local ∧ sessionKey s' = sessionKey s ∧ s' ∈ after
             ∧ (∀ x, x ∈ after → sessionKey x = sessionKey s → x = s'))
  ∧ (∀ s, s ∈ local → (s ∈ after ↔ byKey sessionKey (sessionKey s) local = Some s))
  ∧ (∀ k s, byKey sessionKey k local = Some s
            ↔ ∃ i, local !! i = Some s ∧ sessionKey s = k
                   ∧ ∀ j s2, (i < j)%nat → local !! j = Some s2 → sessionKey s2 ≠ k)
  ∧ (NoDup (sessionKey <$> local) → ∀ s, s ∈ local → s ∈ after)
  ∧ (∀ x, x ∈ after →
       x ∈ local
       ∨ ∃ i r, rows !! i = Some r ∧ x = conv i r ∧ sessionKey x = client_id r
                ∧ (∀ s, s ∈ local → sessionKey s ≠ client_id r)
                ∧ (∀ j r', (j < i)%nat → rows !! j = Some r' → client_id r' ≠ client_id r))
  ∧ (∀ i r, rows !! i = Some r →
       (∀ s, s ∈ local → sessionKey s ≠ client_id r) →
       (∀ j r', (j < i)%nat → rows !! j = Some r' → client_id r' ≠ client_id r) →
       conv i r ∈ after)
  ∧ (∀ s, s ∈ sessions (ensureClientIds e st) → sessionKey s = ses_clientId s).
Proof.
  intros local conv after. subst after. unfold pullSessions. cbn [sessions set_sessions].
  fold local. set (remote := remoteSessions e (worldView st) rows).
  split; [apply mergeSessions_sorted |].
  split; [apply mergeSessions_NoDup |].
  split; [| split; [| split; [| split; [| split; [| split]]]]]; [| | | | | | apply ensureClientIds_key].
  - intros s Hs.
    destruct (byKey_is_Some sessionKey (sessionKey s) local s Hs eq_refl) as [s' Hs'].
    exists s'. destruct (byKey_Some _ _ _ _ Hs') as [Hin' Hk'].
    split; [exact Hs' |]. split; [exact Hin' |]. split; [exact Hk' |]. split.
    + apply mergeSessions_elem. by rewrite Hk', Hs'.
    + intros x Hx Hkx. apply mergeSessions_elem in Hx. rewrite Hkx, Hs' in Hx. congruence.
  - intros s Hs. rewrite mergeSessions_elem.
    destruct (byKey_is_Some sessionKey (sessionKey s) local s Hs eq_refl) as [s' Hs'].
    by rewrite Hs'.
  - intros k s. unfold byKey. apply (last_filter_last (λ x, sessionKey x = k)).
  - intros Hnd s Hs. apply mergeSessions_elem. by rewrite (byKey_NoDup sessionKey local s).
  - intros x Hx. apply mergeSessions_elem in Hx.
    destruct (byKey sessionKey (sessionKey x) local) as [s |] eqn:Hb.
    + left. injection Hx as ->. by apply byKey_Some in Hb as [? _].
    + right. apply remoteSessions_first in Hx as (i & r & Hr & -> & Hk & Hfirst).
      exists i, r. rewrite rowToLocalSession_key in *.
      split; [done |]. split; [done |]. split; [done |]. split.
      * intros s Hs Hks. rewrite (byKey_None sessionKey) in Hb. by apply (Hb s).
      * intros j r' Hj Hr'. by apply (Hfirst j r').
  - intros i r Hr Habs Hfirst. apply mergeSessions_elem.
    unfold conv. rewrite rowToLocalSession_key.
    assert (Hb : byKey sessionKey (client_id r) local = None) by by apply byKey_None.
    rewrite Hb. apply remoteSessions_first. by exists i, r.
Qed.

(** C3, refuted as stated: two local sessions carry the client key of a
    remote row; after the pull the earlier of the two is gone. *)
Lemma pull_drops_local_duplicate : ¬ localWins.
Proof.
  intros Hwins.
  pose proof (Hwins exampleSyncEnv [exampleSessionRow "s_X" 1700000400000 900] exampleTwins
                (exampleSession "s_X" 1700000000000 1500)
                (exampleSessionRow "s_X" 1700000400000 900)) as Hin.
  assert (Hafter : sessions (pullSessions exampleSyncEnv
                               [exampleSessionRow "s_X" 1700000400000 900] exampleTwins)
                   = [exampleSession "s_X" 1700000900000 600]) by reflexivity.
  rewrite Hafter in Hin.
  assert (Hx : exampleSession "s_X" 1700000000000 1500
               ∈ [exampleSession "s_X" 1700000900000 600]).
  { apply Hin; [left | left | reflexivity]. }
  apply list_elem_of_singleton in Hx. discriminate Hx.
Qed.

Example pull_sessions_example :
  sessions (pullSessions exampleSyncEnv
              [exampleSessionRow "s_X" 1700000400000 900;
               exampleSessionRow "s_Y" 1700000300000 30] exampleState)
  = [ mkSession "s_Y" "s_Y" 1700000270000 1700000300000 30 "timer" "garden" "Physics";
      exampleSession "s_X" 1700000000000 1500 ].
Proof. reflexivity. Qed.

Example pull_labels_example :
  labels (pullLabels exampleSyncEnv ["lbl_9"]
            [exampleLabelRow "lbl_1" "Remote name"; exampleLabelRow "lbl_9" "Gone"]
            exampleState)
  = [ mkLabel "lbl_1" "Remote name" "#22c55e" true 1600000000000 ].
Proof. reflexivity. Qed.

(* ================================================================== *)
(** * One reconciliation pass *)

Lemma ensureClientIds_identified e st : identified st → ensureClientIds e st = st.
Proof.
  intros [Hs Hl]. destruct st as [p wv ss xp g fc ls]. unfold ensureClientIds. simpl in *.
  unfold set_labels, set_sessions. simpl. f_equal.
  - clear Hl. generalize (fresh_session e). induction Hs as [| s ss Hs _ IH]; intros f; [done |].
    rewrite imap_cons. f_equal.
    + unfold or_else at 2. unfold or_else at 1. rewrite Hs. simpl. rewrite Hs. by destruct s.
    + apply (IH (f ∘ S)).
  - clear Hs. generalize (fresh_label e). induction Hl as [| l ls Hl _ IH]; intros f; [done |].
    rewrite imap_cons. f_equal.
    + unfold or_else. rewrite Hl. by destruct l.
    + apply (IH (f ∘ S)).
Qed.

Lemma ensureClientIds_frame e st :
  profile (ensureClientIds e st) = profile st
  ∧ worldView (ensureClientIds e st) = worldView st
  ∧ xpSec (ensureClientIds e st) = xpSec st
  ∧ garden (ensureClientIds e st) = garden st
  ∧ fruitCollection (ensureClientIds e st) = fruitCollection st
  ∧ length (sessions (ensureClientIds e st)) = length (sessions st)
  ∧ length (labels (ensureClientIds e st)) = length (labels st).
Proof.
  unfold ensureClientIds. simpl. rewrite !length_imap. repeat split.
Qed.

Lemma pushPhase_no_select st : Forall (λ x, is_select x = false) (pushPhase st).
Proof.
  unfold pushPhase. destruct (labels st), (sessions st); simpl; repeat constructor.
Qed.

Lemma sbDeleteLabelsNow_no_select signed ok ids :
  Forall (λ x, is_select x = false) (snd (sbDeleteLabelsNow signed ok ids)).
Proof.
  unfold sbDeleteLabelsNow. destruct signed; simpl; [| constructor].
  destruct (filter _ ids); simpl; repeat constructor.
Qed.

(** C5. A pass that starts (signed in, no pass running) with the force-push
    flag set skips the pull phase: it issues no select, the state it leaves
    is the state it found with the missing identifiers filled in by
    [ensureClientIds], whatever the remote store would have answered, so
    the profile, the progression, and the label and session lists hold no
    remote data (they are the very state when no identifier was missing);
    and the flag is false afterwards. *)
Theorem fullSync_force_push (e : SyncEnv) (s : Sb) (st : State) :
  signedIn s = true → syncing s = false → forcePushOnce s = true →
  ∃ s' eff,
    fullSync e s st = Some (ensureClientIds e st, s', eff)
    ∧ forcePushOnce s' = false
    ∧ Forall (λ x, is_select x = false) eff
    ∧ profile (ensureClientIds e st) = profile st
    ∧ xpSec (ensureClientIds e st) = xpSec st
    ∧ garden (ensureClientIds e st) = garden st
    ∧ fruitCollection (ensureClientIds e st) = fruitCollection st
    ∧ (identified st → ensureClientIds e st = st)
    ∧ (∀ e2, fresh_session e2 = fresh_session e → fresh_label e2 = fresh_label e →
         fst <$> (fst <$> fullSync e2 s st) = Some (ensureClientIds e st)).
Proof.
  intros Hin Hsync Hforce.
  assert (Hrun : ∀ e0, ∃ s' eff,
             fullSync e0 s st = Some (ensureClientIds e0 st, s', eff)
             ∧ forcePushOnce s' = false
             ∧ Forall (λ x, is_select x = false) eff).
  { intros e0. pose proof (pushPhase_no_select (ensureClientIds e0 st)) as Hpush.
    destruct s as [si sy ls fp q]. simpl in Hin, Hsync, Hforce. subst si sy fp.
    unfold fullSync. cbn [signedIn syncing negb orb set_syncing deletedLabelIds].
    destruct q as [| i ids].
    - cbn [forcePushOnce]. eexists _, _. split; [reflexivity |]. split; [reflexivity |].
      cbn [app]. constructor; [done |]. constructor; [done |].
      apply Forall_app. split; [exact Hpush | repeat constructor].
    - pose proof (sbDeleteLabelsNow_no_select true (delete_ok e0) (i :: ids)) as Hdel.
      destruct (sbDeleteLabelsNow true (delete_ok e0) (i :: ids)) as [ok effd].
      cbn [snd] in Hdel.
      destruct ok; cbn [forcePushOnce set_deletedLabelIds];
        eexists _, _; (split; [reflexivity |]); (split; [reflexivity |]);
        cbn [app]; (constructor; [done |]); rewrite <- !app_assoc;
        (apply Forall_app; split; [exact Hdel |]); cbn [app];
        (constructor; [done |]); (constructor; [done |]);
        apply Forall_app; (split; [exact Hpush | repeat constructor]). }
  destruct (Hrun e) as (s' & eff & Heq & Hflag & Hsel).
  destruct (ensureClientIds_frame e st) as (Hf1 & _ & Hf3 & Hf4 & Hf5 & _).
  exists s', eff. repeat split; try assumption.
  - intros Hid. by apply ensureClientIds_identified.
  - intros e2 He2s He2l. destruct (Hrun e2) as (s2 & eff2 & Heq2 & _). rewrite Heq2.
    cbn [fmap option_fmap option_map fst]. f_equal. unfold ensureClientIds.
    by rewrite He2s, He2l.
Qed.

Lemma fullSync_force_push_witness :
  ∃ s' eff,
    fullSync exampleSyncEnv (exampleSb true) exampleState = Some (exampleState, s', eff)
    ∧ forcePushOnce s' = false.
Proof.
  destruct (fullSync_force_push exampleSyncEnv (exampleSb true) exampleState
              eq_refl eq_refl eq_refl) as (s' & eff & Heq & Hflag & _).
  exists s', eff. split; [exact Heq | exact Hflag].
Defined.

(** ** Deleting a label, then a pass whose remote delete fails *)

Lemma pullPhase_labels e s st k :
  k ∈ deletedLabelIds s →
  byKey lbl_id k (labels (fst (pullPhase e s st))) = byKey lbl_id k (labels st).
Proof.
  intros Hk. unfold pullPhase.
  destruct (profile_res e) as [| [row |]];
    destruct (labels_res e) as [| rows];
    destruct (sessions_res e) as [| srows];
    cbn [fst labels pullSessions set_sessions pullLabels set_labels applyProfileRow];
    try reflexivity;
    rewrite mergeLabels_entry; by rewrite decide_False by tauto.
Qed.

Lemma ensureClientIds_labels e st :
  Forall (λ l, truthy (lbl_id l) = true) (labels st) →
  labels (ensureClientIds e st) = labels st.
Proof.
  intros Hl. unfold ensureClientIds. cbn [labels set_labels].
  generalize (fresh_label e). induction Hl as [| l ls Hl _ IH]; intros f; [done |].
  rewrite imap_cons. f_equal; [| apply (IH (f ∘ S))].
  unfold or_else. rewrite Hl. by destruct l.
Qed.

Lemma byKey_delete_NoDup {V} (key : V → string) (l : list V) (i : nat) (x : V) :
  NoDup (key <$> l) → l !! i = Some x → byKey key (key x) (delete i l) = None.
Proof.
  intros Hnd Hi. apply byKey_None. intros y Hy Hk.
  apply list_elem_of_lookup in Hy as [j Hj].
  assert (Hne : ∃ j', j' ≠ i ∧ l !! j' = Some y).
  { destruct (decide (j < i)%nat).
    - exists j. split; [lia |]. by rewrite list_lookup_delete_lt in Hj by lia.
    - exists (S j). split; [lia |]. by rewrite list_lookup_delete_ge in Hj by lia. }
  destruct Hne as (j' & Hne & Hj'). apply Hne.
  eapply (NoDup_lookup (key <$> l)); [done | |].
  - rewrite list_lookup_fmap, Hj'. simpl. by rewrite Hk.
  - by rewrite list_lookup_fmap, Hi.
Qed.

(** The pass keeps a queued identifier away: when the remote delete of the
    queue fails, the entry under a queued identifier is after the pass what
    it was before the pull, and the identifier stays queued. *)
Lemma fullSync_tombstone e s st k :
  signedIn s = true → syncing s = false → forcePushOnce s = false →
  delete_ok e = false → truthy k = true → k ∈ deletedLabelIds s →
  ∃ st' s' eff,
    fullSync e s st = Some (st', s', eff)
    ∧ byKey lbl_id k (labels st') = byKey lbl_id k (labels (ensureClientIds e st))
    ∧ k ∈ deletedLabelIds s'.
Proof.
  intros Hin Hsync Hforce Hdel Hk Hq.
  destruct s as [si sy ls fp q]. simpl in Hin, Hsync, Hforce, Hq. subst si sy fp.
  unfold fullSync. cbn [signedIn syncing negb orb set_syncing deletedLabelIds].
  destruct q as [| i ids]; [by apply elem_of_nil in Hq |].
  unfold sbDeleteLabelsNow. cbn [negb]. rewrite Hdel.
  assert (Hf : k ∈ filter (λ x, truthy x = true) (i :: ids)) by by apply list_elem_of_filter.
  destruct (filter (λ x, truthy x = true) (i :: ids)) as [| j js];
    [by apply elem_of_nil in Hf |].
  change (set_syncing true (mkSb true false ls false (i :: ids)))
    with (mkSb true true ls false (i :: ids)).
  cbn [forcePushOnce].
  pose proof (pullPhase_labels e (mkSb true true ls false (i :: ids))
                (ensureClientIds e st) k Hq) as Hlab.
  destruct (pullPhase e (mkSb true true ls false (i :: ids)) (ensureClientIds e st))
    as [st1 effPull].
  eexists _, _, _. split; [reflexivity |]. split; [exact Hlab | exact Hq].
Qed.

(** Deleting a label and running a pass at once, while the remote copy is
    still there: the label does not come back. *)
Lemma deleted_label_not_resurrected e s st idx l :
  signedIn s = true → syncing s = false → forcePushOnce s = false →
  delete_ok e = false →
  NoDup (lbl_id <$> labels st) →
  Forall (λ l, truthy (lbl_id l) = true) (labels st) →
  labels st !! idx = Some l →
  ∃ st2 s2 eff,
    fullSync e (snd (fst (deleteLabel (lbl_id l) st s)))
             (fst (fst (deleteLabel (lbl_id l) st s))) = Some (st2, s2, eff)
    ∧ byKey lbl_id (lbl_id l) (labels st2) = None
    ∧ lbl_id l ∈ deletedLabelIds s2.
Proof.
  intros Hin Hsync Hforce Hdel Hnd Hids Hl.
  assert (Htr : truthy (lbl_id l) = true).
  { rewrite Forall_forall in Hids. apply Hids. by eapply list_elem_of_lookup_2. }
  unfold deleteLabel.
  destruct (list_find (λ x, lbl_id x = lbl_id l) (labels st)) as [[i x] |] eqn:Hfind.
  2: { apply list_find_None in Hfind. rewrite Forall_forall in Hfind.
       exfalso. eapply Hfind; [by eapply list_elem_of_lookup_2 | done]. }
  apply list_find_Some in Hfind as (Hi & Hx & _).
  unfold sbQueueDeleteLabel. rewrite Hx, Htr. cbn [negb fst snd].
  set (q := if bool_decide (lbl_id l ∈ deletedLabelIds s) then deletedLabelIds s
            else deletedLabelIds s ++ [lbl_id l]).
  assert (Hq : lbl_id l ∈ q).
  { subst q. case_bool_decide; [done |]. apply elem_of_app. right. left. }
  destruct (fullSync_tombstone e (set_deletedLabelIds q s)
              (set_labels (delete i (labels st)) st) (lbl_id l))
    as (st2 & s2 & eff & Heq & Hby & Hq2); try done.
  exists st2, s2, eff. split; [exact Heq |]. split; [| exact Hq2].
  rewrite Hby, ensureClientIds_labels.
  - cbn [labels set_labels]. rewrite <- Hx. by apply byKey_delete_NoDup.
  - cbn [labels set_labels]. by apply Forall_delete.
Qed.

(* ================================================================== *)
(** * Pull phase: the profile row *)

Lemma truthy_string_ne (s : string) : truthy s = true ↔ s ≠ "".
Proof. unfold truthy, truthy_string. destruct s; split; congruence. Qed.

Lemma opt_or_present {A} `{Truthy A} (a d : A) : truthy a = true → opt_or (Some a) d = a.
Proof. intros Ht. unfold opt_or, opt_case. by rewrite Ht. Qed.

Lemma opt_or_absent (o : option string) (d : string) :
  o = None ∨ o = Some "" → opt_or o d = d.
Proof. by intros [-> | ->]. Qed.

Lemma or_else_truthy {A} `{Truthy A} (a d : A) : truthy a = true → or_else a d = a.
Proof. intros Ht. unfold or_else. by rewrite Ht. Qed.

(** What [applyProfileRow] leaves in a text field read with [||]. *)
Lemma text_field (o : option string) (loc dflt : string) :
  (∀ s, o = Some s → s ≠ "" → or_else (opt_or o loc) dflt = s)
  ∧ (o = None ∨ o = Some "" → or_else (opt_or o loc) dflt = or_else loc dflt).
Proof.
  split.
  - intros s -> Hs. apply truthy_string_ne in Hs.
    rewrite opt_or_present by done. by apply or_else_truthy.
  - intros Habs. by rewrite opt_or_absent.
Qed.

(** C6, as the code has it. A field of the row replaces the local field
    only when the row holds a value for it: a text field ([display_name],
    [theme], [session_ambient_type], [garden_tree_type]) when it is a
    non-empty text, a numeric field when it is not null (zero included);
    an empty or null field leaves the local value (or the default when
    the local text is empty). [stopwatch_cap_on] becomes true unless the
    row holds [false]; the cap hours are clamped to 1..24 and the volume to
    0..1 after the choice; the fruit collection of the row is merged into
    the local one key by key, the row winning on a shared key. Sessions,
    labels and the world view are untouched. No local value is compared
    with the remote one. *)
Theorem applyProfileRow_spec (r : ProfileRow) (st : State) :
  let st' := applyProfileRow r st in
  let p := profile st in
  let p' := profile st' in
  ((∀ s, display_name r = Some s → s ≠ "" → name p' = s)
   ∧ (display_name r = None ∨ display_name r = Some "" → name p' = or_else (name p) "Student"))
  ∧ ((∀ s, row_theme r = Some s → s ≠ "" → theme p' = s)
     ∧ (row_theme r = None ∨ row_theme r = Some "" → theme p' = or_else (theme p) "midnight"))
  ∧ ((∀ s, session_ambient_type r = Some s → s ≠ "" → ambientType p' = s)
     ∧ (session_ambient_type r = None ∨ session_ambient_type r = Some ""
        → ambientType p' = or_else (ambientType p) "off"))
  ∧ ((∀ s, garden_tree_type r = Some s → s ≠ "" → treeType (garden st') = s)
     ∧ (garden_tree_type r = None ∨ garden_tree_type r = Some ""
        → treeType (garden st') = or_else (treeType (garden st)) "Apple"))
  ∧ weeklyGoalHours p' = default (weeklyGoalHours p) (weekly_goal_hours r)
  ∧ stopwatchCapOn p' = (if stopwatch_cap_on r is Some false then false else true)
  ∧ stopwatchCapHours p' = clamp (default (stopwatchCapHours p) (stopwatch_cap_hours r)) 1 24
  ∧ ambientVolume p' = clamp01 (default (ambientVolume p) (session_ambient_volume r))
  ∧ xpSec st' = default (xpSec st) (island_xp_sec r)
  ∧ growthSec (garden st') = default (growthSec (garden st)) (garden_growth_sec r)
  ∧ harvestedOnThisTree (garden st')
    = default (harvestedOnThisTree (garden st)) (garden_harvested_on_tree r)
  ∧ (∀ k, fruitCollection st' !! k
          = match fruit_collection r with
            | Some m => match m !! k with Some v => Some v | None => fruitCollection st !! k end
            | None => fruitCollection st !! k
            end)
  ∧ sessions st' = sessions st ∧ labels st' = labels st ∧ worldView st' = worldView st.
Proof.
  intros st' p p'. subst st' p p'. unfold applyProfileRow. simpl.
  split; [apply text_field |]. split; [apply text_field |].
  split; [apply text_field |]. split; [apply text_field |].
  repeat split; try done.
  intros k. destruct (fruit_collection r) as [m |]; [| done].
  rewrite lookup_union. destruct (m !! k), (fruitCollection st !! k); done.
Qed.

(** C6, refuted as stated: the row of the example holds an empty display
    name and zero cap hours, and after it is applied the local name is
    still "Alice" and the cap is 1. *)
Lemma applyProfileRow_not_remote_wins : ¬ remoteWins exampleProfileRow exampleState.
Proof.
  intros (Hname & _). specialize (Hname "" eq_refl). vm_compute in Hname. discriminate.
Qed.

Example applyProfileRow_example :
  let st' := applyProfileRow exampleProfileRow exampleState in
  name (profile st') = "Alice"
  ∧ weeklyGoalHours (profile st') = 0
  ∧ stopwatchCapHours (profile st') = 1
  ∧ xpSec st' = 1500
  ∧ growthSec (garden st') = 0
  ∧ treeType (garden st') = "Cherry"
  ∧ fruitCollection st' !! "Mango" = Some 4
  ∧ fruitCollection st' !! "Cherry" = Some 3.
Proof. vm_compute. repeat split. Qed.

(* ================================================================== *)
(** * Where stored durations come from *)

Lemma remoteSessions_elem e wv rows x :
  x ∈ remoteSessions e wv rows → ∃ r, r ∈ rows ∧ ses_durationSec x = duration_sec r.
Proof.
  unfold remoteSessions. intros Hx. apply list_elem_of_lookup in Hx as [i Hi].
  rewrite list_lookup_imap in Hi.
  destruct (rows !! i) as [r |] eqn:Hr; [| done]. simpl in Hi. injection Hi as <-.
  exists r. split; [by eapply list_elem_of_lookup_2 |]. simpl. apply or_else_Z_0.
Qed.

Lemma pullSessions_origin e rows st x :
  x ∈ sessions (pullSessions e rows st) →
  x ∈ sessions st ∨ ∃ r, r ∈ rows ∧ ses_durationSec x = duration_sec r.
Proof.
  unfold pullSessions. cbn [sessions set_sessions]. intros Hx.
  destruct (mergeSessions_origin _ _ _ Hx) as [? | [Hrem _]]; [by left | right].
  by eapply remoteSessions_elem.
Qed.

(* ================================================================== *)
(** * Levels and tree stages *)

Lemma clamp_bounds (n a b : Z) : a ≤ b → a ≤ clamp n a b ≤ b.
Proof. unfold clamp. lia. Qed.

Lemma pctOf_bounds `{Float64} (a b : Z) : 0 ≤ pctOf a b ≤ 100.
Proof. unfold pctOf. apply clamp_bounds. lia. Qed.

Lemma LEVEL_SEC_eq : LEVEL_SEC = 18000.
Proof. reflexivity. Qed.

(** X1. [computeLevel] splits a number of seconds into whole levels of five
    hours and a rest: [totalSec = level * LEVEL_SEC + inLevel] with
    [0 <= inLevel < LEVEL_SEC]; the seconds that remain to the next level
    are [LEVEL_SEC - inLevel], never zero; the percentage lies in 0..100;
    the level is not negative when the total is not, and it grows with the
    total. *)
Theorem computeLevel_division `{Float64} (totalSec more : Z) :
  let r := computeLevel totalSec in
  totalSec = lv_level r * LEVEL_SEC + lv_inLevel r
  ∧ 0 ≤ lv_inLevel r < LEVEL_SEC
  ∧ lv_remainingSec r = LEVEL_SEC - lv_inLevel r
  ∧ 0 < lv_remainingSec r ≤ LEVEL_SEC
  ∧ 0 ≤ lv_pct r ≤ 100
  ∧ (0 ≤ lv_level r ↔ 0 ≤ totalSec)
  ∧ lv_level r ≤ lv_level (computeLevel (totalSec + Z.max 0 more)).
Proof.
  intros r. subst r. unfold computeLevel. cbn [lv_level lv_inLevel lv_remainingSec lv_pct].
  rewrite LEVEL_SEC_eq.
  pose proof (Z.div_mod totalSec 18000 ltac:(lia)) as Hdm.
  pose proof (Z.mod_pos_bound totalSec 18000 ltac:(lia)) as Hmb.
  assert (Hin : totalSec - totalSec / 18000 * 18000 = totalSec mod 18000) by lia.
  rewrite Hin.
  set (q := totalSec / 18000) in *. set (m := totalSec mod 18000) in *.
  pose proof (pctOf_bounds m 18000) as Hp.
  assert (Hmono : q ≤ (totalSec + Z.max 0 more) / 18000)
    by (apply Z.div_le_mono; lia).
  repeat split; try lia.
Qed.

Lemma getTreeStage_cases `{Float64} (g : Z) :
  (g < 600
   ∧ getTreeStage g
     = mkTreeProgress (mkStage "seed" "Seed" 0) (Some (mkStage "sprout" "Sprout" 600))
         (pctOf (g - 0) (600 - 0)) (Z.max 0 (600 - g)))
  ∨ (600 ≤ g < 1800
     ∧ getTreeStage g
       = mkTreeProgress (mkStage "sprout" "Sprout" 600) (Some (mkStage "plant" "Plant" 1800))
           (pctOf (g - 600) (1800 - 600)) (Z.max 0 (1800 - g)))
  ∨ (1800 ≤ g < 3600
     ∧ getTreeStage g
       = mkTreeProgress (mkStage "plant" "Plant" 1800) (Some (mkStage "sapling" "Sapling" 3600))
           (pctOf (g - 1800) (3600 - 1800)) (Z.max 0 (3600 - g)))
  ∨ (3600 ≤ g < 7200
     ∧ getTreeStage g
       = mkTreeProgress (mkStage "sapling" "Sapling" 3600) (Some (mkStage "tree" "Tree" 7200))
           (pctOf (g - 3600) (7200 - 3600)) (Z.max 0 (7200 - g)))
  ∨ (7200 ≤ g
     ∧ getTreeStage g = mkTreeProgress (mkStage "tree" "Tree" 7200) None 100 0).
Proof.
  unfold getTreeStage, TREE_STAGES, firstStage. cbn [fold_left minSec head default].
  change (10 * 60) with 600. change (30 * 60) with 1800.
  change (60 * 60) with 3600. change (2 * 60 * 60) with 7200.
  destruct (Z.leb_spec 0 g); destruct (Z.leb_spec 600 g); destruct (Z.leb_spec 1800 g);
    destruct (Z.leb_spec 3600 g); destruct (Z.leb_spec 7200 g); try lia;
    vm_compute list_find; cbn;
    first [ left; split; [lia | reflexivity]
          | right; left; split; [lia | reflexivity]
          | right; right; left; split; [lia | reflexivity]
          | right; right; right; left; split; [lia | reflexivity]
          | right; right; right; right; split; [lia | reflexivity] ].
Qed.

Lemma elem_of_TREE_STAGES (st : Stage) :
  st ∈ TREE_STAGES
  ↔ st = mkStage "seed" "Seed" 0 ∨ st = mkStage "sprout" "Sprout" 600
    ∨ st = mkStage "plant" "Plant" 1800 ∨ st = mkStage "sapling" "Sapling" 3600
    ∨ st = mkStage "tree" "Tree" 7200.
Proof.
  unfold TREE_STAGES. rewrite !elem_of_cons, elem_of_nil.
  change (10 * 60) with 600. change (30 * 60) with 1800.
  change (60 * 60) with 3600. change (2 * 60 * 60) with 7200. tauto.
Qed.

(** X2. [getTreeStage] returns the highest stage whose threshold the growth
    has reached (the seed below zero) and the stage that follows it. While a
    next stage exists the growth is below its threshold and [toNextSec] is
    the positive distance to it; there is no next stage exactly from the
    threshold of the tree on, where the percentage is 100 and [toNextSec]
    is 0. The percentage is always within 0..100. *)
Theorem getTreeStage_spec `{Float64} (g : Z) :
  let r := getTreeStage g in
  tp_current r ∈ TREE_STAGES
  ∧ (minSec (tp_current r) ≤ g ∨ (g < 0 ∧ stage_id (tp_current r) = "seed"))
  ∧ (∀ st, st ∈ TREE_STAGES → minSec st ≤ g → minSec st ≤ minSec (tp_current r))
  ∧ (∀ n, tp_next r = Some n →
       n ∈ TREE_STAGES
       ∧ minSec (tp_current r) < minSec n
       ∧ g < minSec n
       ∧ tp_toNextSec r = minSec n - g
       ∧ (∀ st, st ∈ TREE_STAGES →
            minSec st ≤ minSec (tp_current r) ∨ minSec n ≤ minSec st))
  ∧ (tp_next r = None ↔ treeMin ≤ g)
  ∧ (tp_next r = None → tp_pct r = 100 ∧ tp_toNextSec r = 0)
  ∧ 0 ≤ tp_pct r ≤ 100.
Proof.
  intros r. subst r. rewrite treeMin_eq.
  destruct (getTreeStage_cases g) as [[Hg ->] | [[Hg ->] | [[Hg ->] | [[Hg ->] | [Hg ->]]]]];
    cbn [tp_current tp_next tp_pct tp_toNextSec minSec stage_id].
  all: split; [apply elem_of_TREE_STAGES; tauto |].
  all: split;
    [destruct (Z.le_gt_cases 0 g);
     [left; lia | first [right; split; [lia | reflexivity] | left; lia]] |].
  all: split;
    [intros st [-> | [-> | [-> | [-> | ->]]]]%elem_of_TREE_STAGES; cbn [minSec]; lia |].
  all: split;
    [intros n Hn;
     first [ discriminate Hn
           | injection Hn as <-; cbn [minSec];
             split; [apply elem_of_TREE_STAGES; tauto |];
             split; [lia |]; split; [lia |]; split; [lia |];
             intros st [-> | [-> | [-> | [-> | ->]]]]%elem_of_TREE_STAGES;
             cbn [minSec]; lia ] |].
  all: split;
    [split; [intros Hn; first [discriminate Hn | lia]
            | intros; first [lia | reflexivity]] |].
  all: split; [intros Hn; first [discriminate Hn | split; reflexivity] |].
  all: first [apply pctOf_bounds | lia].
Qed.

(* ================================================================== *)
(** * The garden: harvest and restart *)





(** X4. [restartTree] sets the growth and the harvest counter of the garden
    to zero, so that no fruit is ready afterwards and the tree is a seed
    again; an empty [newType] keeps the type of the tree. The island's
    [xpSec], the fruit collection and the sessions stay as they are:
    afterwards the two progression counters agree only if [xpSec] is 0. *)
Theorem restartTree_resets `{Float64} (newType : string) (st : State) :
  let st' := fst (restartTree newType st) in
  growthSec (garden st') = 0
  ∧ harvestedOnThisTree (garden st') = 0
  ∧ treeType (garden st') = (if truthy newType then newType else treeType (garden st))
  ∧ computeFruitsReady (garden st') = 0
  ∧ stage_id (tp_current (getTreeStage (growthSec (garden st')))) = "seed"
  ∧ xpSec st' = xpSec st
  ∧ fruitCollection st' = fruitCollection st
  ∧ sessions st' = sessions st
  ∧ labels st' = labels st
  ∧ (coupled st' ↔ xpSec st = 0)
  ∧ SaveState ∈ snd (restartTree newType st).
Proof.
  intros st'. subst st'. unfold restartTree, coupled.
  cbn [fst snd set_garden garden growthSec harvestedOnThisTree treeType xpSec
         fruitCollection sessions labels].
  assert (Hseed : stage_id (tp_current (getTreeStage 0)) = "seed").
  { destruct (getTreeStage_cases 0) as [[_ ->] | [[? _] | [[? _] | [[? _] | [? _]]]]];
      [reflexivity | lia ..]. }
  repeat split; try reflexivity; try (intros; lia); try exact Hseed.
  left.
Qed.

(** X5. A fruit is ready only on a grown tree: when [computeFruitsReady] is
    positive the growth has reached the threshold of the tree (and passed it
    by at least one fruit period when the harvest counter is not negative),
    the current stage is the tree and there is no next stage; the number
    ready is the number of whole fruit periods since the threshold less the
    fruits already harvested on this tree. *)
Theorem fruits_need_tree `{Float64} (g : Garden) :
  0 < computeFruitsReady g →
  treeMin ≤ growthSec g
  ∧ (0 ≤ harvestedOnThisTree g → treeMin + FRUIT_RATE_SEC ≤ growthSec g)
  ∧ stage_id (tp_current (getTreeStage (growthSec g))) = "tree"
  ∧ tp_next (getTreeStage (growthSec g)) = None
  ∧ computeFruitsReady g
    = (growthSec g - treeMin) / FRUIT_RATE_SEC - harvestedOnThisTree g.
Proof.
  intros Hpos. unfold computeFruitsReady in *. rewrite treeMin_eq in *.
  change FRUIT_RATE_SEC with 1800 in *. rewrite or_else_Z_0 in *.
  destruct (Z.ltb_spec (growthSec g) 7200) as [Hlt | Hge]; [lia |].
  destruct (getTreeStage_cases (growthSec g))
    as [[? _] | [[? _] | [[? _] | [[? _] | [_ ->]]]]]; try lia.
  cbn [tp_current tp_next stage_id].
  split; [lia |]. split; [| repeat split; lia].
  intros Hh.
  destruct (Z.le_gt_cases 9000 (growthSec g)) as [? | Hsmall]; [lia |].
  rewrite (Z.div_small (growthSec g - 7200) 1800) in Hpos by lia. lia.
Qed.

Lemma fruits_need_tree_witness :
  treeMin ≤ 10800
  ∧ (0 ≤ 0 → treeMin + FRUIT_RATE_SEC ≤ 10800)
  ∧ stage_id (tp_current (getTreeStage (H := exactFloat64) 10800)) = "tree"
  ∧ tp_next (getTreeStage (H := exactFloat64) 10800) = None
  ∧ computeFruitsReady (mkGarden "Apple" 10800 0) = (10800 - treeMin) / FRUIT_RATE_SEC - 0.
Proof.
  apply (fruits_need_tree (H := exactFloat64) (mkGarden "Apple" 10800 0)).
  vm_compute. reflexivity.
Defined.

(* ================================================================== *)
(** * The ledger: recording, deleting and the total *)

(** X6. Recording a session and deleting it again, on a state whose
    counters are not negative: [deleteSessionById], given the identifier of
    the session that an accepted [saveSession] has just recorded, returns
    [true], restores the state exactly as it was before the recording, and
    asks the remote store to delete the session under that identifier. *)
Theorem saveSession_then_delete (e : SaveEnv) (a : SaveArgs) (st : State) :
  60 ≤ Math_round (arg_durationSec a) →
  0 ≤ xpSec st →
  0 ≤ growthSec (garden st) →
  deleteSessionById ("s_" +:+ env_fresh e) (snd (fst (saveSession e a st)))
  = (true, st,
     [SaveState; RenderAll; Toast "Deleted"; SbDeleteSession ("s_" +:+ env_fresh e)]).
Proof.
  intros Hge Hxp Hgr. unfold saveSession.
  replace (Z.max 0 (Math_round (arg_durationSec a))) with (Math_round (arg_durationSec a))
    by lia.
  destruct (Z.ltb_spec (Math_round (arg_durationSec a)) 60); [lia |].
  set (r := Math_round (arg_durationSec a)) in *.
  destruct st as [p wv ss xp [tt gs h] fc ls].
  unfold deleteSessionById, set_garden, set_xpSec, set_sessions, set_growthSec.
  cbn [snd fst sessions xpSec garden growthSec profile worldView fruitCollection labels
         treeType harvestedOnThisTree] in *.
  assert (Ht : truthy ("s_" +:+ env_fresh e) = true) by reflexivity.
  rewrite Ht. cbn [negb list_find].
  rewrite decide_True by reflexivity.
  cbn [fmap option_fmap option_map delete list_delete ses_id ses_clientId ses_durationSec].
  rewrite !or_else_Z_0.
  replace (Z.max 0 (xp + r - r)) with xp by lia.
  replace (Z.max 0 (gs + r - r)) with gs by lia.
  reflexivity.
Qed.

Lemma saveSession_then_delete_witness :
  deleteSessionById ("s_" +:+ env_fresh exampleEnv)
    (snd (fst (saveSession exampleEnv (exampleArgs (Q2Qc 1500)) exampleState)))
  = (true, exampleState,
     [SaveState; RenderAll; Toast "Deleted"; SbDeleteSession ("s_" +:+ env_fresh exampleEnv)]).
Proof.
  apply (saveSession_then_delete exampleEnv (exampleArgs (Q2Qc 1500)) exampleState).
  - vm_compute. discriminate.
  - vm_compute. discriminate.
  - vm_compute. discriminate.
Defined.

Lemma ledger_total_whole (l : list Ledger.Session) :
  Forall (λ s, ∃ z, Ledger.ses_durationSec s = Ledger.of_Z z ∧ 60 ≤ z) l →
  ∃ t, Ledger.totalDuration l = Ledger.of_Z t ∧ 0 ≤ t
       ∧ ∀ i s, l !! i = Some s →
           ∃ z, Ledger.ses_durationSec s = Ledger.of_Z z ∧ 60 ≤ z ∧ z ≤ t
                ∧ Ledger.totalDuration (delete i l) = Ledger.of_Z (t - z).
Proof.
  induction 1 as [| s l (z & Hz & Hz60) _ (t & Ht & Ht0 & IH)].
  - exists 0. split; [done |]. split; [done |]. intros i s Hi. by destruct i.
  - exists (z + t). cbn [Ledger.totalDuration foldr].
    change (foldr _ _ l) with (Ledger.totalDuration l).
    rewrite Hz, Ht, of_Z_add. split; [done |]. split; [lia |].
    intros [| i] s' Hi; cbn in Hi.
    + injection Hi as <-. exists z. split; [done |]. split; [done |]. split; [lia |].
      cbn [delete list_delete]. rewrite Ht. f_equal. lia.
    + destruct (IH i s' Hi) as (z' & Hz' & Hz'60 & Hle & Hdel).
      exists z'. split; [done |]. split; [done |]. split; [lia |].
      cbn [delete list_delete Ledger.totalDuration foldr].
      change (foldr _ _ (delete i l)) with (Ledger.totalDuration (delete i l)).
      rewrite Hz, Hdel, of_Z_add. f_equal. lia.
Qed.

Lemma ledger_step_exact op st :
  Ledger.finiteSave op →
  Ledger.ledgerExact st ∧ Ledger.minDuration st →
  Ledger.ledgerExact (Ledger.stepLedger op st) ∧ Ledger.minDuration (Ledger.stepLedger op st).
Proof.
  intros Hfin [[Hxp Hgr] Hmin]. unfold Ledger.minDuration in Hmin.
  destruct (ledger_total_whole _ Hmin) as (t & Ht & Ht0 & Hdel).
  destruct op as [e a | i |]; cbn [Ledger.stepLedger].
  - destruct Hfin as [q Hq].
    pose proof (ledger_dur_cases (Ledger.arg_durationSec a)) as Hd. cbv zeta in Hd.
    rewrite Hq in Hd. destruct Hd as (_ & Hdur & _ & _ & Hlt). rewrite <- Hq in Hdur, Hlt.
    destruct (Z.ltb_spec (Math_round q) 60) as [Hlow | Hhigh].
    + rewrite (ledger_saveSession_reject e a st Hlt). by repeat split.
    + destruct (ledger_saveSession_accept e a st Hlt) as (s & -> & Hs & _).
      cbn [fst snd]. unfold Ledger.ledgerExact, Ledger.minDuration.
      cbn [Ledger.xpSec Ledger.growthSec Ledger.sessions Ledger.totalDuration foldr].
      change (foldr _ _ (Ledger.sessions st)) with (Ledger.totalDuration (Ledger.sessions st)).
      rewrite Hs, Hxp, Hgr, Hdur, Ht, !of_Z_add.
      split; [split; f_equal; lia |].
      constructor; [| done]. exists (Z.max 0 (Math_round q)).
      split; [by rewrite Hs, Hdur | lia].
  - unfold Ledger.deleteSessionById. destruct (truthy i); cbn [negb]; [| by repeat split].
    destruct (list_find _ _) as [[idx removed] |] eqn:Hfind; [| by repeat split].
    apply list_find_Some in Hfind as (Hlk & _ & _).
    destruct (Hdel idx removed Hlk) as (z & Hz & Hz60 & Hzt & Htot).
    cbn [fst snd]. unfold Ledger.ledgerExact, Ledger.minDuration.
    cbn [Ledger.xpSec Ledger.growthSec Ledger.sessions].
    rewrite Hxp, Hgr, Ht, Hz, Htot, !of_Z_or_else, !of_Z_sub, !of_Z_max.
    split; [| by apply Forall_delete].
    assert (Hz0 : or_else z 0 = z).
    { unfold or_else, truthy, truthy_Z. destruct (Z.eqb_spec z 0); [lia | done]. }
    assert (Ht1 : or_else t 0 = t).
    { unfold or_else, truthy, truthy_Z. destruct (Z.eqb_spec t 0); [lia | done]. }
    rewrite Hz0, Ht1. split; f_equal; lia.
  - unfold Ledger.ledgerExact, Ledger.minDuration. cbn. repeat split. constructor.
Qed.

Lemma ledger_trace_exact ops : ∀ st,
  Forall Ledger.finiteSave ops →
  Ledger.ledgerExact st ∧ Ledger.minDuration st →
  Forall (λ st', Ledger.ledgerExact st' ∧ Ledger.minDuration st') (Ledger.traceLedger ops st).
Proof.
  induction ops as [| op ops IH]; intros st Hfin Hinv; cbn [Ledger.traceLedger]; [constructor |].
  apply Forall_cons in Hfin as [Hop Hfin].
  pose proof (ledger_step_exact op st Hop Hinv) as Hstep.
  constructor; [exact Hstep | by apply IH].
Qed.

(** X7. Along every run of [saveSession], [deleteSessionById] and
    [resetStats] from the default state in which every duration handed to
    [saveSession] is a finite number, the island's [xpSec] and the garden's
    [growthSec] both equal the recorded study time, the sum of the
    durations of the stored sessions, after each operation. *)
Theorem ledger_counts_recorded_time (ops : list Ledger.LedgerOp) :
  Forall Ledger.finiteSave ops →
  Forall Ledger.ledgerExact (Ledger.traceLedger ops Ledger.defaultState).
Proof.
  intros Hfin.
  eapply Forall_impl; [apply (ledger_trace_exact ops Ledger.defaultState Hfin) |].
  - split; [by split | constructor].
  - by intros st [? _].
Qed.

Lemma ledger_counts_recorded_time_witness :
  Forall Ledger.ledgerExact
    (Ledger.traceLedger
       [ Ledger.OpSave exampleEnv (Ledger.finiteArgs 90);
         Ledger.OpSave (mkSaveEnv 1700000100000 "c3d4_18d") (Ledger.finiteArgs 1500);
         Ledger.OpDelete "s_a1b2_18c";
         Ledger.OpReset ]
       Ledger.defaultState).
Proof.
  apply ledger_counts_recorded_time.
  repeat constructor; by eexists.
Defined.

(** A [NaN] duration breaks the count: the counters become [NaN], and
    deleting the session sets them to 0 while 90 seconds stay recorded. *)
Example ledger_NaN_run_example :
  let st1 := Ledger.stepLedger (Ledger.OpSave exampleEnv (Ledger.finiteArgs 90))
               Ledger.defaultState in
  let st2 := Ledger.stepLedger
               (Ledger.OpSave (mkSaveEnv 1700000100000 "c3d4_18d") Ledger.nanArgs) st1 in
  let st3 := Ledger.stepLedger (Ledger.OpDelete "s_c3d4_18d") st2 in
  Ledger.xpSec st2 = Blob.NaN
  ∧ Ledger.growthSec st2 = Blob.NaN
  ∧ Ledger.ses_durationSec <$> Ledger.sessions st3 = [Ledger.of_Z 90]
  ∧ Ledger.xpSec st3 = Ledger.of_Z 0
  ∧ Ledger.growthSec st3 = Ledger.of_Z 0
  ∧ Ledger.totalDuration (Ledger.sessions st3) = Ledger.of_Z 90.
Proof. cbv zeta. repeat split; vm_compute; reflexivity. Qed.

(* ================================================================== *)
(** * Labels *)

Lemma slice0_length (n : nat) (s : string) : (String.length (slice0 n s) ≤ n)%nat.
Proof.
  unfold slice0. revert s. induction n as [| n IH]; intros [| c s]; simpl; try lia.
  specialize (IH s). lia.
Qed.

Lemma slice0_nonempty (n : nat) (s : string) : s ≠ "" → slice0 (S n) s ≠ "".
Proof. unfold slice0. destruct s; [done | discriminate]. Qed.

Lemma front_ok_trim (s : string) : front_ok (trim s).
Proof.
  unfold trim.
  assert (Hs : front_ok (trimStart s)).
  { induction s as [| c s IH]; simpl; [done |].
    destruct (is_white c) eqn:Hc; [done | by simpl]. }
  destruct (trimStart s) as [| c s']; simpl in *; [done |].
  destruct (trimEnd s'); simpl; [by rewrite Hs | done].
Qed.

Lemma front_ok_slice0 (n : nat) (s : string) : front_ok s → front_ok (slice0 n s).
Proof. unfold slice0. destruct s as [| c s], n; simpl; done. Qed.

Lemma truthy_string_empty (s : string) : truthy s = false ↔ s = "".
Proof. destruct s; split; intros Hs; try reflexivity; discriminate Hs. Qed.

(** X8. [createLabel] refuses a name that is empty or white space only:
    it returns [false] and leaves the state alone, saving nothing.
    Otherwise it returns [true] and puts one label at the end of the list,
    after the labels that were there: its name is the trimmed name cut to 24
    units (so not empty, not longer than 24, without white space in front),
    it is not a favorite, and its colour is the default when none is given.
    The labels already present play no part: a name in use is accepted
    again. *)
Theorem createLabel_spec (e : LabelEnv) (name color : option string) (st : State) :
  let n := trim (opt_or name "") in
  let r := createLabel e name color st in
  (fst (fst r) = true ↔ n ≠ "")
  ∧ (n = "" → r = (false, st, [Toast "Label name required"]))
  ∧ (n ≠ "" →
       ∃ l, r = (true, set_labels (labels st ++ [l]) st,
                 [SaveState; SbUpsertSoon; RenderAll; Toast "Label created"])
            ∧ lbl_id l = "lbl_" +:+ lenv_fresh e
            ∧ lbl_name l = slice0 24 n
            ∧ lbl_name l ≠ ""
            ∧ (String.length (lbl_name l) ≤ 24)%nat
            ∧ front_ok (lbl_name l)
            ∧ lbl_color l = (if truthy color then default "" color else "#a855f7")
            ∧ lbl_favorite l = false
            ∧ lbl_createdTs l = lenv_now e).
Proof.
  intros n r. subst r. unfold createLabel. fold n.
  destruct (truthy n) eqn:Ht; cbn [negb fst snd].
  - assert (Hn : n ≠ "") by (intros Hn; rewrite Hn in Ht; discriminate Ht).
    split; [done |]. split; [done |]. intros _.
    eexists. split; [reflexivity |]. cbn [lbl_id lbl_name lbl_color lbl_favorite lbl_createdTs].
    split; [reflexivity |]. split; [reflexivity |].
    split; [by apply slice0_nonempty |].
    split; [apply slice0_length |].
    split.
    { apply front_ok_slice0. subst n. apply front_ok_trim. }
    split; [| done].
    destruct color as [c |]; [| reflexivity].
    unfold opt_or, opt_case. cbn. by destruct (truthy c).
  - apply truthy_string_empty in Ht.
    split; [split; [discriminate | done] |]. split; [done | done].
Qed.

Lemma set_favorite_id (l : Label) : set_favorite (lbl_favorite l) l = l.
Proof. by destruct l. Qed.

Lemma set_labels_id (st : State) : set_labels (labels st) st = st.
Proof. by destruct st. Qed.

Lemma list_find_set_favorite (id : string) (ls : list Label) (i : nat) (l : Label) (b : bool) :
  list_find (λ x, lbl_id x = id) ls = Some (i, l) →
  list_find (λ x, lbl_id x = id) (<[i := set_favorite b l]> ls) = Some (i, set_favorite b l).
Proof.
  intros (Hl & Hid & Hbefore)%list_find_Some.
  apply list_find_Some. split; [| split].
  - apply list_lookup_insert_eq. by eapply lookup_lt_Some.
  - exact Hid.
  - intros j y Hj Hlt. rewrite list_lookup_insert_ne in Hj by lia. by eapply Hbefore.
Qed.

(** X9. [toggleLabelFavorite] flips the favorite flag of the first label
    that carries the identifier and of no other label, and saves; with no
    such label it changes nothing and saves nothing. Toggling the same
    identifier twice gives back the state. *)
Theorem toggleLabelFavorite_twice (id : string) (st : State) :
  let st' := fst (toggleLabelFavorite id st) in
  fst (toggleLabelFavorite id st') = st
  ∧ (getLabelById id st = None → toggleLabelFavorite id st = (st, []))
  ∧ (∀ i l, list_find (λ x, lbl_id x = id) (labels st) = Some (i, l) →
       labels st' = <[i := set_favorite (negb (lbl_favorite l)) l]> (labels st)
       ∧ getLabelById id st' = Some (set_favorite (negb (lbl_favorite l)) l)
       ∧ snd (toggleLabelFavorite id st) = [SaveState; RenderAll])
  ∧ profile st' = profile st ∧ sessions st' = sessions st ∧ xpSec st' = xpSec st.
Proof.
  intros st'. subst st'. unfold toggleLabelFavorite, getLabelById.
  destruct (list_find (λ l, lbl_id l = id) (labels st)) as [[i l] |] eqn:Hf; cbn [fst snd].
  - pose proof (list_find_set_favorite id _ i l (negb (lbl_favorite l)) Hf) as Hf'.
    replace (labels (set_labels (<[i:=set_favorite (negb (lbl_favorite l)) l]> (labels st)) st))
      with (<[i:=set_favorite (negb (lbl_favorite l)) l]> (labels st)) by (by destruct st).
    rewrite Hf'. cbn [fst snd fmap option_fmap option_map].
    apply list_find_Some in Hf as (Hl & Hid & Hbefore).
    split; [| split; [discriminate | split; [| by destruct st]]].
    + destruct st as [p wv ss xp g fc ls]. cbn [set_labels labels profile worldView sessions
        xpSec garden fruitCollection] in *.
      replace (set_favorite (negb (lbl_favorite (set_favorite (negb (lbl_favorite l)) l)))
                 (set_favorite (negb (lbl_favorite l)) l)) with l
        by (destruct l as [? ? ? []]; reflexivity).
      unfold set_labels. cbn [profile worldView sessions xpSec garden fruitCollection labels].
      f_equal. rewrite list_insert_insert_eq. by apply list_insert_id.
    + intros i0 l0 Heq. injection Heq as <- <-. done.
  - cbn [fmap option_fmap option_map]. rewrite Hf. cbn [fst].
    split; [done |]. split; [done |]. split; [discriminate | done].
Qed.

Lemma list_find_snoc_fresh {A} (P : A → Prop) `{∀ x, Decision (P x)} (l : list A) (x : A) :
  Forall (λ y, ¬ P y) l → P x → list_find P (l ++ [x]) = Some (length l, x).
Proof.
  intros Hl Hx.
  assert (Hnone : list_find P l = None) by (by apply list_find_None).
  rewrite list_find_app_r by done. cbn [list_find].
  by rewrite decide_True.
Qed.

(** X10. Creating a label and deleting it again: when no label yet carries
    the identifier that [createLabel] generates, [deleteLabel] on that
    identifier gives back the state as it was before the creation, and the
    identifier is queued for deletion in the remote store. *)
Theorem createLabel_then_delete (e : LabelEnv) (name color : option string)
    (st : State) (s : Sb) :
  trim (opt_or name "") ≠ "" →
  Forall (λ l, lbl_id l ≠ "lbl_" +:+ lenv_fresh e) (labels st) →
  let st1 := snd (fst (createLabel e name color st)) in
  let r := deleteLabel ("lbl_" +:+ lenv_fresh e) st1 s in
  fst (fst r) = st
  ∧ ("lbl_" +:+ lenv_fresh e) ∈ deletedLabelIds (snd (fst r))
  ∧ (∀ k, k ∈ deletedLabelIds s → k ∈ deletedLabelIds (snd (fst r)))
  ∧ SaveState ∈ snd r.
Proof.
  intros Hn Hfresh st1 r. subst r st1. unfold createLabel.
  assert (Ht : truthy (trim (opt_or name "")) = true).
  { destruct (truthy (trim (opt_or name ""))) eqn:E; [done |].
    by apply truthy_string_empty in E. }
  rewrite Ht. cbn [negb fst snd].
  unfold deleteLabel.
  replace (labels (set_labels _ st)) with
    (labels st ++ [ {| lbl_id := "lbl_" +:+ lenv_fresh e;
                       lbl_name := slice0 24 (trim (opt_or name ""));
                       lbl_color := opt_or color "#a855f7";
                       lbl_favorite := false;
                       lbl_createdTs := lenv_now e |} ]) by (by destruct st).
  rewrite (list_find_snoc_fresh (λ l, lbl_id l = "lbl_" +:+ lenv_fresh e)) by done.
  rewrite delete_middle, app_nil_r. cbn [lbl_id].
  unfold sbQueueDeleteLabel.
  assert (Hid : truthy ("lbl_" +:+ lenv_fresh e) = true) by reflexivity.
  rewrite Hid. cbn [negb fst snd deletedLabelIds set_deletedLabelIds].
  split; [by destruct st |]. split; [| split].
  - destruct (bool_decide _) eqn:Hb.
    + by apply bool_decide_eq_true_1 in Hb.
    + apply elem_of_app. right. left.
  - intros k Hk. destruct (bool_decide _); [done |]. apply elem_of_app. by left.
  - apply elem_of_app. right. left.
Qed.

Lemma createLabel_then_delete_witness :
  let st1 := snd (fst (createLabel (mkLabelEnv "7c1_18f" 1700000000000)
                                   (Some "  Maths ") None exampleState)) in
  let r := deleteLabel "lbl_7c1_18f" st1 (exampleSb false) in
  fst (fst r) = exampleState
  ∧ "lbl_7c1_18f" ∈ deletedLabelIds (snd (fst r))
  ∧ (∀ k, k ∈ deletedLabelIds (exampleSb false) → k ∈ deletedLabelIds (snd (fst r)))
  ∧ SaveState ∈ snd r.
Proof.
  apply (createLabel_then_delete (mkLabelEnv "7c1_18f" 1700000000000)
           (Some "  Maths ") None exampleState (exampleSb false)).
  - vm_compute. discriminate.
  - repeat constructor. vm_compute. discriminate.
Defined.

Lemma sort_by_ext {A} (cmp cmp' : A → A → Z) (l : list A) :
  (∀ a b, cmp a b = cmp' a b) → sort_by cmp l = sort_by cmp' l.
Proof.
  intros He. unfold sort_by. induction l as [| x l IH]; simpl; [done |].
  rewrite IH. generalize (foldr (insert_by cmp') [] l). intros l'.
  induction l' as [| y l' IH']; simpl; [done |]. by rewrite He, IH'.
Qed.

(** X11. [getLabelsSorted] returns the labels of the state, each as often
    as it occurs there, and leaves the state's own list alone. When the
    order in force is ["date"] the list is sorted by creation time, newest
    first; every other value of the setting sorts by name with the host's
    collation. *)
Theorem getLabelsSorted_spec (localeCompare : string → string → Z) (sortMode : string)
    (st : State) :
  getLabelsSorted localeCompare sortMode st ≡ₚ labels st
  ∧ (sortMode = "date" →
     StronglySorted (λ a b, lbl_createdTs b ≤ lbl_createdTs a)
       (getLabelsSorted localeCompare sortMode st))
  ∧ (sortMode ≠ "date" →
     getLabelsSorted localeCompare sortMode st
     = sort_by (λ a b, localeCompare (lbl_name a) (lbl_name b)) (labels st)).
Proof.
  unfold getLabelsSorted.
  destruct (String.eqb_spec sortMode "date") as [-> | Hne].
  - split; [apply sort_by_perm |]. split; [| done]. intros _.
    apply sort_by_sorted.
    + intros x y. rewrite !or_else_Z_0. lia.
    + intros x y. rewrite !or_else_Z_0. lia.
    + intros x y z. lia.
  - split; [apply sort_by_perm |]. split; [done |]. intros _.
    apply sort_by_ext. intros a b.
    assert (Ho : ∀ s : string, or_else s "" = s) by (by intros []).
    by rewrite !Ho.
Qed.

(* ================================================================== *)
(** * Tasks *)

Lemma filter_length_eq {A} (P : A → Prop) `{∀ x, Decision (P x)} (l : list A) :
  length (filter P l) = length l ↔ Forall P l.
Proof.
  induction l as [| x l IH]; [by split; [constructor |] |].
  pose proof (length_filter P l) as Hle.
  destruct (decide (P x)) as [Hx | Hx].
  - rewrite filter_cons_True by done. cbn [length]. rewrite Forall_cons.
    split; [intros Hl; split; [done | apply IH; lia] | intros [_ Hl]; apply IH in Hl; lia].
  - rewrite filter_cons_False by done. cbn [length]. rewrite Forall_cons.
    split; [lia | by intros [? _]].
Qed.

Lemma filter_id {A} (P : A → Prop) `{∀ x, Decision (P x)} (l : list A) :
  Forall P l → filter P l = l.
Proof.
  induction 1 as [| x l Hx Hl IH]; [done |]. by rewrite filter_cons_True, IH.
Qed.

(** X12. [addTask] ignores a text that is empty or white space only: the
    list stays as it is and nothing is saved or drawn. Otherwise it puts one
    task in front of the list, not done, whose text is the trimmed text cut
    to 80 units and whose description is cut to 220; deleting the new
    task's identifier with [deleteTask] gives back the list when no other
    task carries that identifier. *)
Theorem addTask_spec (e : TaskEnv) (text : string) (desc labelId : option string)
    (tasks : list Task) :
  let clean := slice0 80 (trim text) in
  let r := addTask e text desc labelId tasks in
  (clean = "" → r = (tasks, []))
  ∧ (clean ≠ "" →
       ∃ t, r = (t :: tasks, [TaskSaveState; TaskRender])
            ∧ task_id t = "id_" +:+ tenv_fresh e
            ∧ task_text t = clean
            ∧ (String.length (task_text t) ≤ 80)%nat
            ∧ (String.length (task_desc t) ≤ 220)%nat
            ∧ task_labelId t = default "" labelId
            ∧ task_done t = false
            ∧ task_createdTs t = tenv_now e
            ∧ (Forall (λ x, task_id x ≠ task_id t) tasks →
               fst (deleteTask (task_id t) (fst r)) = tasks)).
Proof.
  intros clean r. subst r. unfold addTask.
  assert (Ho : ∀ s : string, or_else s "" = s) by (by intros []).
  rewrite !Ho. fold clean.
  destruct (truthy clean) eqn:Ht; cbn [negb].
  - assert (Hn : clean ≠ "") by (intros Hn; rewrite Hn in Ht; discriminate Ht).
    split; [done |]. intros _. eexists. split; [reflexivity |].
    cbn [task_id task_text task_desc task_labelId task_done task_createdTs fst].
    split; [done |]. split; [done |].
    split; [apply slice0_length |]. split; [apply slice0_length |].
    repeat split.
    intros Hfresh. unfold deleteTask. cbn [fst].
    rewrite filter_cons_False by (cbn [task_id]; intros Hne; by apply Hne).
    by apply filter_id.
  - apply truthy_string_empty in Ht. split; [done | done].
Qed.

(** X13. [clearDoneTasks] keeps exactly the tasks that are not done, in
    their order, and always redraws; it saves the state if and only if some
    task was done. Run again on its result it removes nothing and does not
    save. [clearAllTasks] on an empty list makes no call at all. *)
Theorem clearDoneTasks_spec (tasks : list Task) :
  let r := clearDoneTasks tasks in
  fst r = filter (λ t, task_done t = false) tasks
  ∧ (∀ t, t ∈ fst r ↔ t ∈ tasks ∧ task_done t = false)
  ∧ (TaskSaveState ∈ snd r ↔ ∃ t, t ∈ tasks ∧ task_done t = true)
  ∧ TaskRender ∈ snd r
  ∧ clearDoneTasks (fst r) = (fst r, [TaskRender])
  ∧ clearAllTasks [] = ([], []).
Proof.
  intros r. subst r. unfold clearDoneTasks. cbn [fst snd].
  split; [done |]. split; [intros t; rewrite list_elem_of_filter; tauto |].
  assert (Hiff : length (filter (λ t, task_done t = false) tasks) ≠ length tasks
                 ↔ ∃ t, t ∈ tasks ∧ task_done t = true).
  { split.
    - intros Hne.
      assert (Hnf : ¬ Forall (λ t, task_done t = false) tasks)
        by (intros Hall; apply Hne; by apply filter_length_eq).
      apply not_Forall_Exists in Hnf; [| intros x; apply _].
      apply Exists_exists in Hnf as (t & Hin & Ht). exists t. split; [done |].
      cbn in Ht. by destruct (task_done t).
    - intros (t & Hin & Ht) Heq. apply filter_length_eq in Heq.
      rewrite Forall_forall in Heq. specialize (Heq t Hin). congruence. }
  split; [| split; [| split; [| done]]].
  - destruct (bool_decide _) eqn:Hb.
    + apply bool_decide_eq_true_1 in Hb. split; [intros _; by apply Hiff | intros _; left].
    + apply bool_decide_eq_false_1 in Hb. split.
      * intros Hin. apply list_elem_of_singleton in Hin. discriminate Hin.
      * intros Hx. by apply Hiff in Hx.
  - apply elem_of_app. right. left.
  - rewrite bool_decide_eq_false_2.
    + f_equal. apply filter_id. apply Forall_forall. intros t Ht.
      by apply list_elem_of_filter in Ht as [? _].
    + intros Hne. apply Hne. f_equal. apply filter_id. apply Forall_forall.
      intros t Ht. by apply list_elem_of_filter in Ht as [? _].
Qed.


(* ================================================================== *)
(** * The pomodoro timer *)

Lemma Math_round_Z (z : Z) : Math_round (Q2Qc (inject_Z z)) = z.
Proof.
  unfold Math_round.
  set (x := (Q2Qc (inject_Z z) + Q2Qc (1 # 2))%Qc).
  assert (Hx : (x == inject_Z z + (1 # 2))%Q).
  { subst x. unfold Qcplus, Q2Qc. cbn [this]. rewrite !Qred_correct. reflexivity. }
  rewrite (Qfloor_comp _ _ Hx).
  pose proof (Qfloor_le (inject_Z z + (1 # 2))) as Hle.
  pose proof (Qlt_floor (inject_Z z + (1 # 2))) as Hlt.
  set (f := Qfloor (inject_Z z + (1 # 2))) in *.
  assert (f ≤ z).
  { apply Z.lt_succ_r. rewrite Zlt_Qlt. eapply Qle_lt_trans; [exact Hle |].
    unfold Z.succ. rewrite inject_Z_plus. change (inject_Z 1) with 1%Q. lra. }
  assert (z ≤ f).
  { apply Z.lt_succ_r. rewrite Zlt_Qlt. unfold Z.succ. rewrite inject_Z_plus.
    rewrite inject_Z_plus in Hlt. change (inject_Z 1) with 1%Q in *. lra. }
  lia.
Qed.

Section pomodoro_facts.
Context `{H : Blob.Host}.

Lemma toInt_zn (z fallback : Z) : toInt (Blob.zn z) fallback = Some z.
Proof. unfold toInt, Blob.zn. cbn. by rewrite Math_round_Z. Qed.

Lemma normalizePomSettings_bounds (input : Blob.value) (s : PomSettings) :
  normalizePomSettings input = Some s →
  1 ≤ focusMin s ≤ 180 ∧ 1 ≤ breakMin s ≤ 60
  ∧ 1 ≤ longBreakMin s ≤ 120 ∧ 2 ≤ longEvery s ≤ 12.
Proof.
  unfold normalizePomSettings. intros Hn.
  assert (Hb : ∀ i, (f ← toInt (Blob.get i "focusMin") 25;
                     b ← toInt (Blob.get i "breakMin") 5;
                     l ← toInt (Blob.get i "longBreakMin") 15;
                     e ← toInt (Blob.get i "longEvery") 4;
                     Some {| focusMin := clamp f 1 180; breakMin := clamp b 1 60;
                             longBreakMin := clamp l 1 120; longEvery := clamp e 2 12 |})
                    = Some s →
               1 ≤ focusMin s ≤ 180 ∧ 1 ≤ breakMin s ≤ 60
               ∧ 1 ≤ longBreakMin s ≤ 120 ∧ 2 ≤ longEvery s ≤ 12).
  { intros i Hi.
    apply bind_Some in Hi as (f & _ & Hi). apply bind_Some in Hi as (b & _ & Hi).
    apply bind_Some in Hi as (l & _ & Hi). apply bind_Some in Hi as (e & _ & Hi).
    injection Hi as <-. cbn [focusMin breakMin longBreakMin longEvery].
    repeat split; apply clamp_bounds; lia. }
  destruct input; try discriminate Hn; by eapply Hb.
Qed.

Lemma clamp_within (n a b : Z) : a ≤ n ≤ b → clamp n a b = n.
Proof. unfold clamp. lia. Qed.

Lemma normalizePomSettings_value (s : PomSettings) :
  normalizePomSettings (pomSettingsValue s)
  = Some {| focusMin := clamp (focusMin s) 1 180; breakMin := clamp (breakMin s) 1 60;
            longBreakMin := clamp (longBreakMin s) 1 120;
            longEvery := clamp (longEvery s) 2 12 |}.
Proof.
  assert (G1 : Blob.get (pomSettingsValue s) "focusMin" = Blob.zn (focusMin s))
    by reflexivity.
  assert (G2 : Blob.get (pomSettingsValue s) "breakMin" = Blob.zn (breakMin s))
    by reflexivity.
  assert (G3 : Blob.get (pomSettingsValue s) "longBreakMin" = Blob.zn (longBreakMin s))
    by reflexivity.
  assert (G4 : Blob.get (pomSettingsValue s) "longEvery" = Blob.zn (longEvery s))
    by reflexivity.
  unfold normalizePomSettings.
  change (match pomSettingsValue s with Blob.VUndef => Blob.VObj ∅ | _ => pomSettingsValue s end)
    with (pomSettingsValue s).
  change (match pomSettingsValue s with
          | Blob.VNull => None
          | _ => ?x end) with x.
  rewrite G1, G2, G3, G4, !toInt_zn. reflexivity.
Qed.

(** X14. [normalizePomSettings] never returns settings outside their
    bounds: the focus lasts 1 to 180 minutes, the break 1 to 60, the long
    break 1 to 120, and a long break comes every 2 to 12 sessions. A missing
    or empty input gives 25, 5, 15 and 4; [null] throws. The settings it
    returns, stored as the object that [savePomSettingsModal] writes,
    normalise to themselves. *)
Theorem normalizePomSettings_spec :
  (∀ input s, normalizePomSettings input = Some s →
     (1 ≤ focusMin s ≤ 180 ∧ 1 ≤ breakMin s ≤ 60
      ∧ 1 ≤ longBreakMin s ≤ 120 ∧ 2 ≤ longEvery s ≤ 12)
     ∧ normalizePomSettings (pomSettingsValue s) = Some s)
  ∧ normalizePomSettings Blob.VUndef = Some (mkPomSettings 25 5 15 4)
  ∧ normalizePomSettings (Blob.VObj ∅) = Some (mkPomSettings 25 5 15 4)
  ∧ normalizePomSettings (Blob.VObj Blob.dPomodoro) = Some (mkPomSettings 25 5 15 4)
  ∧ normalizePomSettings Blob.VNull = None.
Proof.
  split; [| repeat split; reflexivity].
  intros input s Hn. pose proof (normalizePomSettings_bounds input s Hn) as Hb.
  split; [exact Hb |].
  rewrite normalizePomSettings_value. rewrite !clamp_within by lia. by destruct s.
Qed.

Lemma saveSession_accept_record e a st :
  60 ≤ Math_round (arg_durationSec a) →
  saveSession e a st
  = (true,
     set_garden (set_growthSec (growthSec (garden st) + Math_round (arg_durationSec a))
                               (garden st))
       (set_xpSec (xpSec st + Math_round (arg_durationSec a))
          (set_sessions
             ({| ses_id := "s_" +:+ env_fresh e;
                 ses_clientId := "s_" +:+ env_fresh e;
                 ses_startTs :=
                   opt_or (arg_startedAt a)
                     (opt_or (arg_endedAt a) (env_now e)
                      - Math_round (arg_durationSec a) * 1000);
                 ses_endTs := opt_or (arg_endedAt a) (env_now e);
                 ses_durationSec := Math_round (arg_durationSec a);
                 ses_method := arg_method a;
                 ses_rewardMode :=
                   normalizeRewardMode
                     (or_else (opt_or (arg_rewardMode a) (worldView st)) "island");
                 ses_label := slice0 24 (trim (opt_or (arg_label a) "")) |}
              :: sessions st) st)),
     [SaveState; SbUpsertSoon; RenderAll; Toast "Session saved"]).
Proof.
  intros Hge. unfold saveSession.
  replace (Z.max 0 (Math_round (arg_durationSec a))) with (Math_round (arg_durationSec a))
    by lia.
  destruct (Z.ltb_spec (Math_round (arg_durationSec a)) 60); [lia | reflexivity].
Qed.

(** The session that the timer records. *)
Lemma saveSessionIn_accept e a w :
  settingsInStep w →
  60 ≤ Math_round (arg_durationSec a) →
  ∃ ses st',
    saveSessionIn e a w
    = Some (true, mkPomWorld st' (pw_pomodoro w) (pw_settings w) (pw_pom w),
            Ledger <$> [SaveState; SbUpsertSoon; RenderAll; Toast "Session saved"])
    ∧ sessions st' = ses :: sessions (pw_state w)
    ∧ xpSec st' = xpSec (pw_state w) + Math_round (arg_durationSec a)
    ∧ growthSec (garden st') = growthSec (garden (pw_state w)) + Math_round (arg_durationSec a)
    ∧ labels st' = labels (pw_state w)
    ∧ worldView st' = worldView (pw_state w)
    ∧ ses_durationSec ses = Math_round (arg_durationSec a)
    ∧ ses_method ses = arg_method a
    ∧ ses_label ses = slice0 24 (trim (opt_or (arg_label a) "")).
Proof.
  intros Hs Hge. unfold saveSessionIn.
  rewrite (saveSession_accept_record e a (pw_state w) Hge).
  unfold settingsInStep in Hs. rewrite Hs. cbn [mbind option_bind].
  eexists _, _. split; [reflexivity |].
  cbn [sessions set_garden set_xpSec set_sessions xpSec garden growthSec set_growthSec
         labels worldView ses_durationSec ses_method ses_label].
  repeat split.
Qed.

Lemma isLong_rem (session every : Z) :
  2 ≤ every → isLong session every = (Z.rem session every =? 0).
Proof. intros He. unfold isLong. destruct (Z.eqb_spec every 0); [lia | done]. Qed.

Lemma pomCompletePhase_cases (e : SaveEnv) (labelSel : string) (w : PomWorld) :
  settingsInStep w →
  ∃ w' calls,
    pomCompletePhase e labelSel w = Some (w', calls)
    ∧ settingsInStep w'
    ∧ pw_settings w' = pw_settings w
    ∧ pom_running (pw_pom w') = pom_running (pw_pom w)
    ∧ match pom_phase (pw_pom w) with
      | Focus =>
          (∃ ses,
             sessions (pw_state w') = ses :: sessions (pw_state w)
             ∧ ses_durationSec ses = focusMin (pw_settings w) * 60
             ∧ ses_method ses = "pomodoro"
             ∧ ses_label ses
               = slice0 24 (trim (if truthy labelSel
                                  then labelNameFromId labelSel (pw_state w) else "")))
          ∧ xpSec (pw_state w') = xpSec (pw_state w) + focusMin (pw_settings w) * 60
          ∧ pom_phase (pw_pom w') = Break
          ∧ pom_session (pw_pom w') = pom_session (pw_pom w)
          ∧ pom_remainingSec (pw_pom w')
            = (if Z.rem (pom_session (pw_pom w)) (longEvery (pw_settings w)) =? 0
               then longBreakMin (pw_settings w) else breakMin (pw_settings w)) * 60
      | Break =>
          pw_state w' = pw_state w
          ∧ (∀ x, Ledger x ∉ calls)
          ∧ pom_phase (pw_pom w') = Focus
          ∧ pom_session (pw_pom w') = pom_session (pw_pom w) + 1
          ∧ pom_remainingSec (pw_pom w') = focusMin (pw_settings w) * 60
      end.
Proof.
  intros Hs. pose proof (normalizePomSettings_bounds _ _ Hs) as (Hf & _ & _ & He).
  unfold pomCompletePhase.
  destruct (pom_phase (pw_pom w)) eqn:Hph.
  - set (a := {| arg_durationSec := Q2Qc (inject_Z (focusMin (pw_settings w) * 60)) |}).
    assert (Hr : Math_round (arg_durationSec a) = focusMin (pw_settings w) * 60)
      by apply Math_round_Z.
    destruct (saveSessionIn_accept e a w Hs ltac:(lia))
      as (ses & st' & -> & Hses & Hxp & _ & _ & _ & Hd & Hm & Hl).
    cbn [mbind option_bind]. unfold pomSetPhase, set_remainingSec, set_pom.
    cbn [pw_pom pw_state pw_settings pw_pomodoro pom_phase pom_session pom_running
           pom_remainingSec pom_interval].
    eexists _, _. split; [reflexivity |].
    cbn [pw_pom pw_state pw_settings pw_pomodoro pom_phase pom_session pom_running
           pom_remainingSec pom_interval].
    split; [exact Hs |]. split; [done |]. split; [done |].
    split; [| split; [lia | split; [done | split; [done |]]]].
    + exists ses. rewrite Hd, Hm, Hl, Hr. subst a. cbn [arg_method arg_label].
      assert (Ho : ∀ x : string, or_else x "" = x) by (by intros []).
      assert (Hoo : ∀ x : string, opt_or (Some x) "" = x) by (by intros []).
      rewrite Hoo, Ho. done.
    + by rewrite isLong_rem by lia.
  - unfold pomSetPhase, set_remainingSec, set_session, set_pom.
    cbn [pw_pom pw_state pw_settings pw_pomodoro pom_phase pom_session pom_running
           pom_remainingSec pom_interval].
    eexists _, _. split; [reflexivity |].
    cbn [pw_pom pw_state pw_settings pw_pomodoro pom_phase pom_session pom_running
           pom_remainingSec pom_interval].
    split; [exact Hs |]. repeat split; try done.
    intros x Hx. cbn in Hx.
    repeat (apply elem_of_cons in Hx as [Hx | Hx]; [discriminate Hx |]).
    by apply elem_of_nil in Hx.
Qed.

Lemma set_remainingSec_twice (a b : Z) (w : PomWorld) :
  set_remainingSec a (set_remainingSec b w) = set_remainingSec a w.
Proof. reflexivity. Qed.

Lemma pomTick_before (e : SaveEnv) (labelSel : string) (w : PomWorld) :
  1 < pom_remainingSec (pw_pom w) →
  pomTick e labelSel w = Some (set_remainingSec (pom_remainingSec (pw_pom w) - 1) w, [PomRender]).
Proof.
  intros Hr. unfold pomTick.
  cbn [set_remainingSec set_pom pw_pom pom_remainingSec].
  destruct (Z.leb_spec (pom_remainingSec (pw_pom w) - 1) 0); [lia | reflexivity].
Qed.

Lemma pomTicks_before (labelSel : string) (n : nat) :
  ∀ (envs : nat → SaveEnv) (w : PomWorld),
    Z.of_nat n < pom_remainingSec (pw_pom w) →
    pomTicks envs labelSel n w
    = Some (set_remainingSec (pom_remainingSec (pw_pom w) - Z.of_nat n) w).
Proof.
  induction n as [| n IH]; intros envs w Hn.
  - cbn [pomTicks]. f_equal. rewrite Z.sub_0_r.
    by destruct w as [st pd ps [ph se ru re it]].
  - cbn [pomTicks]. rewrite pomTick_before by lia. cbn [mbind option_bind fst].
    rewrite IH by (cbn; lia). f_equal.
    rewrite set_remainingSec_twice. f_equal. cbn. lia.
Qed.

Lemma pomTicks_last (labelSel : string) (n : nat) :
  ∀ (envs : nat → SaveEnv) (w : PomWorld),
    pom_remainingSec (pw_pom w) = Z.of_nat (S n) →
    pomTicks envs labelSel (S n) w
    = fst <$> (r ← pomCompletePhase (envs n) labelSel (set_remainingSec 0 w);
               Some (fst r, [PomRender] ++ snd r)).
Proof.
  induction n as [| n IH]; intros envs w Hn.
  - cbn [pomTicks]. unfold pomTick. rewrite set_remainingSec_twice.
    cbn [set_remainingSec set_pom pw_pom pom_remainingSec]. rewrite Hn.
    change (Z.of_nat 1 - 1 <=? 0) with true. cbv iota.
    destruct (pomCompletePhase _ _ _) as [[w' c] |]; reflexivity.
  - change (pomTicks envs labelSel (S (S n)) w)
      with (r ← pomTick (envs O) labelSel w; pomTicks (λ i, envs (S i)) labelSel (S n) (fst r)).
    rewrite pomTick_before by lia. cbn [mbind option_bind fst].
    rewrite IH by (cbn; lia). by rewrite set_remainingSec_twice.
Qed.

(** X15. A focus phase run to its end, with [pomSettings] in step with
    [state.pomodoro]: while seconds remain each round of the timer only
    counts one second down and leaves the state alone; the round that
    reaches zero records exactly one session, of the full focus duration,
    and starts the break. *)
Theorem pomodoro_focus_run (envs : nat → SaveEnv) (labelSel : string) (w : PomWorld) :
  settingsInStep w →
  pom_phase (pw_pom w) = Focus →
  0 < pom_remainingSec (pw_pom w) →
  (∀ n, Z.of_nat n < pom_remainingSec (pw_pom w) →
     pomTicks envs labelSel n w
     = Some (set_remainingSec (pom_remainingSec (pw_pom w) - Z.of_nat n) w))
  ∧ ∃ w' ses,
      pomTicks envs labelSel (Z.to_nat (pom_remainingSec (pw_pom w))) w = Some w'
      ∧ sessions (pw_state w') = ses :: sessions (pw_state w)
      ∧ ses_durationSec ses = focusMin (pw_settings w) * 60
      ∧ ses_method ses = "pomodoro"
      ∧ xpSec (pw_state w') = xpSec (pw_state w) + focusMin (pw_settings w) * 60
      ∧ pom_phase (pw_pom w') = Break
      ∧ pom_session (pw_pom w') = pom_session (pw_pom w)
      ∧ pom_remainingSec (pw_pom w')
        = (if Z.rem (pom_session (pw_pom w)) (longEvery (pw_settings w)) =? 0
           then longBreakMin (pw_settings w) else breakMin (pw_settings w)) * 60.
Proof.
  intros Hs Hph Hr. split; [intros n Hn; by apply pomTicks_before |].
  destruct (Z.to_nat (pom_remainingSec (pw_pom w))) as [| n] eqn:Hn; [lia |].
  rewrite pomTicks_last by lia.
  destruct (pomCompletePhase_cases (envs n) labelSel (set_remainingSec 0 w) Hs)
    as (w' & calls & -> & _ & _ & _ & Hc).
  cbn [set_remainingSec set_pom pw_pom pw_state pw_settings pom_phase pom_session] in Hc.
  rewrite Hph in Hc. destruct Hc as ((ses & H1 & H2 & H3 & _) & H4 & H5 & H6 & H7).
  exists w', ses. cbn [mbind option_bind fmap option_fmap option_map fst].
  repeat split; assumption.
Qed.

(** X16. [pomCompletePhase], with [pomSettings] in step with
    [state.pomodoro]. At the end of a focus phase it always records one
    session, of the full focus duration and of method ["pomodoro"], labelled
    with the name of the selected label; the break that follows is the long
    one exactly when the session number is a multiple of [longEvery]; the
    session number stays. At the end of a break it records nothing, moves to
    the next session number and sets the full focus duration. The timer
    keeps running in both cases. *)
Theorem pomCompletePhase_spec (e : SaveEnv) (labelSel : string) (w : PomWorld) :
  settingsInStep w →
  ∃ w' calls,
    pomCompletePhase e labelSel w = Some (w', calls)
    ∧ settingsInStep w'
    ∧ pw_settings w' = pw_settings w
    ∧ pom_running (pw_pom w') = pom_running (pw_pom w)
    ∧ match pom_phase (pw_pom w) with
      | Focus =>
          (∃ ses,
             sessions (pw_state w') = ses :: sessions (pw_state w)
             ∧ ses_durationSec ses = focusMin (pw_settings w) * 60
             ∧ ses_method ses = "pomodoro"
             ∧ ses_label ses
               = slice0 24 (trim (if truthy labelSel
                                  then labelNameFromId labelSel (pw_state w) else "")))
          ∧ xpSec (pw_state w') = xpSec (pw_state w) + focusMin (pw_settings w) * 60
          ∧ pom_phase (pw_pom w') = Break
          ∧ pom_session (pw_pom w') = pom_session (pw_pom w)
          ∧ pom_remainingSec (pw_pom w')
            = (if Z.rem (pom_session (pw_pom w)) (longEvery (pw_settings w)) =? 0
               then longBreakMin (pw_settings w) else breakMin (pw_settings w)) * 60
      | Break =>
          pw_state w' = pw_state w
          ∧ (∀ x, Ledger x ∉ calls)
          ∧ pom_phase (pw_pom w') = Focus
          ∧ pom_session (pw_pom w') = pom_session (pw_pom w) + 1
          ∧ pom_remainingSec (pw_pom w') = focusMin (pw_settings w) * 60
      end.
Proof. apply pomCompletePhase_cases. Qed.


(** X17. [pomSaveFocusElapsed], with [pomSettings] in step with
    [state.pomodoro]. In a break, or before 60 seconds of the focus phase
    have elapsed, it does nothing. Otherwise it records one session of the
    elapsed seconds, stops the timer and sets the full focus duration again,
    keeping the session number. The session is labelled with the value of
    the label select as it is (the identifier of the label), cut to 24
    units, not with the name of the label. *)
Theorem pomSaveFocusElapsed_spec (e : SaveEnv) (labelSel : string) (w : PomWorld) :
  settingsInStep w →
  let elapsed := focusMin (pw_settings w) * 60 - pom_remainingSec (pw_pom w) in
  (pom_phase (pw_pom w) = Break ∨ elapsed < 60 →
     pomSaveFocusElapsed e labelSel w = Some (w, []))
  ∧ (pom_phase (pw_pom w) = Focus → 60 ≤ elapsed →
       ∃ w' calls ses,
         pomSaveFocusElapsed e labelSel w = Some (w', calls)
         ∧ sessions (pw_state w') = ses :: sessions (pw_state w)
         ∧ ses_durationSec ses = elapsed
         ∧ ses_method ses = "pomodoro"
         ∧ ses_label ses = slice0 24 (trim labelSel)
         ∧ xpSec (pw_state w') = xpSec (pw_state w) + elapsed
         ∧ pom_running (pw_pom w') = false
         ∧ pom_phase (pw_pom w') = Focus
         ∧ pom_session (pw_pom w') = pom_session (pw_pom w)
         ∧ pom_remainingSec (pw_pom w') = focusMin (pw_settings w) * 60
         ∧ PomLabelClear ∈ calls).
Proof.
  intros Hs elapsed. unfold pomSaveFocusElapsed. fold elapsed.
  split.
  - intros [-> | Hlt]; [reflexivity |].
    destruct (pom_phase (pw_pom w)); [| reflexivity].
    destruct (Z.ltb_spec elapsed 60); [reflexivity | lia].
  - intros -> Hge. destruct (Z.ltb_spec elapsed 60); [lia |].
    set (a := {| arg_durationSec := Q2Qc (inject_Z elapsed) |}).
    assert (Hr : Math_round (arg_durationSec a) = elapsed) by apply Math_round_Z.
    destruct (saveSessionIn_accept e a w Hs ltac:(lia))
      as (ses & st' & -> & Hses & Hxp & _ & _ & _ & Hd & Hm & Hl).
    cbn [mbind option_bind]. unfold pomPause, pomSetPhase, set_remainingSec, set_pom.
    cbn [pw_pom pw_state pw_settings pw_pomodoro].
    assert (Hoo : ∀ x : string, opt_or (Some x) "" = x) by (by intros []).
    rewrite Hr in *. subst a. cbn [arg_method arg_label] in *. rewrite Hoo in Hl.
    destruct (pom_running (pw_pom w)) eqn:Hrun; cbn [negb];
      cbn [pw_pom pw_state pw_settings pw_pomodoro pom_phase pom_session pom_running
             pom_remainingSec pom_interval];
      eexists _, _, ses; (split; [reflexivity |]);
      cbn [pw_pom pw_state pw_settings pw_pomodoro pom_phase pom_session pom_running
             pom_remainingSec pom_interval];
      repeat split; try assumption; try reflexivity.
    + rewrite !elem_of_app. right. right. right. right. left.
    + rewrite !elem_of_app. right. right. right. right. left.
Qed.

End pomodoro_facts.

Lemma pomSaveFocusElapsed_spec_witness :
  ∃ w' calls ses,
    pomSaveFocusElapsed (H := Blob.exampleHost) exampleEnv "lbl_1" (examplePomWorld 600)
    = Some (w', calls)
    ∧ sessions (pw_state w') = ses :: sessions exampleState
    ∧ ses_durationSec ses = 25 * 60 - 600
    ∧ ses_label ses = "lbl_1".
Proof.
  destruct (proj2 (pomSaveFocusElapsed_spec (H := Blob.exampleHost) exampleEnv "lbl_1"
                     (examplePomWorld 600) eq_refl) eq_refl ltac:(vm_compute; discriminate))
    as (w' & calls & ses & Heq & Hs & Hd & _ & Hl & _).
  exists w', calls, ses. repeat split; assumption.
Defined.

Lemma pomCompletePhase_spec_witness :
  ∃ w' calls,
    pomCompletePhase (H := Blob.exampleHost) exampleEnv "lbl_1" (examplePomWorld 0)
    = Some (w', calls)
    ∧ sessions (pw_state w')
      = mkSession "s_a1b2_18c" "s_a1b2_18c" 1699998500000 1700000000000 1500
          "pomodoro" "island" "Maths" :: sessions exampleState
    ∧ pom_remainingSec (pw_pom w') = 900.
Proof.
  destruct (pomCompletePhase_spec (H := Blob.exampleHost) exampleEnv "lbl_1"
              (examplePomWorld 0) eq_refl) as (w' & calls & Heq & _).
  exists w', calls. split; [exact Heq |].
  vm_compute in Heq. injection Heq as <- _. split; reflexivity.
Defined.

Lemma pomodoro_focus_run_witness :
  ∃ w' ses,
    pomTicks (H := Blob.exampleHost) (λ _, exampleEnv) "lbl_1" 3 (examplePomWorld 3) = Some w'
    ∧ sessions (pw_state w') = ses :: sessions exampleState
    ∧ ses_durationSec ses = 25 * 60
    ∧ ses_method ses = "pomodoro"
    ∧ xpSec (pw_state w') = xpSec exampleState + 25 * 60
    ∧ pom_phase (pw_pom w') = Break
    ∧ pom_session (pw_pom w') = 4
    ∧ pom_remainingSec (pw_pom w') = 15 * 60.
Proof.
  apply (proj2 (pomodoro_focus_run (H := Blob.exampleHost) (λ _, exampleEnv) "lbl_1"
                  (examplePomWorld 3) eq_refl eq_refl eq_refl)).
Defined.

(* ================================================================== *)
(** * Local records as remote rows, and back *)

Lemma or_else_string_id (s d : string) : s ≠ "" → or_else s d = s.
Proof. by destruct s. Qed.

Lemma or_else_string_empty (s : string) : or_else s "" = s.
Proof. by destruct s. Qed.

Lemma opt_or_Some_string (s d : string) : s ≠ "" → opt_or (Some s) d = s.
Proof. by destruct s. Qed.

Lemma opt_or_Some_Z (z d : Z) : z ≠ 0 → opt_or (Some z) d = z.
Proof.
  intros Hz. unfold opt_or, opt_case, truthy, truthy_option, truthy, truthy_Z.
  destruct (Z.eqb_spec z 0); [done | reflexivity].
Qed.

Lemma sessionKey_twice (s : Session) : or_else (sessionKey s) (sessionKey s) = sessionKey s.
Proof. by destruct (sessionKey s). Qed.

(** X18. A session sent to the remote store and read back: whenever
    [localSessionToRow] returns a row, [rowToLocalSession] of that row has
    the key of the session ([clientId], else [id]) as its [id] and its
    [clientId], and the same duration and label; a start or an end that is
    not zero comes back as it was. The session comes back unchanged when
    its [clientId] is its [id], its start and end are not zero and its
    method and reward mode are not empty. *)
Theorem session_row_round_trip (now1 now2 : Z) (wv : string) (s : Session) (r : SessionRow) :
  localSessionToRow s = Some r →
  let s' := rowToLocalSession now1 now2 wv r in
  ses_id s' = sessionKey s
  ∧ ses_clientId s' = sessionKey s
  ∧ sessionKey s' = sessionKey s
  ∧ ses_durationSec s' = ses_durationSec s
  ∧ ses_label s' = ses_label s
  ∧ (ses_startTs s ≠ 0 → ses_startTs s' = ses_startTs s)
  ∧ (ses_endTs s ≠ 0 → ses_endTs s' = ses_endTs s)
  ∧ (ses_clientId s = ses_id s → ses_startTs s ≠ 0 → ses_endTs s ≠ 0 →
     ses_method s ≠ "" → ses_rewardMode s ≠ "" → s' = s).
Proof.
  unfold localSessionToRow. intros Hr.
  destruct (validTime (ses_startTs s) && validTime (ses_endTs s)); [| discriminate Hr].
  injection Hr as <-. cbv zeta. unfold rowToLocalSession.
  cbn [client_id started_at ended_at duration_sec label_name source reward_mode
         ses_id ses_clientId ses_startTs ses_endTs ses_durationSec ses_label].
  rewrite !or_else_Z_0, !or_else_string_empty.
  fold (sessionKey s).
  assert (Hl : opt_or (Some (ses_label s)) "" = ses_label s) by (by destruct (ses_label s)).
  split; [done |]. split; [done |].
  split; [unfold sessionKey at 1; cbn [ses_clientId ses_id]; apply sessionKey_twice |].
  split; [done |]. split; [exact Hl |].
  split; [intros H0; by apply opt_or_Some_Z |].
  split; [intros H0; by apply opt_or_Some_Z |].
  intros Hid Hst Hen Hm Hrw.
  rewrite !opt_or_Some_Z, Hl by done.
  rewrite (opt_or_Some_string (ses_method s)) by done.
  rewrite (opt_or_Some_string (ses_rewardMode s)) by done.
  rewrite (or_else_string_id (ses_rewardMode s)) by done.
  assert (Hk : sessionKey s = ses_id s).
  { unfold sessionKey. rewrite Hid. by destruct (ses_id s). }
  rewrite Hk. destruct s; cbn in *. by subst.
Qed.

Lemma session_row_round_trip_witness :
  let s := exampleSession "s_X" 1700000000000 1500 in
  ∃ r, localSessionToRow s = Some r ∧ rowToLocalSession 5 7 "garden" r = s.
Proof.
  intros s. eexists. split; [reflexivity |].
  apply (session_row_round_trip 5 7 "garden" s _ eq_refl); vm_compute; congruence.
Defined.

(** X19. A label sent to the remote store and read back: the row that the
    table holds for the object [localLabelToRow] builds gives back, through
    [rowToLocalLabel], the name and the favorite flag of the label in every
    case, and the label itself when its identifier and its colour are not
    empty and its creation time is not zero. A label without identifier
    comes back under the identifier that the table gave to the row. *)
Theorem label_row_round_trip (now now' : Z) (uuid : string) (l : Label) (p : LabelPayload) :
  localLabelToRow now l = Some p →
  let l' := rowToLocalLabel now' (labelRowOf uuid p) in
  lbl_name l' = lbl_name l
  ∧ lbl_favorite l' = lbl_favorite l
  ∧ lbl_id l' = (if truthy (lbl_id l) then lbl_id l else uuid)
  ∧ (lbl_id l ≠ "" → lbl_color l ≠ "" → lbl_createdTs l ≠ 0 → l' = l).
Proof.
  unfold localLabelToRow. intros Hp.
  assert (Hp' : p = {| up_local_id := lbl_id l;
                       up_name := or_else (lbl_name l) "";
                       up_color := or_else (lbl_color l) "#a855f7";
                       up_favorite := lbl_favorite l;
                       up_created_ts := if truthy (lbl_createdTs l) then lbl_createdTs l
                                        else now |}).
  { destruct (truthy (lbl_createdTs l)); [destruct (validTime _); [| discriminate Hp] |];
      by injection Hp as <-. }
  clear Hp. subst p.
  cbv zeta. unfold rowToLocalLabel, labelRowOf.
  cbn [row_id local_id row_name row_color favorite created_ts up_local_id up_name up_color
         up_favorite up_created_ts lbl_id lbl_name lbl_color lbl_favorite lbl_createdTs].
  rewrite !or_else_string_empty.
  split; [done |]. split; [by destruct (lbl_favorite l) |].
  split; [by destruct (lbl_id l) |].
  intros Hid Hc Ht.
  rewrite (opt_or_Some_string (lbl_id l)) by done.
  rewrite (or_else_string_id (lbl_color l)) by done.
  rewrite (or_else_string_id (lbl_color l)) by done.
  assert (Htt : truthy (lbl_createdTs l) = true).
  { unfold truthy, truthy_Z. destruct (Z.eqb_spec (lbl_createdTs l) 0); [done | reflexivity]. }
  rewrite Htt. destruct l as [i n c [] t]; reflexivity.
Qed.

Lemma label_row_round_trip_witness :
  let l := mkLabel "lbl_1" "Maths" "#22c55e" true 1650000000000 in
  ∃ p, localLabelToRow 1700000000000 l = Some p
       ∧ rowToLocalLabel 1700000900000 (labelRowOf "6f1c-22" p) = l.
Proof.
  intros l. eexists. split; [reflexivity |].
  apply (label_row_round_trip 1700000000000 1700000900000 "6f1c-22" l _ eq_refl);
    vm_compute; congruence.
Defined.

Lemma Qc_clamp01_within (q : Qc) : (0 <= q)%Qc → (q <= 1)%Qc → clamp01 q = q.
Proof.
  intros H0 H1. unfold clamp01, Qc_max, Qc_min.
  destruct (Qclt_le_dec q 1) as [Hlt | Hge].
  - destruct (Qclt_le_dec 0 q) as [Hp | Hn]; [done |].
    apply Qcle_antisym; assumption.
  - assert (q = 1%Qc) as -> by (apply Qcle_antisym; assumption).
    by destruct (Qclt_le_dec 0 1).
Qed.

(** X20. The profile sent to the remote store and applied again: applying
    the row that [localProfileToRow] builds from a state to that state keeps
    the island's [xpSec], the garden's counters, the weekly goal, the cap
    switch, the fruit collection, the sessions and the labels in every
    case, and gives back the state itself when its names (profile name,
    theme, ambient sound, tree type) are not empty, the stopwatch cap is
    within 1..24 hours and the ambient volume within 0..1. *)
Theorem profile_row_round_trip (st : State) :
  let st' := applyProfileRow (localProfileToRow st) st in
  xpSec st' = xpSec st
  ∧ growthSec (garden st') = growthSec (garden st)
  ∧ harvestedOnThisTree (garden st') = harvestedOnThisTree (garden st)
  ∧ weeklyGoalHours (profile st') = weeklyGoalHours (profile st)
  ∧ stopwatchCapOn (profile st') = stopwatchCapOn (profile st)
  ∧ fruitCollection st' = fruitCollection st
  ∧ sessions st' = sessions st
  ∧ labels st' = labels st
  ∧ (profileSettled st → st' = st).
Proof.
  intros st'. subst st'. unfold applyProfileRow, localProfileToRow.
  cbn [display_name weekly_goal_hours row_theme stopwatch_cap_on stopwatch_cap_hours
         session_ambient_type session_ambient_volume island_xp_sec garden_growth_sec
         garden_tree_type garden_harvested_on_tree fruit_collection
         profile worldView sessions xpSec garden fruitCollection labels
         name weeklyGoalHours theme stopwatchCapOn stopwatchCapHours ambientType ambientVolume
         treeType growthSec harvestedOnThisTree nullish default].
  rewrite !or_else_Z_0.
  assert (Hu : fruitCollection st ∪ fruitCollection st = fruitCollection st)
    by apply (idemp (∪)).
  split; [done |]. split; [done |]. split; [done |]. split; [done |].
  split; [by destruct (stopwatchCapOn (profile st)) |].
  split; [done |]. split; [done |]. split; [done |].
  intros (Hn & Ht & Ha & Htt & Hcap & Hv0 & Hv1).
  rewrite Hu.
  destruct st as [[n w t c h a v] wv ss xp [tt gs hv] fc ls].
  cbn [profile garden name theme ambientType treeType stopwatchCapHours ambientVolume
         stopwatchCapOn weeklyGoalHours growthSec harvestedOnThisTree] in *.
  rewrite (or_else_string_id n) by done. rewrite (opt_or_Some_string n) by done.
  rewrite (or_else_string_id n) by done.
  rewrite (or_else_string_id t) by done. rewrite (opt_or_Some_string t) by done.
  rewrite (or_else_string_id t) by done.
  rewrite (or_else_string_id a) by done. rewrite (opt_or_Some_string a) by done.
  rewrite (or_else_string_id a) by done.
  rewrite (or_else_string_id tt) by done. rewrite (opt_or_Some_string tt) by done.
  rewrite (or_else_string_id tt) by done.
  unfold id.
  assert (Hh : or_else h 6 = h).
  { unfold or_else, truthy, truthy_Z. destruct (Z.eqb_spec h 0); [lia | done]. }
  rewrite Hh, Qc_clamp01_within by done.
  replace (clamp h 1 24) with h by (unfold clamp; lia).
  by destruct c.
Qed.

(* ================================================================== *)
(** * Repeating a pull *)

Section JsMap_more.
Context {V : Type} (key : V → string).

Lemma set_absent k (v : V) m : k ∉ JsMap.keys m → JsMap.set k v m = m ++ [(k, v)].
Proof.
  induction m as [| [k' v'] m IH]; simpl; [done |].
  rewrite not_elem_of_cons. intros [Hne Hnin].
  rewrite bool_decide_eq_false_2 by done. by rewrite IH.
Qed.

Lemma setAll_fresh l : ∀ m,
  NoDup (key <$> l) → (∀ x, x ∈ l → key x ∉ JsMap.keys m) →
  setAll key l m = m ++ ((λ x, (key x, x)) <$> l).
Proof.
  unfold setAll. induction l as [| x l IH]; intros m Hnd Hfr; simpl.
  - by rewrite app_nil_r.
  - rewrite fmap_cons in Hnd. apply NoDup_cons in Hnd as [Hx Hnd].
    rewrite set_absent by (apply Hfr; left).
    rewrite IH; [by rewrite <- app_assoc | done |].
    intros y Hy. unfold JsMap.keys. rewrite map_app. simpl.
    rewrite elem_of_app, list_elem_of_singleton. intros [Hin | Heq].
    + by apply (Hfr y); [right |].
    + apply Hx. rewrite <- Heq. by apply list_elem_of_fmap_2.
Qed.

Lemma addAbsent_present l : ∀ m,
  (∀ x, x ∈ l → key x ∈ JsMap.keys m) → addAbsent key l m = m.
Proof.
  unfold addAbsent. induction l as [| x l IH]; intros m Hin; simpl; [done |].
  assert (Hh : JsMap.has (key x) m = true) by (apply has_spec, Hin; left).
  rewrite Hh. apply IH. intros y Hy. apply Hin. by right.
Qed.

Lemma values_fmap (l : list V) : JsMap.values ((λ x, (key x, x)) <$> l) = l.
Proof. unfold JsMap.values. induction l as [| x l IH]; simpl; [done | by f_equal]. Qed.

Lemma keys_fmap (l : list V) : JsMap.keys ((λ x, (key x, x)) <$> l) = key <$> l.
Proof. unfold JsMap.keys. induction l as [| x l IH]; simpl; [done | by f_equal]. Qed.

End JsMap_more.

Lemma StronglySorted_weaken {A} (R S : A → A → Prop) (l : list A) :
  (∀ a b, R a b → S a b) → StronglySorted R l → StronglySorted S l.
Proof.
  intros HRS. induction 1 as [| x l Hl IH Hx]; constructor; [done |].
  eapply Forall_impl; [exact Hx | intros y; apply HRS].
Qed.

Lemma sort_by_sorted_id {A} (cmp : A → A → Z) (l : list A) :
  StronglySorted (λ a b, cmp a b ≤ 0) l → sort_by cmp l = l.
Proof.
  unfold sort_by. induction 1 as [| x l Hl IH Hx]; simpl; [done |].
  rewrite IH. destruct l as [| y l']; simpl; [done |].
  apply Forall_cons in Hx as [Hxy _].
  destruct (Z.leb_spec (cmp x y) 0); [done | lia].
Qed.

Lemma mergeSessions_keeps_keys (local remote : list Session) (r : Session) :
  r ∈ remote → sessionKey r ∈ sessionKey <$> mergeSessions local remote.
Proof.
  intros Hr.
  destruct (byKey sessionKey (sessionKey r) local) as [s |] eqn:Hb.
  - assert (Hs : s ∈ mergeSessions local remote).
    { apply mergeSessions_elem.
      pose proof (byKey_Some sessionKey _ _ _ Hb) as [_ Hk]. by rewrite Hk, Hb. }
    pose proof (byKey_Some sessionKey _ _ _ Hb) as [_ Hk]. rewrite <- Hk.
    by apply list_elem_of_fmap_2.
  - destruct (filter (λ x, sessionKey x = sessionKey r) remote) as [| r' rest] eqn:Hf.
    + exfalso. eapply (filter_nil_not_elem_of _ _ r); [exact Hf | | exact Hr]. done.
    + assert (Hr' : r' ∈ filter (λ x, sessionKey x = sessionKey r) remote)
        by (rewrite Hf; left).
      apply list_elem_of_filter in Hr' as [Hk _].
      assert (Hs : r' ∈ mergeSessions local remote).
      { apply mergeSessions_elem. rewrite Hk, Hb, Hf. done. }
      rewrite <- Hk. by apply list_elem_of_fmap_2.
Qed.

Lemma mergeSessions_again (local remote remote' : list Session) :
  sessionKey <$> remote' = sessionKey <$> remote →
  mergeSessions (mergeSessions local remote) remote' = mergeSessions local remote.
Proof.
  intros Hk. set (L := mergeSessions local remote).
  rewrite (mergeSessions_map L remote').
  rewrite (setAll_fresh sessionKey L []);
    [| apply mergeSessions_NoDup | intros x _; apply not_elem_of_nil].
  rewrite app_nil_l.
  rewrite addAbsent_present.
  - rewrite values_fmap. apply sort_by_sorted_id.
    eapply StronglySorted_weaken; [| apply (mergeSessions_sorted local remote)].
    intros a b. unfold endTsDesc, byEndTsDesc. rewrite !or_else_Z_0. lia.
  - intros x Hx. rewrite keys_fmap.
    assert (Hin : sessionKey x ∈ sessionKey <$> remote)
      by (rewrite <- Hk; by apply list_elem_of_fmap_2).
    apply list_elem_of_fmap in Hin as (r & Hkr & Hr). rewrite Hkr.
    by apply mergeSessions_keeps_keys.
Qed.

Lemma remoteSessions_keys e wv rows :
  sessionKey <$> remoteSessions e wv rows = client_id <$> rows.
Proof.
  unfold remoteSessions. apply list_eq. intros i.
  rewrite !list_lookup_fmap, list_lookup_imap.
  destruct (rows !! i) as [r |]; [| done]. cbn.
  f_equal. unfold sessionKey, rowToLocalSession. cbn [ses_clientId ses_id].
  by destruct (client_id r).
Qed.

(** X21. Pulling the same remote sessions a second time changes nothing:
    after one merge of the rows into the local list, a second merge of the
    same rows (whatever the clock reads then) leaves the session list as the
    first merge left it. *)
Theorem pullSessions_again (e1 e2 : SyncEnv) (rows : list SessionRow) (st : State) :
  pullSessions e2 rows (pullSessions e1 rows st) = pullSessions e1 rows st.
Proof.
  unfold pullSessions. cbn [sessions set_sessions worldView].
  rewrite mergeSessions_again; [by destruct st |].
  by rewrite !remoteSessions_keys.
Qed.

(* ================================================================== *)
(** * Identifiers, the queue of deletions and a whole pass *)

Lemma ensureClientIds_is_identified e st : identified (ensureClientIds e st).
Proof.
  unfold identified, ensureClientIds. destruct st as [p wv ss xp g fc ls].
  cbn [sessions labels set_labels set_sessions]. split.
  - apply Forall_forall. intros s Hs.
    apply list_elem_of_lookup in Hs as [i Hi]. rewrite list_lookup_imap in Hi.
    destruct (ss !! i) as [s0 |]; [| discriminate Hi]. injection Hi as <-.
    cbn [ses_clientId]. unfold or_else.
    destruct (truthy (if truthy (ses_clientId s0) then ses_clientId s0
                      else if truthy (ses_id s0) then ses_id s0 else "")) eqn:E; done.
  - apply Forall_forall. intros l Hl.
    apply list_elem_of_lookup in Hl as [i Hi]. rewrite list_lookup_imap in Hi.
    destruct (ls !! i) as [l0 |]; [| discriminate Hi]. injection Hi as <-.
    cbn [lbl_id]. unfold or_else. destruct (truthy (lbl_id l0)) eqn:E; done.
Qed.

(** X22. [ensureClientIds] leaves every session with a [clientId] and every
    label with an identifier, and run again (whatever is generated then) it
    changes nothing. It never changes the [id] of a session; a session that
    has a [clientId] and a label that has an identifier are left as they
    are, and a session without [clientId] takes its [id] when it has one. *)
Theorem ensureClientIds_idempotent (e e2 : SyncEnv) (st : State) :
  let st' := ensureClientIds e st in
  identified st'
  ∧ ensureClientIds e2 st' = st'
  ∧ ses_id <$> sessions st' = ses_id <$> sessions st
  ∧ (∀ i s, sessions st !! i = Some s → ses_clientId s ≠ "" → sessions st' !! i = Some s)
  ∧ (∀ i s, sessions st !! i = Some s → ses_clientId s = "" → ses_id s ≠ "" →
       ses_clientId <$> sessions st' !! i = Some (ses_id s))
  ∧ (∀ i l, labels st !! i = Some l → lbl_id l ≠ "" → labels st' !! i = Some l).
Proof.
  intros st'. subst st'.
  split; [apply ensureClientIds_is_identified |].
  split; [apply ensureClientIds_identified, ensureClientIds_is_identified |].
  unfold ensureClientIds. destruct st as [p wv ss xp g fc ls].
  cbn [sessions labels set_labels set_sessions].
  split; [| split; [| split]].
  - apply list_eq. intros i. rewrite !list_lookup_fmap, list_lookup_imap.
    by destruct (ss !! i).
  - intros i s Hi Hc. rewrite list_lookup_imap, Hi. cbn. f_equal.
    rewrite !(or_else_string_id (ses_clientId s)) by done. by destruct s.
  - intros i s Hi Hc Hid. rewrite list_lookup_imap, Hi. cbn. f_equal.
    rewrite Hc. by destruct (ses_id s).
  - intros i l Hi Hid. rewrite list_lookup_imap, Hi. cbn. f_equal.
    rewrite (or_else_string_id (lbl_id l)) by done. by destruct l.
Qed.

(** X23. The queue of label deletions: [sbQueueDeleteLabel] ignores the
    empty identifier, and otherwise leaves the identifier in the queue,
    exactly once if the queue held no identifier twice, after the ones
    that were there; queueing it again changes nothing. The callback of a
    confirmed remote deletion removes the identifier from the queue and
    keeps the others. *)
Theorem deletion_queue (id : string) (s : Sb) :
  let s' := fst (sbQueueDeleteLabel id s) in
  (id = "" → sbQueueDeleteLabel id s = (s, []))
  ∧ (id ≠ "" → id ∈ deletedLabelIds s')
  ∧ (∀ k, k ∈ deletedLabelIds s → k ∈ deletedLabelIds s')
  ∧ (∀ k, k ∈ deletedLabelIds s' → k ∈ deletedLabelIds s ∨ k = id)
  ∧ (NoDup (deletedLabelIds s) → NoDup (deletedLabelIds s'))
  ∧ fst (sbQueueDeleteLabel id s') = s'
  ∧ (id ∉ deletedLabelIds (fst (sbQueueDeleteLabel_confirmed id s')))
  ∧ (∀ k, k ≠ id →
       (k ∈ deletedLabelIds (fst (sbQueueDeleteLabel_confirmed id s'))
        ↔ k ∈ deletedLabelIds s')).
Proof.
  intros s'. subst s'. unfold sbQueueDeleteLabel_confirmed.
  cbn [fst deletedLabelIds set_deletedLabelIds].
  assert (Hconf : ∀ q : list string,
            (id ∉ filter (λ x, x ≠ id) q)
            ∧ ∀ k, k ≠ id → k ∈ filter (λ x, x ≠ id) q ↔ k ∈ q).
  { intros q. split.
    - intros Hin. by apply list_elem_of_filter in Hin as [Hne _].
    - intros k Hk. rewrite list_elem_of_filter. tauto. }
  unfold sbQueueDeleteLabel.
  destruct (truthy id) eqn:Ht; cbn [negb fst].
  - assert (Hid : id ≠ "") by (intros ->; discriminate Ht).
    cbn [deletedLabelIds set_deletedLabelIds].
    destruct (decide (id ∈ deletedLabelIds s)) as [Hin | Hnin].
    + rewrite !bool_decide_eq_true_2 by done. cbn [negb fst].
      cbn [deletedLabelIds set_deletedLabelIds]. rewrite ?bool_decide_eq_true_2 by done.
      split; [done |]. split; [done |]. split; [done |]. split; [by left |].
      split; [done |]. split; [by destruct s |]. apply Hconf.
    + rewrite !bool_decide_eq_false_2 by done. cbn [negb fst].
      cbn [deletedLabelIds set_deletedLabelIds].
      rewrite bool_decide_eq_true_2 by (apply elem_of_app; right; left).
      split; [done |].
      split; [intros _; apply elem_of_app; right; left |].
      split; [intros k Hk; apply elem_of_app; by left |].
      split; [intros k [Hk | Hk%list_elem_of_singleton]%elem_of_app; [by left | by right] |].
      split.
      { intros Hnd. apply NoDup_app. split; [done |].
        split; [| apply NoDup_singleton].
        intros x Hx Hx'%list_elem_of_singleton. by subst x. }
      split; [by destruct s |]. apply Hconf.
  - apply truthy_string_empty in Ht. subst id.
    split; [done |]. split; [done |]. split; [done |]. split; [by left |].
    split; [done |]. split; [done |]. apply Hconf.
Qed.

Lemma filter_none {A} (f : A → bool) (l : list A) :
  Forall (λ x, f x = false) l → filter (λ x, f x = true) l = [].
Proof.
  induction 1 as [| x l Hx _ IH]; [done |].
  rewrite filter_cons_False by (rewrite Hx; discriminate). exact IH.
Qed.

Lemma filter_all {A} (f : A → bool) (l : list A) :
  Forall (λ x, f x = true) l → filter (λ x, f x = true) l = l.
Proof.
  induction 1 as [| x l Hx _ IH]; [done |].
  rewrite filter_cons_True by done. by rewrite IH.
Qed.

Lemma pushPhase_upserts st : filter (λ x, is_upsert x = true) (pushPhase st) = pushPhase st.
Proof.
  apply filter_all. unfold pushPhase.
  destruct (labels st), (sessions st); repeat constructor.
Qed.

Lemma pullPhase_quiet e s st :
  Forall (λ x, is_upsert x = false ∧ x ≠ SaveState) (snd (pullPhase e s st)).
Proof.
  unfold pullPhase.
  destruct (profile_res e) as [| [row |]], (labels_res e), (sessions_res e);
    cbn [snd app]; repeat constructor; discriminate.
Qed.

Lemma sbDeleteLabelsNow_quiet signed ok ids :
  Forall (λ x, is_upsert x = false ∧ x ≠ SaveState) (snd (sbDeleteLabelsNow signed ok ids)).
Proof.
  unfold sbDeleteLabelsNow. destruct signed; cbn [negb snd]; [| constructor].
  destruct (filter _ ids); cbn [snd]; repeat constructor; discriminate.
Qed.

Lemma passHead_spec e s st st1 s2 pre :
  signedIn s = true →
  passHead e s st = (st1, s2, pre) →
  signedIn s2 = true ∧ syncing s2 = true ∧ forcePushOnce s2 = false
  ∧ lastSyncMs s2 = lastSyncMs s
  ∧ (deletedLabelIds s2 = deletedLabelIds s ∨ deletedLabelIds s2 = [])
  ∧ Forall (λ x, is_upsert x = false ∧ x ≠ SaveState) pre.
Proof.
  intros Hin. destruct s as [si sy ls fp q]. cbn [signedIn] in Hin. subst si.
  unfold passHead. cbn [set_syncing deletedLabelIds signedIn].
  set (st0 := ensureClientIds e st).
  assert (Hall : ∀ (s1 : Sb) (effDel : list effect),
            signedIn s1 = true → syncing s1 = true → lastSyncMs s1 = ls →
            Forall (λ x, is_upsert x = false ∧ x ≠ SaveState) effDel →
            (deletedLabelIds s1 = q ∨ deletedLabelIds s1 = []) →
            (let skipPull := forcePushOnce s1 in
             let '(st1, effPull) := if skipPull then (st0, []) else pullPhase e s1 st0 in
             let '(s2, effFlag) :=
               if forcePushOnce s1 then (set_forcePushOnce false s1, [SbSaveMeta])
               else (s1, []) in
             (st1, s2, [RenderAuthUi] ++ effDel ++ effPull ++ effFlag)) = (st1, s2, pre) →
            signedIn s2 = true ∧ syncing s2 = true ∧ forcePushOnce s2 = false
            ∧ lastSyncMs s2 = ls
            ∧ (deletedLabelIds s2 = q ∨ deletedLabelIds s2 = [])
            ∧ Forall (λ x, is_upsert x = false ∧ x ≠ SaveState) pre).
  { intros s1 effDel Hs1 Hy1 Hl1 Hdel Hq. cbv zeta.
    pose proof (pullPhase_quiet e s1 st0) as Hpull.
    destruct (pullPhase e s1 st0) as [stp effPull]. cbn [snd] in Hpull.
    destruct s1 as [si1 sy1 ls1 fp1 q1].
    cbn [signedIn syncing lastSyncMs deletedLabelIds] in Hs1, Hy1, Hl1, Hq.
    subst si1 sy1 ls1.
    destruct fp1; cbn [forcePushOnce set_forcePushOnce]; intros Heq;
      injection Heq as <- <- <-;
      cbn [signedIn syncing forcePushOnce lastSyncMs deletedLabelIds];
      do 4 (split; [done |]); (split; [exact Hq |]);
      repeat first [rewrite Forall_app | rewrite Forall_cons | rewrite Forall_nil];
      repeat split; first [assumption | discriminate | done]. }
  destruct q as [| i ids].
  - apply (Hall (mkSb true true ls fp []) []); try done. by left.
  - pose proof (sbDeleteLabelsNow_quiet true (delete_ok e) (i :: ids)) as Hdel.
    destruct (sbDeleteLabelsNow true (delete_ok e) (i :: ids)) as [ok effd].
    cbn [snd] in Hdel. destruct ok.
    + apply (Hall (set_deletedLabelIds [] (mkSb true true ls fp (i :: ids)))
               (effd ++ [SbSaveMeta])); try done; [| by right].
      apply Forall_app; split; [exact Hdel | repeat constructor; discriminate].
    + apply (Hall (mkSb true true ls fp (i :: ids)) (effd ++ [Toast "Sync push failed"]));
        try done; [| by left].
      apply Forall_app; split; [exact Hdel | repeat constructor; discriminate].
Qed.

Lemma fullSync_passHead e s st st1 s2 pre :
  signedIn s = true → syncing s = false →
  passHead e s st = (st1, s2, pre) →
  fullSync e s st
  = Some (st1, set_syncing false (set_lastSyncMs (date_now e) s2),
          pre ++ pushPhase st1 ++ [SbSaveMeta; SaveState; RenderAll; RenderAuthUi]).
Proof.
  intros Hin Hsy. unfold fullSync, passHead. rewrite Hin, Hsy. cbn [negb orb].
  destruct (match deletedLabelIds (set_syncing true s) with
            | [] => _ | _ => _ end) as [s1 effDel].
  cbv zeta.
  destruct (if forcePushOnce s1 then _ else _) as [stp effPull].
  destruct (if forcePushOnce s1 then _ else _) as [sf effFlag].
  intros Heq. injection Heq as <- <- <-.
  cbn [app]. by rewrite <- !app_assoc.
Qed.

Lemma labels_convert (now : Z) (ls : list Label) :
  is_Some (mapM (localLabelToRow now) ls)
  ↔ Forall (λ l, lbl_createdTs l = 0 ∨ validTime (lbl_createdTs l) = true) ls.
Proof.
  rewrite mapM_is_Some. apply Forall_proper; [| done]. intros l.
  unfold localLabelToRow, compose, truthy, truthy_Z.
  destruct (Z.eqb_spec (lbl_createdTs l) 0) as [-> | Hne]; cbn [negb].
  - split; [by left | by eexists].
  - destruct (validTime (lbl_createdTs l)).
    + split; [by right | by eexists].
    + split; [intros [x Hx]; discriminate Hx | intros [? | ?]; done].
Qed.

Lemma sessions_convert (ss : list Session) :
  is_Some (mapM localSessionToRow ss)
  ↔ Forall (λ s, validTime (ses_startTs s) = true ∧ validTime (ses_endTs s) = true) ss.
Proof.
  rewrite mapM_is_Some. apply Forall_proper; [| done]. intros s.
  unfold localSessionToRow, compose.
  destruct (validTime (ses_startTs s)), (validTime (ses_endTs s)); cbn [andb];
    split; try (intros [x Hx]; discriminate Hx); try (intros [? ?]; done);
    try (by eexists); done.
Qed.

Lemma pushPhase_members (st' : State) (eff : list effect) :
  filter (λ x, is_upsert x = true) eff = pushPhase st' →
  UpsertProfile (profile st') (xpSec st') (garden st') (fruitCollection st') ∈ eff
  ∧ (∀ l, UpsertSessions l ∈ eff ↔ l = sessions st' ∧ l ≠ [])
  ∧ (∀ l, UpsertLabels l ∈ eff ↔ l = labels st' ∧ l ≠ []).
Proof.
  intros Hf.
  assert (Hmem : ∀ x, is_upsert x = true → (x ∈ eff ↔ x ∈ pushPhase st')).
  { intros x Hx. rewrite <- Hf, list_elem_of_filter. tauto. }
  split; [apply Hmem; [done |]; unfold pushPhase; left |].
  split; intros l; rewrite Hmem by done; unfold pushPhase;
    destruct (labels st') as [| l0 ls], (sessions st') as [| s0 ss]; cbn [app];
    rewrite ?elem_of_cons, ?elem_of_nil; split;
    try (intros [Hx | [Hx | [Hx | Hx]]]; try discriminate Hx; try done;
         injection Hx as ->; done);
    try (intros [Hx | [Hx | Hx]]; try discriminate Hx; try done;
         injection Hx as ->; done);
    try (intros [Hx | Hx]; try discriminate Hx; try done; injection Hx as ->; done);
    try (intros [-> Hne]; tauto).
Qed.

(** X24. A pass started by the timer of [queueSyncSoon]. [fullSync] returns
    at once, making no call, when nobody is signed in or a pass is running.
    Otherwise the callback always leaves the pass no longer marked as
    running, the one-shot push-first flag off and the queue of deletions as
    it was or empty, and the next pass is admitted. When every time of the
    state the pull left is a valid date the pass runs to its end: the time
    of the pass is the clock's, its upserts are exactly those of that state
    (the profile always, the labels and the sessions only when there are
    some) and the state is saved. Otherwise a row conversion throws:
    [fullSync] itself stops with the pass still marked as running, the
    time of the last pass is not moved, the sessions are not sent and the
    state, with what was pulled, is not saved. *)
Theorem sync_pass_outcomes (e : SyncEnv) (s : Sb) (st : State) :
  (signedIn s = false ∨ syncing s = true →
     fullSyncRows e s st = NotRun ∧ queueSyncSoon_callback e s st = (st, s, []))
  ∧ (signedIn s = true → syncing s = false →
     ∃ st' s' eff,
       queueSyncSoon_callback e s st = (st', s', eff)
       ∧ signedIn s' = true ∧ syncing s' = false ∧ forcePushOnce s' = false
       ∧ (deletedLabelIds s' = deletedLabelIds s ∨ deletedLabelIds s' = [])
       ∧ (∀ e2, fullSyncRows e2 s' st' ≠ NotRun)
       ∧ UpsertProfile (profile st') (xpSec st') (garden st') (fruitCollection st') ∈ eff
       ∧ (datable st' →
            fullSyncRows e s st = Done st' s' eff
            ∧ fullSync e s st = Some (st', s', eff)
            ∧ lastSyncMs s' = date_now e
            ∧ filter (λ x, is_upsert x = true) eff = pushPhase st'
            ∧ (∀ l, UpsertSessions l ∈ eff ↔ l = sessions st' ∧ l ≠ [])
            ∧ (∀ l, UpsertLabels l ∈ eff ↔ l = labels st' ∧ l ≠ [])
            ∧ SaveState ∈ eff)
       ∧ (¬ datable st' →
            (∃ s0 eff0, fullSyncRows e s st = Threw st' s0 eff0 ∧ syncing s0 = true)
            ∧ lastSyncMs s' = lastSyncMs s
            ∧ (SaveState ∉ eff)
            ∧ (∀ l, UpsertSessions l ∉ eff))).
Proof.
  split.
  - intros Hs.
    assert (Hn : fullSyncRows e s st = NotRun).
    { unfold fullSyncRows. destruct Hs as [Hs | Hs]; rewrite Hs;
        [done | by destruct (signedIn s)]. }
    split; [exact Hn |]. unfold queueSyncSoon_callback. by rewrite Hn.
  - intros Hin Hsy.
    destruct (passHead e s st) as [[st1 s2] pre] eqn:Hhead.
    destruct (passHead_spec e s st st1 s2 pre Hin Hhead)
      as (H1 & H2 & H3 & H4 & H5 & Hpre).
    pose proof (fullSync_passHead e s st st1 s2 pre Hin Hsy Hhead) as Hfull.
    assert (Hnext : ∀ (s' : Sb) e2,
              signedIn s' = true → syncing s' = false → fullSyncRows e2 s' st1 ≠ NotRun).
    { intros s' e2 Hi Hy. unfold fullSyncRows. rewrite Hi, Hy. cbn [negb orb].
      destruct (passHead e2 s' st1) as [[sta sa] prea]. cbv zeta.
      destruct (mapM (localLabelToRow (date_now e2)) (labels sta)); [| done].
      by destruct (mapM localSessionToRow (sessions sta)). }
    assert (Hpre_up : filter (λ x, is_upsert x = true) pre = []).
    { apply filter_none. eapply Forall_impl; [exact Hpre |]. by intros x [? ?]. }
    assert (Hpre_save : SaveState ∉ pre).
    { intros Hm. rewrite Forall_forall in Hpre. by destruct (Hpre _ Hm). }
    assert (Hpre_ses : ∀ l, UpsertSessions l ∉ pre).
    { intros l Hm. rewrite Forall_forall in Hpre. by destruct (Hpre _ Hm). }
    pose proof (labels_convert (date_now e) (labels st1)) as HL.
    pose proof (sessions_convert (sessions st1)) as HS.
    assert (Hrows : fullSyncRows e s st
              = match mapM (localLabelToRow (date_now e)) (labels st1) with
                | None =>
                    Threw st1 s2
                      (pre ++ [UpsertProfile (profile st1) (xpSec st1) (garden st1)
                                 (fruitCollection st1)])
                | Some _ =>
                    match mapM localSessionToRow (sessions st1) with
                    | None =>
                        Threw st1 s2
                          (pre ++ [UpsertProfile (profile st1) (xpSec st1) (garden st1)
                                     (fruitCollection st1)]
                           ++ match labels st1 with [] => [] | l => [UpsertLabels l] end)
                    | Some _ =>
                        Done st1 (set_syncing false (set_lastSyncMs (date_now e) s2))
                          (pre ++ [UpsertProfile (profile st1) (xpSec st1) (garden st1)
                                     (fruitCollection st1)]
                           ++ match labels st1 with [] => [] | l => [UpsertLabels l] end
                           ++ match sessions st1 with [] => [] | l => [UpsertSessions l] end
                           ++ [SbSaveMeta; SaveState; RenderAll; RenderAuthUi])
                    end
                end).
    { unfold fullSyncRows. rewrite Hin, Hsy, Hhead. reflexivity. }
    unfold queueSyncSoon_callback. rewrite Hrows. clear Hrows.
    destruct (mapM (localLabelToRow (date_now e)) (labels st1)) as [lrows |] eqn:EL.
    + destruct (mapM localSessionToRow (sessions st1)) as [srows |] eqn:ES.
      * (* the pass runs to its end *)
        eexists _, _, _. split; [reflexivity |].
        destruct s2 as [si2 sy2 ls2 fp2 q2].
        cbn [signedIn syncing forcePushOnce lastSyncMs deletedLabelIds set_syncing
               set_lastSyncMs] in *.
        assert (E : [UpsertProfile (profile st1) (xpSec st1) (garden st1)
                       (fruitCollection st1)]
                    ++ match labels st1 with [] => [] | l => [UpsertLabels l] end
                    ++ match sessions st1 with [] => [] | l => [UpsertSessions l] end
                    ++ [SbSaveMeta; SaveState; RenderAll; RenderAuthUi]
                    = pushPhase st1 ++ [SbSaveMeta; SaveState; RenderAll; RenderAuthUi]).
        { unfold pushPhase. by rewrite <- !app_assoc. }
        rewrite E.
        assert (Hf : filter (λ x, is_upsert x = true)
                       (pre ++ pushPhase st1
                        ++ [SbSaveMeta; SaveState; RenderAll; RenderAuthUi])
                     = pushPhase st1).
        { rewrite !filter_app, Hpre_up, pushPhase_upserts. cbn. by rewrite app_nil_r. }
        destruct (pushPhase_members st1 _ Hf) as (P1 & P2 & P3).
        do 3 (split; [done |]). split; [exact H5 |].
        split; [intros e2; by apply Hnext |].
        split; [exact P1 |].
        split.
        -- intros _. split; [reflexivity |].
           split; [rewrite Hfull; reflexivity |].
           repeat (split; [done |]).
           rewrite !elem_of_app, !elem_of_cons. tauto.
        -- intros Hnd. exfalso. apply Hnd. split; [apply HL | apply HS]; by eexists.
      * (* the session rows cannot be built *)
        eexists _, _, _. split; [reflexivity |].
        destruct s2 as [si2 sy2 ls2 fp2 q2].
        cbn [signedIn syncing forcePushOnce lastSyncMs deletedLabelIds set_syncing] in *.
        do 3 (split; [done |]). split; [exact H5 |].
        split; [intros e2; by apply Hnext |].
        split; [rewrite !elem_of_app, !elem_of_cons; tauto |].
        split.
        -- intros [_ Hd]. apply HS in Hd. destruct Hd as [x Hx]. discriminate Hx.
        -- intros _. split; [by eexists _, _ |]. split; [done |].
           split.
           ++ rewrite !elem_of_app. intros [[Hm | [Hm | Hm]] | Hm].
              ** by apply Hpre_save.
              ** apply list_elem_of_singleton in Hm. discriminate Hm.
              ** destruct (labels st1); [by apply elem_of_nil in Hm |].
                 apply list_elem_of_singleton in Hm. discriminate Hm.
              ** apply list_elem_of_singleton in Hm. discriminate Hm.
           ++ intros l. rewrite !elem_of_app. intros [[Hm | [Hm | Hm]] | Hm].
              ** by apply (Hpre_ses l).
              ** apply list_elem_of_singleton in Hm. discriminate Hm.
              ** destruct (labels st1); [by apply elem_of_nil in Hm |].
                 apply list_elem_of_singleton in Hm. discriminate Hm.
              ** apply list_elem_of_singleton in Hm. discriminate Hm.
    + (* the label rows cannot be built *)
      eexists _, _, _. split; [reflexivity |].
      destruct s2 as [si2 sy2 ls2 fp2 q2].
      cbn [signedIn syncing forcePushOnce lastSyncMs deletedLabelIds set_syncing] in *.
      do 3 (split; [done |]). split; [exact H5 |].
      split; [intros e2; by apply Hnext |].
      split; [rewrite !elem_of_app, !elem_of_cons; tauto |].
      split.
      * intros [Hd _]. apply HL in Hd. destruct Hd as [x Hx]. discriminate Hx.
      * intros _. split; [by eexists _, _ |]. split; [done |].
        split.
        -- rewrite !elem_of_app. intros [[Hm | Hm] | Hm]; [by apply Hpre_save | |];
             apply list_elem_of_singleton in Hm; discriminate Hm.
        -- intros l. rewrite !elem_of_app.
           intros [[Hm | Hm] | Hm]; [by apply (Hpre_ses l) | |];
             apply list_elem_of_singleton in Hm; discriminate Hm.
Qed.

(** Both outcomes occur. The example pass runs to its end; with a session
    whose times lie beyond the range of a date it is rejected in the push
    phase, and the callback sets the mark back. *)
Example sync_pass_rejected_example :
  let far := exampleSession "s_far" 9000000000000000 60 in
  let st := set_sessions [far] exampleState in
  (∃ st' s' eff,
     fullSyncRows exampleSyncEnv (exampleSb true) exampleState = Done st' s' eff)
  ∧ ∃ st' s' eff,
      fullSyncRows exampleSyncEnv (exampleSb true) st = Threw st' s' eff
      ∧ syncing s' = true
      ∧ syncing (snd (fst (queueSyncSoon_callback exampleSyncEnv (exampleSb true) st)))
        = false.
Proof.
  cbv zeta. split; eexists _, _, _; [reflexivity |].
  split; [reflexivity |]. split; reflexivity.
Qed.

(* ================================================================== *)
(** * Repeating the whole pull phase *)

Section JsMap_again.
Context {V : Type} (key : V → string).

Lemma jsmap_ext (m m' : JsMap.t V) :
  wf m → JsMap.keys m = JsMap.keys m' →
  (∀ k, JsMap.get k m = JsMap.get k m') → m = m'.
Proof.
  unfold wf. revert m'. induction m as [| [k v] m IH]; intros [| [k' v'] m'] Hwf Hk Hg;
    try discriminate Hk; [done |].
  cbn in Hk. injection Hk as -> Hk. cbn in Hwf. apply NoDup_cons in Hwf as [Hnin Hwf].
  pose proof (Hg k') as Hg0. cbn in Hg0. rewrite !bool_decide_eq_true_2 in Hg0 by done.
  injection Hg0 as ->. f_equal. apply IH; [done | done |].
  intros k0. destruct (decide (k' = k0)) as [<- | Hne].
  - assert (JsMap.get k' m = None) as -> by (by apply (get_None key)).
    symmetry. apply (get_None key). unfold JsMap.keys. by rewrite <- Hk.
  - specialize (Hg k0). cbn in Hg. by rewrite !bool_decide_eq_false_2 in Hg by done.
Qed.

Lemma setAll_keys_present (l : list V) : ∀ m,
  (∀ x, x ∈ l → key x ∈ JsMap.keys m) → JsMap.keys (setAll key l m) = JsMap.keys m.
Proof.
  unfold setAll. induction l as [| x l IH]; intros m Hin; simpl; [done |].
  assert (Hk : JsMap.keys (JsMap.set (key x) x m) = JsMap.keys m).
  { rewrite keys_set. rewrite bool_decide_eq_true_2; [done |]. apply Hin. left. }
  rewrite IH; [exact Hk |]. intros y Hy. rewrite Hk. apply Hin. by right.
Qed.

Lemma setAll_again (l : list V) (m : JsMap.t V) :
  wf m → (∀ x, x ∈ l → JsMap.get (key x) m = byKey key (key x) l) → setAll key l m = m.
Proof.
  intros Hwf Hg.
  assert (Hin : ∀ x, x ∈ l → key x ∈ JsMap.keys m).
  { intros x Hx. destruct (decide (key x ∈ JsMap.keys m)) as [? | Hn]; [done |].
    apply (get_None key) in Hn. rewrite Hg in Hn by done.
    destruct (byKey_is_Some key (key x) l x Hx eq_refl) as [y Hy]. congruence. }
  apply jsmap_ext.
  - by apply setAll_wf.
  - by apply setAll_keys_present.
  - intros k. rewrite get_setAll.
    destruct (byKey key k l) as [x |] eqn:Hb; [| done].
    apply byKey_Some in Hb as Hx. destruct Hx as [Hx <-]. by rewrite Hg.
Qed.

Lemma keyed_as_fmap (m : JsMap.t V) : keyed key m → m = (λ x, (key x, x)) <$> JsMap.values m.
Proof.
  unfold keyed, JsMap.values. induction 1 as [| [k v] m Hkv _ IH]; [done |].
  cbn in *. by rewrite <- IH, Hkv.
Qed.

End JsMap_again.

Lemma mergeLabels_again (deleted : list string) (local remote : list Label) :
  mergeLabels deleted (mergeLabels deleted local remote) remote
  = mergeLabels deleted local remote.
Proof.
  destruct (mergeLabels_wf deleted local remote) as [Hwf Hk].
  rewrite (mergeLabels_map deleted (mergeLabels deleted local remote)).
  rewrite (mergeLabels_map deleted local remote).
  set (R := filter (λ l, lbl_id l ∉ deleted) remote) in *.
  set (M := setAll lbl_id R (setAll lbl_id local [])) in *.
  assert (Hnd : NoDup (lbl_id <$> JsMap.values M)).
  { rewrite <- (keyed_keys lbl_id) by done. exact Hwf. }
  rewrite (setAll_fresh lbl_id (JsMap.values M) []);
    [| exact Hnd | intros x _; apply not_elem_of_nil].
  rewrite app_nil_l, <- (keyed_as_fmap lbl_id M Hk).
  rewrite (setAll_again lbl_id R M Hwf); [done |].
  intros x Hx. subst M. rewrite get_setAll.
  by destruct (byKey_is_Some lbl_id (lbl_id x) R x Hx eq_refl) as [y ->].
Qed.

Lemma text_again (o : option string) (l d : string) :
  or_else (opt_or o (or_else (opt_or o l) d)) d = or_else (opt_or o l) d.
Proof.
  destruct o as [[| c s] |]; cbn; try reflexivity; by destruct l, d.
Qed.

Lemma Qc_clamp01_range (q : Qc) : (0 <= clamp01 q)%Qc ∧ (clamp01 q <= 1)%Qc.
Proof.
  assert (H01 : (0 <= 1)%Qc) by (vm_compute; discriminate).
  unfold clamp01, Qc_max, Qc_min.
  destruct (Qclt_le_dec q 1) as [Hlt | Hge].
  - destruct (Qclt_le_dec 0 q) as [Hp | Hn].
    + split; apply Qclt_le_weak; assumption.
    + split; [apply Qcle_refl | exact H01].
  - destruct (Qclt_le_dec 0 1); split; try apply Qcle_refl; exact H01.
Qed.

Lemma Qc_clamp01_again (q : Qc) : clamp01 (clamp01 q) = clamp01 q.
Proof. apply Qc_clamp01_within; apply Qc_clamp01_range. Qed.

Lemma applyProfileRow_again (r : ProfileRow) (st : State) :
  applyProfileRow r (applyProfileRow r st) = applyProfileRow r st.
Proof.
  destruct r as [dn wg th co ch at_ av ix gg gt gh fc].
  destruct st as [[n w t c h a v] wv ss xp [tt gs hv] fco ls].
  unfold applyProfileRow.
  cbn [display_name weekly_goal_hours row_theme stopwatch_cap_on stopwatch_cap_hours
         session_ambient_type session_ambient_volume island_xp_sec garden_growth_sec
         garden_tree_type garden_harvested_on_tree fruit_collection
         profile worldView sessions xpSec garden fruitCollection labels
         name weeklyGoalHours theme stopwatchCapOn stopwatchCapHours ambientType ambientVolume
         treeType growthSec harvestedOnThisTree].
  rewrite !text_again.
  f_equal.
  - f_equal.
    + by destruct wg.
    + destruct ch; cbn; [done |]. unfold clamp. lia.
    + destruct av; cbn; [done |]. apply Qc_clamp01_again.
  - by destruct ix.
  - f_equal; [by destruct gg | by destruct gh].
  - destruct fc as [m |]; [| done]. by rewrite (assoc_L (∪)), (idemp_L (∪)).
Qed.

Lemma pullPhase_steps (e : SyncEnv) (s : Sb) :
  ∃ (A B C : State → State) (eff : list effect),
    (∀ st, pullPhase e s st = (C (B (A st)), eff))
    ∧ (∀ st, A (A st) = A st) ∧ (∀ st, B (B st) = B st) ∧ (∀ st, C (C st) = C st)
    ∧ (∀ st, A (B st) = B (A st)) ∧ (∀ st, A (C st) = C (A st))
    ∧ (∀ st, B (C st) = C (B st)).
Proof.
  assert (HL : ∀ rows st0,
            pullLabels e (deletedLabelIds s) rows (pullLabels e (deletedLabelIds s) rows st0)
            = pullLabels e (deletedLabelIds s) rows st0).
  { intros rows st0. unfold pullLabels. cbn [labels set_labels].
    rewrite mergeLabels_again. by destruct st0. }
  assert (HS : ∀ rows st0,
            pullSessions e rows (pullSessions e rows st0) = pullSessions e rows st0).
  { intros rows st0. unfold pullSessions. cbn [sessions set_sessions worldView].
    rewrite mergeSessions_again; [by destruct st0 |]. by rewrite !remoteSessions_keys. }
  exists (λ st, match profile_res e with Fetched (Some row) => applyProfileRow row st | _ => st end),
         (λ st, match labels_res e with
                | Fetched rows => pullLabels e (deletedLabelIds s) rows st | Failed => st end),
         (λ st, match sessions_res e with
                | Fetched rows => pullSessions e rows st | Failed => st end),
         ([SelectProfile]
          ++ match profile_res e with Failed => [Toast "Sync pull failed"] | _ => [] end
          ++ [SelectLabels]
          ++ match labels_res e with Failed => [Toast "Sync pull failed"] | _ => [] end
          ++ [SelectSessions]
          ++ match sessions_res e with Failed => [Toast "Sync pull failed"] | _ => [] end).
  split; [| split; [| split; [| split; [| split; [| split]]]]].
  - intros st. unfold pullPhase.
    destruct (profile_res e) as [| [row |]], (labels_res e), (sessions_res e); reflexivity.
  - intros st. destruct (profile_res e) as [| [row |]]; try done. apply applyProfileRow_again.
  - intros st. destruct (labels_res e); [done | apply HL].
  - intros st. destruct (sessions_res e); [done | apply HS].
  - intros st. destruct (profile_res e) as [| [row |]], (labels_res e); reflexivity.
  - intros st. destruct (profile_res e) as [| [row |]], (sessions_res e); reflexivity.
  - intros st. destruct (labels_res e), (sessions_res e); reflexivity.
Qed.

(** X25. Pulling twice is pulling once: when the remote store gives the
    same answers and the clock the same readings, a second pull phase on the
    state that the first one left changes nothing and issues the same
    requests. In particular a profile row and the label rows each apply to
    their own result without effect. *)
Theorem pullPhase_again (e : SyncEnv) (s : Sb) (st : State) :
  pullPhase e s (fst (pullPhase e s st)) = pullPhase e s st
  ∧ (∀ r, applyProfileRow r (applyProfileRow r st) = applyProfileRow r st)
  ∧ (∀ rows, pullLabels e (deletedLabelIds s) rows (pullLabels e (deletedLabelIds s) rows st)
             = pullLabels e (deletedLabelIds s) rows st).
Proof.
  split; [| split; [intros r; apply applyProfileRow_again |]].
  - destruct (pullPhase_steps e s) as (A & B & C & eff & Hp & HA & HB & HC & HAB & HAC & HBC).
    rewrite !Hp. cbn [fst]. f_equal.
    rewrite HAC, HAB, HA, HBC, HB, HC. reflexivity.
  - intros rows. unfold pullLabels. cbn [labels set_labels].
    rewrite mergeLabels_again. by destruct st.
Qed.

(* ================================================================== *)
(** * Durations as text *)

Section formatting_facts.
Context `{H : Blob.Host}.

Lemma pad2_two_digits (x : Z) : 0 ≤ x < 100 → pad2 x = two_digits x.
Proof.
  intros Hx. rewrite <- (Z2Nat.id x) by lia.
  assert (Hk : (Z.to_nat x < 100)%nat) by lia.
  generalize dependent (Z.to_nat x). clear Hx x. intros k Hk.
  do 100 (destruct k as [| k]; [vm_compute; reflexivity |]). lia.
Qed.

Lemma two_digits_inj (x y : Z) :
  0 ≤ x < 100 → 0 ≤ y < 100 → two_digits x = two_digits y → x = y.
Proof.
  intros Hx Hy Heq. unfold two_digits in Heq. injection Heq as H1 H2.
  assert (E1 : ∀ a b : nat, (a < 256)%nat → (b < 256)%nat →
                 Ascii.ascii_of_nat a = Ascii.ascii_of_nat b → a = b).
  { intros a b Ha Hb E. apply (f_equal Ascii.nat_of_ascii) in E.
    by rewrite !Ascii.nat_ascii_embedding in E by done. }
  pose proof (Z.div_pos x 10 ltac:(lia) ltac:(lia)).
  pose proof (Z.div_pos y 10 ltac:(lia) ltac:(lia)).
  pose proof (Z.div_lt_upper_bound x 10 10 ltac:(lia) ltac:(lia)).
  pose proof (Z.div_lt_upper_bound y 10 10 ltac:(lia) ltac:(lia)).
  pose proof (Z.mod_pos_bound x 10 ltac:(lia)).
  pose proof (Z.mod_pos_bound y 10 ltac:(lia)).
  assert (D1 : x / 10 = y / 10).
  { apply Z2Nat.inj; try lia.
    assert (48 + Z.to_nat (x / 10) = 48 + Z.to_nat (y / 10))%nat
      by (apply E1; [lia | lia | exact H1]).
    lia. }
  assert (D2 : x mod 10 = y mod 10).
  { apply Z2Nat.inj; try lia.
    assert (48 + Z.to_nat (x mod 10) = 48 + Z.to_nat (y mod 10))%nat
      by (apply E1; [lia | lia | exact H2]).
    lia. }
  rewrite (Z.div_mod x 10), (Z.div_mod y 10) by lia. by rewrite D1, D2.
Qed.

(** X26. The clock text of a duration below one hundred hours. With [n]
    the whole seconds shown (the duration rounded, not below zero),
    [formatHMS] is two digits of hours, two of minutes and two of seconds
    separated by colons, eight units in all, where the minutes and the
    seconds are below 60 and [3600 h + 60 m + s = n]; two durations whose
    texts agree show the same whole seconds. Below one hundred minutes
    [formatMMSS] is two digits of minutes and two of seconds. *)
Theorem formatHMS_clock (sec sec' : Qc) :
  shownSeconds sec < 360000 →
  let n := shownSeconds sec in
  let h := n / 3600 in
  let m := n mod 3600 / 60 in
  let s := n mod 60 in
  formatHMS sec = two_digits h +:+ ":" +:+ two_digits m +:+ ":" +:+ two_digits s
  ∧ String.length (formatHMS sec) = 8%nat
  ∧ 0 ≤ m < 60 ∧ 0 ≤ s < 60 ∧ 3600 * h + 60 * m + s = n
  ∧ (shownSeconds sec' < 360000 → formatHMS sec = formatHMS sec' →
     shownSeconds sec = shownSeconds sec')
  ∧ (n < 6000 → formatMMSS sec = two_digits (n / 60) +:+ ":" +:+ two_digits s).
Proof.
  assert (Hform : ∀ q, shownSeconds q < 360000 →
            let n := shownSeconds q in
            formatHMS q = two_digits (n / 3600) +:+ ":" +:+ two_digits (n mod 3600 / 60)
                          +:+ ":" +:+ two_digits (n mod 60)
            ∧ 0 ≤ n / 3600 < 100 ∧ 0 ≤ n mod 3600 / 60 < 60 ∧ 0 ≤ n mod 60 < 60
            ∧ 3600 * (n / 3600) + 60 * (n mod 3600 / 60) + n mod 60 = n).
  { intros q Hq n. unfold formatHMS. fold (shownSeconds q). fold n.
    assert (Hn : 0 ≤ n) by (subst n; unfold shownSeconds; lia).
    rewrite !Z.rem_mod_nonneg by lia.
    pose proof (Z.mod_pos_bound n 3600 ltac:(lia)).
    pose proof (Z.mod_pos_bound n 60 ltac:(lia)).
    pose proof (Z.div_pos n 3600 ltac:(lia) ltac:(lia)).
    pose proof (Z.div_lt_upper_bound n 3600 100 ltac:(lia) ltac:(lia)).
    pose proof (Z.div_pos (n mod 3600) 60 ltac:(lia) ltac:(lia)).
    pose proof (Z.div_lt_upper_bound (n mod 3600) 60 60 ltac:(lia) ltac:(lia)).
    rewrite !pad2_two_digits by lia.
    split; [reflexivity |]. split; [lia |]. split; [lia |]. split; [lia |].
    pose proof (Z.div_mod n 3600 ltac:(lia)) as E1.
    pose proof (Z.div_mod (n mod 3600) 60 ltac:(lia)) as E2.
    pose proof (Z.div_mod n 60 ltac:(lia)) as E3.
    pose proof (Z.mod_pos_bound (n mod 3600) 60 ltac:(lia)).
    lia. }
  intros Hn n h m s.
  destruct (Hform sec Hn) as (Hf & Hh & Hm & Hs & Hsum). fold n h m s in Hf, Hh, Hm, Hs, Hsum.
  split; [exact Hf |]. split; [by rewrite Hf |].
  split; [exact Hm |]. split; [exact Hs |]. split; [exact Hsum |].
  split; [| intros Hlt; unfold formatMMSS; fold (shownSeconds sec); fold n;
            assert (0 ≤ n) by (subst n; unfold shownSeconds; lia);
            rewrite Z.rem_mod_nonneg by lia;
            pose proof (Z.div_pos n 60 ltac:(lia) ltac:(lia));
            pose proof (Z.div_lt_upper_bound n 60 100 ltac:(lia) ltac:(lia));
            rewrite !pad2_two_digits by lia; reflexivity].
  intros Hn' Heq. destruct (Hform sec' Hn') as (Hf' & Hh' & Hm' & Hs' & Hsum').
  rewrite Hf, Hf' in Heq. unfold two_digits in Heq.
  cbn [String.append] in Heq.
  injection Heq as A1 A2 B1 B2 C1 C2.
  assert (Eh : h = shownSeconds sec' / 3600).
  { apply two_digits_inj; [lia | lia |]. unfold two_digits.
    f_equal; [exact A1 | f_equal; exact A2]. }
  assert (Em : m = shownSeconds sec' mod 3600 / 60).
  { apply two_digits_inj; [lia | lia |]. unfold two_digits.
    f_equal; [exact B1 | f_equal; exact B2]. }
  assert (Es : s = shownSeconds sec' mod 60).
  { apply two_digits_inj; [lia | lia |]. unfold two_digits.
    f_equal; [exact C1 | f_equal; exact C2]. }
  fold n. lia.
Qed.

End formatting_facts.

Lemma formatHMS_clock_witness :
  formatHMS (H := Blob.exampleHost) (Q2Qc (36615 # 10)) = "01:01:02"
  ∧ String.length (formatHMS (H := Blob.exampleHost) (Q2Qc (36615 # 10))) = 8%nat.
Proof.
  destruct (formatHMS_clock (H := Blob.exampleHost) (Q2Qc (36615 # 10)) 0%Qc
              ltac:(vm_compute; reflexivity)) as (Hf & Hl & _).
  split; [rewrite Hf; vm_compute; reflexivity | exact Hl].
Defined.

(* ================================================================== *)
(** * The untyped layer: numbers and texts *)

Import Blob.

Lemma num_lt_Fin x y : Blob.num_lt (Blob.Fin x) (Blob.Fin y) = true ↔ (x < y)%Qc.
Proof.
  simpl. destruct (Qclt_le_dec x y) as [Hlt | Hle]; split; try done.
  intros Hlt. exfalso. unfold Qclt, Qcle in *. lra.
Qed.

Lemma clamp_idem n a b :
  Blob.clamp (Blob.clamp n (Blob.Fin a) (Blob.Fin b)) (Blob.Fin a) (Blob.Fin b)
  = Blob.clamp n (Blob.Fin a) (Blob.Fin b).
Proof.
  unfold Blob.clamp, Blob.Math_max, Blob.Math_min.
  destruct n as [| | q |]; simpl; try done;
    repeat (match goal with
            | |- context [Qclt_le_dec ?x ?y] => destruct (Qclt_le_dec x y)
            end; simpl); try done;
    exfalso; unfold Qclt, Qcle in *; lra.
Qed.

Lemma white_not_id c : Blob.is_id_char c = true → is_white c = false.
Proof. destruct c as [[] [] [] [] [] [] [] []]; vm_compute; congruence. Qed.

Lemma trimStart_idem s : trimStart (trimStart s) = trimStart s.
Proof.
  induction s as [| c s IH]; simpl; [done |].
  destruct (is_white c) eqn:Hc; [done |]. simpl. by rewrite Hc.
Qed.

Lemma trimEnd_idem s : trimEnd (trimEnd s) = trimEnd s.
Proof.
  induction s as [| c s IH]; simpl; [done |].
  destruct (trimEnd s) as [| c' r] eqn:Hr.
  - destruct (is_white c) eqn:Hc; simpl; [done | by rewrite Hc].
  - simpl in *. rewrite IH. done.
Qed.

Lemma trimStart_front_ok s : front_ok (trimStart s).
Proof. induction s as [| c s IH]; simpl; [done |]. destruct (is_white c) eqn:Hc; [done | by simpl]. Qed.

Lemma front_ok_trimStart s : front_ok s → trimStart s = s.
Proof. destruct s as [| c s]; simpl; [done |]. by intros ->. Qed.

Lemma trimEnd_front_ok s : front_ok s → front_ok (trimEnd s).
Proof.
  destruct s as [| c s]; simpl; [done |]. intros Hc.
  destruct (trimEnd s); simpl; [by rewrite Hc | done].
Qed.

Lemma trim_idem s : trim (trim s) = trim s.
Proof.
  unfold trim.
  rewrite (front_ok_trimStart (trimEnd (trimStart s)))
    by apply trimEnd_front_ok, trimStart_front_ok.
  apply trimEnd_idem.
Qed.

Lemma take_id_all s : Forall (λ c, is_white c = false) (take_id s).
Proof.
  induction s as [| c s IH]; simpl; [constructor |].
  destruct (is_id_char c) eqn:Hc; constructor; [by apply white_not_id | done].
Qed.

Lemma trim_no_white l :
  Forall (λ c, is_white c = false) l →
  trim (String.string_of_list_ascii l) = String.string_of_list_ascii l.
Proof.
  intros Hl. unfold trim.
  assert (Hs : trimStart (String.string_of_list_ascii l) = String.string_of_list_ascii l).
  { destruct Hl as [| c l Hc _]; simpl; [done | by rewrite Hc]. }
  rewrite Hs. induction Hl as [| c l Hc Hl IH]; simpl; [done |].
  rewrite IH by (destruct Hl as [| c' l' Hc' _]; simpl; [done | by rewrite Hc']).
  destruct (String.string_of_list_ascii l); [by rewrite Hc | done].
Qed.

Lemma regex_capture_unfold p s :
  regex_capture p s
  = match (match match_head p s with
           | Some rest =>
               if (6 <=? length (take_id rest))%nat
               then Some (String.string_of_list_ascii (take_id rest)) else None
           | None => None
           end) with
    | Some r => Some r
    | None => match s with [] => None | _ :: s' => regex_capture p s' end
    end.
Proof. by destruct s. Qed.

Lemma regex_capture_trim p s r : regex_capture p s = Some r → trim r = r.
Proof.
  induction s as [| c s IH]; rewrite regex_capture_unfold;
    (destruct (match_head p _) as [rest |];
     [destruct (6 <=? length (take_id rest))%nat |]);
    try (intros Hr; injection Hr as Hr; subst r; apply trim_no_white, take_id_all);
    try (intros Hr; discriminate Hr); exact IH.
Qed.

Lemma or_else_string_cases (a b : string) : or_else a b = a ∨ or_else a b = b.
Proof. unfold or_else. destruct (truthy a); auto. Qed.

Lemma vidOfUrl_trim u : trim (vidOfUrl u) = vidOfUrl u.
Proof.
  unfold vidOfUrl.
  set (s := String.list_ascii_of_string u).
  assert (Hd : ∀ p, trim (default "" (regex_capture p s)) = default "" (regex_capture p s)).
  { intros p. destruct (regex_capture p s) eqn:Hr; simpl; [by eapply regex_capture_trim | done]. }
  repeat match goal with
         | |- context [or_else ?a ?b] =>
             lazymatch a with
             | context [or_else] => fail
             | _ => destruct (or_else_string_cases a b) as [-> | ->]
             end
         end; try apply Hd; done.
Qed.

(* ================================================================== *)
(** * The untyped layer: objects *)

Lemma field_insert_eq (m : gmap string value) k v : field (<[k:=v]> m) k = v.
Proof. unfold field. by rewrite lookup_insert_eq. Qed.

Lemma field_insert_ne (m : gmap string value) k k' v :
  k ≠ k' → field (<[k:=v]> m) k' = field m k'.
Proof. intros Hk. unfold field. by rewrite lookup_insert_ne. Qed.

Lemma field_lookup (m : gmap string value) k v : m !! k = Some v → field m k = v.
Proof. intros Hm. unfold field. by rewrite Hm. Qed.

Lemma insert_field (m : gmap string value) k v :
  m !! k = Some v → <[k:=v]> m = m.
Proof. apply insert_id. Qed.

Lemma covers_refl (S : gmap string value) : covers S S.
Proof. by intros k. Qed.

Lemma covers_over d x : covers d (over d x).
Proof.
  intros k [v Hv]. unfold over. rewrite lookup_union.
  rewrite Hv. destruct (spread _ !! k); simpl; eauto.
Qed.

Lemma covers_insert d (S : gmap string value) k v : covers d S → covers d (<[k:=v]> S).
Proof.
  intros Hc k' Hk'. destruct (decide (k = k')) as [-> | Hne].
  - rewrite lookup_insert_eq. eauto.
  - rewrite lookup_insert_ne by done. by apply Hc.
Qed.

Lemma covers_delete d (S : gmap string value) k :
  d !! k = None → covers d S → covers d (delete k S).
Proof.
  intros Hd Hc k' Hk'. destruct (decide (k = k')) as [-> | Hne].
  - rewrite Hd in Hk'. by destruct Hk'.
  - rewrite lookup_delete_ne by done. by apply Hc.
Qed.

Lemma over_fixed d (S : gmap string value) : covers d S → over d (VObj S) = S.
Proof.
  intros Hc. unfold over. simpl. apply map_eq. intros k. rewrite lookup_union.
  destruct (S !! k) eqn:HS; simpl; [by destruct (d !! k) |].
  destruct (d !! k) eqn:Hd; [| done].
  destruct (Hc k) as [w Hw]; [eauto | congruence].
Qed.

Create HintDb covers discriminated.
#[local] Hint Resolve covers_over covers_insert covers_refl : covers.

Ltac fields :=
  repeat first
    [ rewrite field_insert_eq
    | rewrite field_insert_ne by done ].

Ltac look :=
  unfold field;
  repeat first
    [ rewrite lookup_insert_eq
    | rewrite lookup_insert_ne by done
    | rewrite lookup_delete_ne by done ].

(* ================================================================== *)
(** * Each repair of [loadState] is stable *)

Section load_facts.
Context `{H : Host}.

Lemma repairIsland_stable I0 I :
  covers dIsland I0 → repairIsland I0 = Some I →
  repairIsland (over dIsland (VObj I)) = Some I.
Proof.
  unfold repairIsland. intros Hc Hr.
  apply bind_Some in Hr as (x & _ & Hr). injection Hr as <-.
  rewrite over_fixed by auto with covers.
  fields. simpl. by rewrite insert_insert_eq.
Qed.

Lemma repairGarden_stable G0 G :
  covers dGarden G0 → repairGarden G0 = Some G →
  repairGarden (over dGarden (VObj G)) = Some G.
Proof.
  unfold repairGarden. intros Hc Hr.
  apply bind_Some in Hr as (g & _ & Hr).
  apply bind_Some in Hr as (h & _ & Hr). injection Hr as <-.
  rewrite over_fixed by auto with covers.
  fields. simpl. fields. simpl.
  f_equal. rewrite (insert_field _ "growthSec"); [by rewrite insert_insert_eq |].
  by look.
Qed.

Lemma repairLabels_stable L0 :
  covers dLabels L0 →
  repairLabels (over dLabels (VObj (repairLabels L0))) = repairLabels L0.
Proof.
  intros Hc. rewrite over_fixed by (unfold repairLabels; auto with covers).
  unfold repairLabels at 1.
  set (L := repairLabels L0).
  assert (Hi : field L "items" = if isArray (field L0 "items") then field L0 "items" else VArr []).
  { subst L. unfold repairLabels. by fields. }
  assert (Hv : field L "view" = VStr (if is_str (field L0 "view") "list" then "list" else "grid")).
  { subst L. unfold repairLabels. by fields. }
  assert (Hs : field L "sort" = VStr (if is_str (field L0 "sort") "date" then "date" else "name")).
  { subst L. unfold repairLabels. by fields. }
  assert (Hli : L !! "items" = Some (field L "items")).
  { subst L. unfold repairLabels. by look. }
  assert (Hlv : L !! "view" = Some (field L "view")).
  { subst L. unfold repairLabels. by look. }
  assert (Hls : L !! "sort" = Some (field L "sort")).
  { subst L. unfold repairLabels. by look. }
  assert (E1 : (if isArray (field L "items") then field L "items" else VArr []) = field L "items").
  { rewrite Hi. by destruct (field L0 "items"). }
  rewrite E1, (insert_field L "items") by done.
  assert (E2 : VStr (if is_str (field L "view") "list" then "list" else "grid") = field L "view").
  { rewrite Hv. by destruct (is_str (field L0 "view") "list"). }
  rewrite E2, (insert_field L "view") by done.
  assert (E3 : VStr (if is_str (field L "sort") "date" then "date" else "name") = field L "sort").
  { rewrite Hs. by destruct (is_str (field L0 "sort") "date"). }
  by rewrite E3, (insert_field L "sort") by done.
Qed.

Lemma repairHabits_stable H0 :
  covers dHabits H0 →
  repairHabits (over dHabits (VObj (repairHabits H0))) = repairHabits H0.
Proof.
  intros Hc. rewrite over_fixed by (unfold repairHabits; auto with covers).
  unfold repairHabits at 1.
  set (L := repairHabits H0).
  set (it := if isArray (field H0 "items") then field H0 "items" else VArr []).
  set (co := if is_object (field H0 "completions") then field H0 "completions" else VObj ∅).
  assert (Hli : L !! "items" = Some it).
  { subst L. unfold repairHabits. by look. }
  assert (Hlv : L !! "completions" = Some co).
  { subst L. unfold repairHabits. fields. by look. }
  rewrite (field_lookup L "items" it) by done.
  assert (E1 : (if isArray it then it else VArr []) = it).
  { subst it. by destruct (field H0 "items"). }
  rewrite E1, (insert_id L "items") by done.
  rewrite (field_lookup L "completions" co) by done.
  assert (E2 : (if is_object co then co else VObj ∅) = co).
  { subst co. by destruct (field H0 "completions"). }
  by rewrite E2, (insert_id L "completions") by done.
Qed.

Lemma slice0_idem n s : slice0 n (slice0 n s) = slice0 n s.
Proof.
  unfold slice0. revert s. induction n as [| n IH]; intros [| c s]; simpl; try done.
  by rewrite IH.
Qed.

Lemma get_task id text dn created k :
  get (obj [("id", id); ("text", text); ("done", dn); ("createdTs", created)]) k
  = if decide (k = "id") then id
    else if decide (k = "text") then text
    else if decide (k = "done") then dn
    else if decide (k = "createdTs") then created
    else VUndef.
Proof.
  unfold get, obj, field. simpl.
  repeat (case_decide; [subst k; by look |]).
  by rewrite !lookup_insert_ne, lookup_empty by done.
Qed.

Lemma repairTask_stable e i t :
  task_shape t → truthy (get t "id") = true → truthy (get t "createdTs") = true →
  repairTask e i t = Some t.
Proof.
  intros (id & text & dn & created & ->). rewrite !get_task. simpl. intros Hid Hcr.
  unfold repairTask. rewrite !get_task. simpl.
  rewrite (or_else_truthy (VStr id)) by exact Hid.
  assert (Ht : or_else (VStr (slice0 80 text)) (VStr "") = VStr (slice0 80 text)).
  { unfold or_else. simpl. by destruct (slice0 80 text). }
  rewrite Ht.
  rewrite (or_else_truthy (VNum created)) by exact Hcr.
  simpl. by rewrite slice0_idem.
Qed.

Lemma repairTask_shape e i t t' : repairTask e i t = Some t' → task_shape t'.
Proof.
  unfold repairTask. intros Hr.
  apply bind_Some in Hr as (id & _ & Hr).
  apply bind_Some in Hr as (text & _ & Hr).
  apply bind_Some in Hr as (created & _ & Hr).
  injection Hr as <-. by eexists _, _, _, _.
Qed.

Lemma repairTasksFrom_shape e l : ∀ i ts,
  repairTasksFrom e i l = Some ts → Forall task_shape ts.
Proof.
  induction l as [| t l IH]; intros i ts; simpl.
  - intros Hr. injection Hr as <-. constructor.
  - intros Hr. apply bind_Some in Hr as (t' & Ht & Hr).
    apply bind_Some in Hr as (r & Hr' & Hr). injection Hr as <-.
    constructor; [by eapply repairTask_shape | by eapply IH].
Qed.

Lemma repairTasksFrom_stable e ts : ∀ i,
  Forall task_shape ts →
  Forall (λ t, truthy (get t "id") = true ∧ truthy (get t "createdTs") = true) ts →
  repairTasksFrom e i ts = Some ts.
Proof.
  induction ts as [| t ts IH]; intros i Hs Hst; simpl; [done |].
  apply Forall_cons in Hs as [Ht Hs]. apply Forall_cons in Hst as [[Hid Hcr] Hst].
  rewrite repairTask_stable by done. simpl. by rewrite IH.
Qed.

Lemma filter_objects ts :
  Forall task_shape ts → filter (λ t, is_object t = true) ts = ts.
Proof.
  induction 1 as [| t ts (id & text & dn & created & ->) _ IH]; [done |].
  rewrite filter_cons_True by done. by rewrite IH.
Qed.

Lemma repairTasks_stable e e2 x ts :
  repairTasks e x = Some ts →
  Forall (λ t, truthy (get t "id") = true ∧ truthy (get t "createdTs") = true) ts →
  repairTasks e2 (VArr ts) = Some ts.
Proof.
  intros Hr Hst. assert (Hs : Forall task_shape ts).
  { destruct x; simpl in Hr; try (injection Hr as <-; constructor).
    by eapply repairTasksFrom_shape. }
  simpl. rewrite filter_objects by done. by apply repairTasksFrom_stable.
Qed.

Lemma normalizeRewardMode_stable v :
  normalizeRewardMode (or_else (VStr (normalizeRewardMode v)) (VStr "island"))
  = normalizeRewardMode v.
Proof. unfold normalizeRewardMode. destruct (is_str v "garden"); reflexivity. Qed.

Lemma repairUi_stable st M U0 :
  covers dUi U0 →
  get M "ui" = VObj (repairUi st U0) →
  repairUi M (over dUi (VObj (repairUi st U0))) = repairUi st U0.
Proof.
  intros Hc HM.
  assert (Hcov : covers dUi (repairUi st U0)).
  { unfold repairUi. apply covers_insert. destruct (_ && _); auto with covers. }
  rewrite over_fixed by done.
  unfold repairUi at 1. rewrite HM. simpl. rewrite andb_false_r.
  set (U := repairUi st U0).
  assert (HU : ∃ v, U !! "worldView" = Some (VStr (normalizeRewardMode v))).
  { subst U. unfold repairUi. eexists. by look. }
  destruct HU as [v Hv]. unfold field. rewrite Hv. simpl.
  rewrite normalizeRewardMode_stable. by apply insert_id.
Qed.

Lemma covers_trans (d1 d2 S : gmap string value) : covers d2 d1 → covers d1 S → covers d2 S.
Proof. intros H21 H1 k Hk. by apply H1, H21. Qed.

Lemma covers_dom (d S : gmap string value) : covers d S ↔ dom d ⊆ dom S.
Proof.
  unfold covers. split.
  - intros Hc k Hk. apply elem_of_dom. apply Hc. by apply elem_of_dom.
  - intros Hs k Hk. apply elem_of_dom. apply Hs. by apply elem_of_dom.
Qed.

Lemma covers_dProfile y1 y2 : covers (dProfile y2) (dProfile y1).
Proof. apply covers_dom. unfold dProfile. by rewrite !dom_list_to_map_L. Qed.

Lemma covers_defaultState y1 y2 : covers (defaultState y2) (defaultState y1).
Proof. apply covers_dom. unfold defaultState. by rewrite !dom_list_to_map_L. Qed.

Lemma not_false_bool b : not_false (VBool b) = b.
Proof. by destruct b. Qed.

Lemma allowed_truthy t : t ∈ allowedThemes → truthy (VStr t) = true.
Proof.
  unfold allowedThemes. intros Ht.
  repeat (apply elem_of_cons in Ht as [-> | Ht]; [done |]).
  by apply elem_of_nil in Ht.
Qed.


Lemma repairProfile_stable e e2 y2 P0 P :
  covers (dProfile y2) P0 →
  repairProfile e P0 = Some P →
  bgStored e2 = bgStoredAfter e P0 →
  repairProfile e2 (over (dProfile y2) (VObj P)) = Some P
  ∧ bgStoredAfter e2 (over (dProfile y2) (VObj P)) = bgStoredAfter e P0.
Proof.
  intros Hc Hr Hb. unfold repairProfile in Hr.
  set (P1 := if bgThrows e P0 then P0 else delete "backgroundCustomData" P0) in Hr.
  apply bind_Some in Hr as (n & _ & Hr).
  apply bind_Some in Hr as (t & _ & Hr).
  apply bind_Some in Hr as (h & _ & Hr).
  injection Hr as HP.
  set (b := not_false _) in HP.
  set (c := clamp h _ _) in HP.
  set (t' := if bool_decide (t ∈ allowedThemes) then t else "midnight").
  assert (Ht' : t' ∈ allowedThemes).
  { subst t'. case_bool_decide; [done |]. unfold allowedThemes. left. }
  assert (F1 : P !! "weeklyGoalHours" = Some (VNum n)).
  { subst P. case_bool_decide; by look. }
  assert (F2 : P !! "theme" = Some (VStr t')).
  { subst P t'. case_bool_decide; by look. }
  assert (F3 : P !! "stopwatchCapOn" = Some (VBool b)).
  { subst P. case_bool_decide; by look. }
  assert (F4 : P !! "stopwatchCapHours" = Some (VNum c)).
  { subst P. case_bool_decide; by look. }
  assert (F5 : P !! "backgroundCustomData" = P1 !! "backgroundCustomData").
  { subst P. case_bool_decide; by look. }
  assert (F6 : covers (dProfile y2) P).
  { assert (covers (dProfile y2) P1).
    { subst P1. destruct (bgThrows e P0); [done |]. by apply covers_delete. }
    subst P. case_bool_decide; auto 10 with covers. }
  clear HP. rewrite over_fixed by done.
  assert (Hbg : (if bgThrows e2 P then P else delete "backgroundCustomData" P) = P
                ∧ bgStoredAfter e2 P = bgStoredAfter e P0).
  { unfold bgThrows, bgStoredAfter in *. unfold field in *. rewrite F5. subst P1.
    destruct (truthy (default VUndef (P0 !! "backgroundCustomData"))
              && negb (bgStored e)
              && match to_string (default VUndef (P0 !! "backgroundCustomData")) with
                 | Some _ => false | None => true end) eqn:Hthrew.
    - apply andb_prop in Hthrew as [Hthrew Hts]. apply andb_prop in Hthrew as [Htr Hst].
      destruct (to_string (default VUndef (P0 !! "backgroundCustomData"))); [done |].
      rewrite Htr in *. destruct (bgStored e); [done |]. simpl in Hb. rewrite Hb. done.
    - rewrite lookup_delete_eq. simpl. rewrite orb_false_r.
      split; [| done]. apply delete_id. rewrite F5. apply lookup_delete_eq. }
  destruct Hbg as [Hbg1 Hbg2]. split; [| exact Hbg2].
  unfold repairProfile. rewrite Hbg1.
  rewrite (field_lookup P "weeklyGoalHours" (VNum n)) by done. simpl.
  rewrite (insert_id P "weeklyGoalHours") by done.
  rewrite (field_lookup P "theme" (VStr t')) by done.
  rewrite (or_else_truthy (VStr t')) by by apply allowed_truthy.
  simpl. rewrite (insert_id P "theme") by done.
  rewrite (field_lookup P "stopwatchCapOn" (VBool b)) by done. rewrite not_false_bool.
  rewrite (insert_id P "stopwatchCapOn") by done.
  rewrite (field_lookup P "stopwatchCapHours" (VNum c)) by done. simpl.
  subst c. rewrite clamp_idem. rewrite (insert_id P "stopwatchCapHours") by done.
  by rewrite bool_decide_eq_true_2.
Qed.

Lemma get_onvol a b k :
  get (obj [("on", a); ("vol", b)]) k
  = if decide (k = "on") then a else if decide (k = "vol") then b else VUndef.
Proof.
  unfold get, obj, field. simpl.
  repeat (case_decide; [subst k; by look |]).
  by rewrite !lookup_insert_ne, lookup_empty by done.
Qed.

Lemma clamp01_idem n : clamp01 (clamp01 n) = clamp01 n.
Proof. apply clamp_idem. Qed.

Lemma repairAmbient_shape amb k amb' :
  repairAmbient amb k = Some amb' →
  ∃ b v, amb' = <[k := obj [("on", VBool b); ("vol", VNum (clamp01 v))]]> amb.
Proof.
  unfold repairAmbient. intros Hr. apply bind_Some in Hr as (v & _ & Hr).
  injection Hr as <-. by eexists _, _.
Qed.

Lemma repairAmbient_same amb k b v :
  amb !! k = Some (obj [("on", VBool b); ("vol", VNum (clamp01 v))]) →
  repairAmbient amb k = Some amb.
Proof.
  intros Hk. unfold repairAmbient. rewrite (field_lookup amb k _ Hk).
  rewrite or_else_truthy by done. rewrite !get_onvol. simpl.
  rewrite clamp01_idem. by rewrite insert_id.
Qed.

Lemma repairAmbients_stable amb0 amb :
  repairAmbients amb0 = Some amb →
  repairAmbients amb = Some amb ∧ covers dAmbient amb.
Proof.
  unfold repairAmbients. intros Hr.
  apply bind_Some in Hr as (a1 & H1 & Hr). apply repairAmbient_shape in H1 as (b1 & v1 & ->).
  apply bind_Some in Hr as (a2 & H2 & Hr). apply repairAmbient_shape in H2 as (b2 & v2 & ->).
  apply bind_Some in Hr as (a3 & H3 & Hr). apply repairAmbient_shape in H3 as (b3 & v3 & ->).
  apply repairAmbient_shape in Hr as (b4 & v4 & ->).
  split.
  - rewrite (repairAmbient_same _ "fire" b1 v1) by by look. simpl.
    rewrite (repairAmbient_same _ "wind" b2 v2) by by look. simpl.
    rewrite (repairAmbient_same _ "sea" b3 v3) by by look. simpl.
    apply (repairAmbient_same _ "nature" b4 v4). by look.
  - apply covers_dom. unfold dAmbient. rewrite dom_list_to_map_L. simpl.
    rewrite !dom_insert_L. intros k. rewrite !elem_of_union, !elem_of_singleton.
    rewrite elem_of_empty. tauto.
Qed.

Lemma lofiVid_ok A vid : lofiVid A = Some vid → truthy vid = true ∧ trim vid = vid.
Proof.
  unfold lofiVid. intros Hr.
  apply bind_Some in Hr as (s & _ & Hr). apply bind_Some in Hr as (u & _ & Hr).
  injection Hr as <-.
  destruct (negb (truthy (trim s)) && truthy (trim u)).
  - destruct (truthy (vidOfUrl (trim u))) eqn:Hv; [| done].
    split; [done | apply vidOfUrl_trim].
  - destruct (truthy (trim s)) eqn:Hv; [| done].
    split; [done | apply trim_idem].
Qed.

Lemma lofiVid_same A vid :
  A !! "lofiVideoId" = Some (VStr vid) →
  A !! "lofiEmbedUrl" = Some (VStr (embedUrl vid)) →
  truthy vid = true → trim vid = vid →
  lofiVid A = Some vid.
Proof.
  intros Hv Hu Ht Htrim. unfold lofiVid.
  rewrite (field_lookup A "lofiVideoId" _ Hv), (field_lookup A "lofiEmbedUrl" _ Hu).
  rewrite (or_else_truthy (VStr vid)) by exact Ht.
  rewrite (or_else_truthy (VStr (embedUrl vid))) by done.
  simpl. rewrite Htrim, Ht. simpl. by rewrite Ht.
Qed.

Lemma repairAudio_stable a A : repairAudio a = Some A → repairAudio (VObj A) = Some A.
Proof.
  intros Hr. unfold repairAudio in Hr.
  set (A0 := <["ambient" := _]> (over dAudio a)) in Hr.
  assert (HcA0 : covers dAudio A0) by (subst A0; auto with covers).
  clearbody A0.
  apply bind_Some in Hr as (m & _ & Hr).
  apply bind_Some in Hr as (amb & Hamb & Hr).
  apply bind_Some in Hr as (vid & Hvid & Hr).
  apply bind_Some in Hr as (op & _ & Hr).
  apply bind_Some in Hr as (ov & _ & Hr).
  apply bind_Some in Hr as (yt & _ & Hr).
  injection Hr as HA.
  apply repairAmbients_stable in Hamb as [Hamb Hcamb].
  apply lofiVid_ok in Hvid as [Hvt Hvtrim].
  set (b := truthy _) in HA.
  assert (G1 : A !! "master" = Some (VNum (clamp01 m))) by (subst A; by look).
  assert (G2 : A !! "ambient" = Some (VObj amb)) by (subst A; by look).
  assert (G3 : A !! "lofiVideoId" = Some (VStr vid)) by (subst A; by look).
  assert (G4 : A !! "lofiEmbedUrl" = Some (VStr (embedUrl vid))) by (subst A; by look).
  assert (G5 : A !! "videoBgOn" = Some (VBool b)) by (subst A; by look).
  assert (G6 : A !! "videoBgOpacity" = Some (VNum (clamp01 op))) by (subst A; by look).
  assert (G7 : A !! "videoOverlayOpacity" = Some (VNum (clamp01 ov))) by (subst A; by look).
  assert (G8 : A !! "ytVolume" = Some (VNum (clamp yt (Fin 0%Qc) (Fin (Q2Qc 100)))))
    by (subst A; by look).
  assert (G9 : A !! "isPlaying" = Some (VBool false)) by (subst A; by look).
  assert (G10 : covers dAudio A) by (subst A; auto 15 with covers).
  clear HA. unfold repairAudio.
  rewrite (or_else_truthy (VObj A)) by done. cbn [get].
  rewrite (field_lookup A "ambient" _ G2).
  rewrite !over_fixed by done. rewrite (insert_id A "ambient") by done.
  rewrite (field_lookup A "master" _ G1). simpl.
  rewrite clamp01_idem, (insert_id A "master") by done.
  rewrite (field_lookup A "ambient" _ G2). cbn [spread]. rewrite Hamb. simpl.
  rewrite (insert_id A "ambient") by done.
  rewrite (lofiVid_same A vid) by done. simpl.
  rewrite (insert_id A "lofiVideoId"), (insert_id A "lofiEmbedUrl") by done.
  rewrite (field_lookup A "videoBgOn" _ G5). cbn [truthy truthy_value].
  rewrite (insert_id A "videoBgOn") by done.
  rewrite (field_lookup A "videoBgOpacity" _ G6). simpl.
  rewrite clamp01_idem, (insert_id A "videoBgOpacity") by done.
  rewrite (field_lookup A "videoOverlayOpacity" _ G7). simpl.
  rewrite clamp01_idem, (insert_id A "videoOverlayOpacity") by done.
  rewrite (field_lookup A "ytVolume" _ G8). simpl.
  rewrite clamp_idem, (insert_id A "ytVolume") by done.
  by rewrite (insert_id A "isPlaying") by done.
Qed.

Lemma covers_union_r (s d : gmap string value) : covers d (s ∪ d).
Proof.
  intros k [v Hv]. rewrite lookup_union, Hv. destruct (s !! k); simpl; eauto.
Qed.

Lemma isArray_keep x : isArray (if isArray x then x else VArr []) = true.
Proof. by destruct x. Qed.

(** Merging a merged state again gives it back, as long as its tasks are
    stable and the storage is as the first merge left it. *)
Lemma mergeDefaults_stable e1 e2 X M b1 :
  mergeDefaults e1 X = Some (M, b1) →
  tasksStable M →
  bgStored e2 = b1 →
  mergeDefaults e2 M = Some (M, b1).
Proof.
  intros Hr Hst Hb. unfold mergeDefaults in Hr.
  destruct (not_nullish X); simpl in Hr; [| discriminate Hr].
  set (P0 := over (dProfile (currentYear e1)) (get X "profile")) in Hr.
  apply bind_Some in Hr as (P & HP & Hr).
  apply bind_Some in Hr as (I & HI & Hr).
  apply bind_Some in Hr as (G & HG & Hr).
  apply bind_Some in Hr as (ts & HT & Hr).
  apply bind_Some in Hr as (A & HA & Hr).
  injection Hr as HM Hb1.
  set (U := repairUi X (over dUi (get X "ui"))) in HM.
  set (L := repairLabels (over dLabels (get X "labels"))) in HM.
  set (Hh := repairHabits (over dHabits (get X "habits"))) in HM.
  set (pom := over dPomodoro (get X "pomodoro")) in HM.
  set (fc := over dFruitCollection (get X "fruitCollection")) in HM.
  set (ses := if isArray (get X "sessions") then get X "sessions" else VArr []) in HM.
  set (base := spread X ∪ defaultState (currentYear e1)) in HM.
  assert (Hbase : covers (defaultState (currentYear e2)) base).
  { eapply covers_trans; [apply covers_defaultState | apply covers_union_r]. }
  clearbody base.
  destruct M as [| | | | | | merged]; try discriminate HM. injection HM as HM.
  assert (K1 : merged !! "profile" = Some (VObj P)) by (subst merged; by look).
  assert (K2 : merged !! "ui" = Some (VObj U)) by (subst merged; by look).
  assert (K3 : merged !! "tasks" = Some (VArr ts)) by (subst merged; by look).
  assert (K4 : merged !! "audio" = Some (VObj A)) by (subst merged; by look).
  assert (K5 : merged !! "pomodoro" = Some (VObj pom)) by (subst merged; by look).
  assert (K6 : merged !! "island" = Some (VObj I)) by (subst merged; by look).
  assert (K7 : merged !! "garden" = Some (VObj G)) by (subst merged; by look).
  assert (K8 : merged !! "fruitCollection" = Some (VObj fc)) by (subst merged; by look).
  assert (K9 : merged !! "labels" = Some (VObj L)) by (subst merged; by look).
  assert (K10 : merged !! "habits" = Some (VObj Hh)) by (subst merged; by look).
  assert (K11 : merged !! "sessions" = Some ses) by (subst merged; by look).
  assert (Kc : covers (defaultState (currentYear e2)) merged)
    by (subst merged; auto 20 with covers).
  clear HM.
  assert (Hts : Forall (λ t, truthy (get t "id") = true ∧ truthy (get t "createdTs") = true) ts).
  { unfold tasksStable in Hst. cbn [get] in Hst. by rewrite (field_lookup _ _ _ K3) in Hst. }
  destruct (repairProfile_stable e1 e2 (currentYear e2) P0 P) as [HP2 Hb2];
    [subst P0; eapply covers_trans; [apply covers_dProfile | apply covers_over]
    | done | by rewrite Hb, Hb1 |].
  unfold mergeDefaults. cbn [not_nullish negb get].
  rewrite (field_lookup _ _ _ K1), (field_lookup _ _ _ K2), (field_lookup _ _ _ K3),
    (field_lookup _ _ _ K4), (field_lookup _ _ _ K5), (field_lookup _ _ _ K6),
    (field_lookup _ _ _ K7), (field_lookup _ _ _ K8), (field_lookup _ _ _ K9),
    (field_lookup _ _ _ K10), (field_lookup _ _ _ K11).
  rewrite HP2. cbn [mbind option_bind].
  rewrite (repairIsland_stable _ I (covers_over _ _) HI). cbn [mbind option_bind].
  rewrite (repairGarden_stable _ G (covers_over _ _) HG). cbn [mbind option_bind].
  cbn [isArray]. rewrite (repairTasks_stable e1 e2 _ ts HT Hts). cbn [mbind option_bind].
  rewrite (repairAudio_stable _ A HA). cbn [mbind option_bind].
  assert (HU : repairUi (VObj merged) (over dUi (VObj U)) = U).
  { subst U. apply repairUi_stable; [apply covers_over |].
    cbn [get]. by rewrite (field_lookup _ _ _ K2). }
  rewrite HU.
  assert (HL : repairLabels (over dLabels (VObj L)) = L).
  { subst L. apply repairLabels_stable, covers_over. }
  rewrite HL.
  assert (HH : repairHabits (over dHabits (VObj Hh)) = Hh).
  { subst Hh. apply repairHabits_stable, covers_over. }
  rewrite HH.
  rewrite (over_fixed dPomodoro pom) by (subst pom; apply covers_over).
  rewrite (over_fixed dFruitCollection fc) by (subst fc; apply covers_over).
  assert (Hses : (if isArray ses then ses else VArr []) = ses).
  { subst ses. by destruct (get X "sessions"). }
  rewrite Hses.
  change (spread (VObj merged) ∪ defaultState (currentYear e2))
    with (over (defaultState (currentYear e2)) (VObj merged)).
  rewrite over_fixed by done.
  rewrite (insert_id merged "profile"), (insert_id merged "ui"), (insert_id merged "tasks"),
    (insert_id merged "audio"), (insert_id merged "pomodoro"), (insert_id merged "island"),
    (insert_id merged "garden"), (insert_id merged "fruitCollection"),
    (insert_id merged "labels"), (insert_id merged "habits"),
    (insert_id merged "sessions") by done.
  by rewrite Hb2, Hb1.
Qed.
End load_facts.

(* ================================================================== *)
(** * Loading: the merge with defaults *)

Lemma mergeDefaults_empty `{H : Host} e :
  mergeDefaults e (VObj ∅) = Some (VObj (defaultState (currentYear e)), bgStored e).
Proof. destruct e as [y b ok u n]. vm_compute. by destruct b. Qed.

Lemma tasksStable_default y : tasksStable (VObj (defaultState y)).
Proof.
  unfold tasksStable. cbn [get].
  rewrite (field_lookup (defaultState y) "tasks" (VArr [])); [constructor |].
  unfold defaultState. simpl. by look.
Qed.

Lemma mergeDefaults_default `{H : Host} e y :
  mergeDefaults e (VObj (defaultState y)) = Some (VObj (defaultState y), bgStored e).
Proof.
  apply (mergeDefaults_stable
           (mkLoadEnv y (bgStored e) (setItem_ok e) (uid_text e) (task_now e)) e (VObj ∅)).
  - apply (mergeDefaults_empty (mkLoadEnv y (bgStored e) (setItem_ok e) (uid_text e) (task_now e))).
  - apply tasksStable_default.
  - reflexivity.
Qed.

(** Saving and loading again. *)
Lemma size_element (l : list value) (x : value) :
  x ∈ l → (Store.size x < Store.size (VArr l))%nat.
Proof.
  cbn [Store.size]. induction l as [| y l IH]; [intros []%elem_of_nil |].
  rewrite elem_of_cons. cbn [foldr]. intros [-> | Hx]; [lia |]. specialize (IH Hx). lia.
Qed.

Lemma size_member (m : gmap string value) (k : string) (x : value) :
  m !! k = Some x → (Store.size x < Store.size (VObj m))%nat.
Proof.
  intros Hk. cbn [Store.size].
  rewrite (map_fold_delete_L _ _ k x m); [lia | | exact Hk].
  intros. lia.
Qed.

Lemma lossless_member (m : gmap string value) (k : string) (x : value) :
  Store.lossless (VObj m) = true → m !! k = Some x → Store.lossless x = true.
Proof.
  cbn [Store.lossless]. intros Hm Hk.
  rewrite (map_fold_delete_L _ _ k x m) in Hm; [| | exact Hk].
  - by apply andb_prop in Hm as [? _].
  - intros j1 j2 z1 z2 y _ _ _. by destruct (Store.lossless z1), (Store.lossless z2).
Qed.

Lemma reparse_lossless_aux (n : nat) :
  ∀ v, (Store.size v < n)%nat → Store.lossless v = true → Store.reparse v = v.
Proof.
  induction n as [| n IH]; intros v Hsize Hv; [lia |].
  destruct v as [| | b | [| | q |] | s | l | m]; try done.
  - cbn [Store.reparse]. f_equal.
    cbn [Store.lossless] in Hv. rewrite forallb_forall in Hv.
    assert (Hall : ∀ x, x ∈ l → Store.reparse x = x ∧ x ≠ VUndef).
    { intros x Hx. pose proof (size_element l x Hx).
      assert (Hlx : Store.lossless x = true) by (apply Hv; by apply list_elem_of_In).
      split; [apply IH; [lia | done] |]. by intros ->. }
    clear Hsize Hv. induction l as [| y l IHl]; [done |].
    cbn [map]. destruct (Hall y ltac:(left)) as [Hy Hny].
    rewrite IHl by (intros x Hx; apply Hall; by right).
    f_equal. by destruct y.
  - cbn [Store.reparse]. f_equal. apply map_eq. intros k. rewrite lookup_omap.
    destruct (m !! k) as [x |] eqn:Hk; [| done]. cbn [mbind option_bind].
    pose proof (size_member m k x Hk).
    pose proof (lossless_member m k x Hv Hk) as Hlx.
    rewrite (IH x) by (done || lia). by destruct x.
Qed.

Lemma reparse_lossless (v : value) : Store.lossless v = true → Store.reparse v = v.
Proof. apply (reparse_lossless_aux (S (Store.size v))). lia. Qed.

Lemma loadState_is_object `{H : Host} e raw M b :
  loadState e raw = Some (M, b) → ∃ merged, M = VObj merged.
Proof.
  destruct raw as [| | X]; cbn [loadState].
  - intros [= <- _]. by eexists.
  - intros [= <- _]. by eexists.
  - unfold mergeDefaults. destruct (negb (not_nullish X)); [done |].
    intros Hm. repeat (apply bind_Some in Hm as (? & _ & Hm)).
    injection Hm as <- _. by eexists.
Qed.

Lemma lossless_default y : Store.lossless (VObj (defaultState y)) = true.
Proof. vm_compute. reflexivity. Qed.

(** C8, as the code has it. Merging twice is merging once whenever every
    task of the merged state has a truthy [id] and a truthy [createdTs] and
    the storage is as the first merge left it; so a blob that parses to a
    loaded state of that kind loads to that state. What [saveState] writes
    is the state with every [NaN], infinity and [undefined] replaced or
    left out as [JSON.stringify] does, and loading it is merging that: a
    loaded state with such tasks that holds none of these values is
    reproduced by saving and loading, the default state in particular. A
    blob that does not parse, like a missing one, loads to the default
    state, and nothing is thrown. *)
Theorem loadState_idempotent `{H : Host} :
  (∀ e1 e2 X M b,
     mergeDefaults e1 X = Some (M, b) → tasksStable M → bgStored e2 = b →
     mergeDefaults e2 M = Some (M, b))
  ∧ (∀ e1 e2 raw M b,
       loadState e1 raw = Some (M, b) → tasksStable M → bgStored e2 = b →
       loadState e2 (Json M) = Some (M, b))
  ∧ (∀ e1 e2 raw M b,
       loadState e1 raw = Some (M, b) → tasksStable M → Store.lossless M = true →
       bgStored e2 = b →
       loadState e2 (Store.saveState M) = Some (M, b))
  ∧ (∀ e1 e2 raw M b,
       loadState e1 raw = Some (M, b) →
       loadState e2 (Store.saveState M) = mergeDefaults e2 (Store.reparse M))
  ∧ (∀ v, Store.lossless v = true → Store.reparse v = v)
  ∧ (∀ e y, loadState e (Store.saveState (VObj (defaultState y)))
            = Some (VObj (defaultState y), bgStored e))
  ∧ (∀ e, loadState e NotJson = Some (VObj (defaultState (currentYear e)), bgStored e))
  ∧ (∀ e, loadState e NoItem = Some (VObj (defaultState (currentYear e)), bgStored e)).
Proof.
  assert (Hjson : ∀ e1 e2 raw M b,
            loadState e1 raw = Some (M, b) → tasksStable M → bgStored e2 = b →
            loadState e2 (Json M) = Some (M, b)).
  { intros e1 e2 raw M b Hl Hst Hb. destruct raw as [| | X]; simpl in *.
    - injection Hl as <- <-. rewrite mergeDefaults_default. by rewrite Hb.
    - injection Hl as <- <-. rewrite mergeDefaults_default. by rewrite Hb.
    - by eapply mergeDefaults_stable. }
  assert (Hsave : ∀ e1 e2 raw M b,
            loadState e1 raw = Some (M, b) →
            loadState e2 (Store.saveState M) = mergeDefaults e2 (Store.reparse M)).
  { intros e1 e2 raw M b Hl. by destruct (loadState_is_object e1 raw M b Hl) as [merged ->]. }
  split; [intros e1 e2 X M b; apply mergeDefaults_stable |].
  split; [exact Hjson |].
  split.
  { intros e1 e2 raw M b Hl Hst Hloss Hb.
    rewrite (Hsave e1 e2 raw M b Hl), (reparse_lossless M Hloss).
    apply (Hjson e1 e2 raw M b Hl Hst Hb). }
  split; [exact Hsave |].
  split; [exact reparse_lossless |].
  split; [| split; reflexivity].
  intros e y. unfold Store.saveState. rewrite (reparse_lossless _ (lossless_default y)).
  apply mergeDefaults_default.
Qed.

Lemma loadState_idempotent_witness :
  let M := merged_of (@loadState exampleHost exampleLoadEnv (Json blobPlain)) in
  @loadState exampleHost exampleLoadEnv (Store.saveState M) = Some (M, false).
Proof.
  intros M.
  apply (proj1 (proj2 (proj2 (@loadState_idempotent exampleHost)))
           exampleLoadEnv exampleLoadEnv (Json blobPlain)).
  - vm_compute. reflexivity.
  - unfold tasksStable. vm_compute. repeat constructor.
  - vm_compute. reflexivity.
  - reflexivity.
Defined.

Example loadState_plain_example :
  let M := merged_of (@loadState exampleHost exampleLoadEnv (Json blobPlain)) in
  get (get M "ui") "worldView" = VStr "garden"
  ∧ get (get M "profile") "stopwatchCapHours" = zn 24
  ∧ get (get M "profile") "theme" = VStr "midnight"
  ∧ get (get M "island") "xpSec" = zn 1500.
Proof. vm_compute. repeat split. Qed.

(** C8, refuted as stated: after one merge the task of [blobEmptyId] has
    the empty text as its [id]; a second merge replaces it by a fresh
    identifier. *)
Lemma mergeDefaults_not_idempotent : ¬ mergeIdempotent.
Proof.
  intros Hid.
  destruct (Hid exampleHost exampleLoadEnv blobEmptyId
              (merged_of (@mergeDefaults exampleHost exampleLoadEnv blobEmptyId)) false)
    as [b' Hb'].
  - vm_compute. reflexivity.
  - apply (f_equal (λ r, firstTaskId (merged_of r))) in Hb'.
    vm_compute in Hb'. discriminate Hb'.
Qed.

Example mergeDefaults_twice_example :
  let once := merged_of (@mergeDefaults exampleHost exampleLoadEnv blobEmptyId) in
  let twice := merged_of (@mergeDefaults exampleHost exampleLoadEnv once) in
  firstTaskId once = VStr "" ∧ firstTaskId twice = VStr "id_9a3f_18c2".
Proof. vm_compute. split; reflexivity. Qed.

(** A loaded state that saving does not reproduce: the weekly goal
    [Infinity] and the [xpSec] [NaN] are written as [null] and load as the
    defaults 10 and 0, although merging the state itself changes nothing. *)
Example reload_lossy_example :
  let M := merged_of (@loadState exampleHost exampleLoadEnv (Json Store.blobLossy)) in
  let M' := merged_of (@loadState exampleHost exampleLoadEnv (Store.saveState M)) in
  tasksStable M
  ∧ @mergeDefaults exampleHost exampleLoadEnv M = Some (M, false)
  ∧ get (get M "profile") "weeklyGoalHours" = VNum PosInf
  ∧ get (get M "island") "xpSec" = VNum NaN
  ∧ get (get M' "profile") "weeklyGoalHours" = zn 10
  ∧ get (get M' "island") "xpSec" = zn 0.
Proof.
  cbv zeta. split; [unfold tasksStable; vm_compute; constructor |].
  split; [| repeat split; vm_compute; reflexivity].
  apply (mergeDefaults_stable exampleLoadEnv exampleLoadEnv Store.blobLossy).
  - vm_compute. reflexivity.
  - unfold tasksStable. vm_compute. constructor.
  - reflexivity.
Qed.

Lemma reload_not_exact : ¬ Store.reloadExact.
Proof.
  intros Hre.
  destruct (Hre exampleHost exampleLoadEnv (Json Store.blobLossy)
              (merged_of (@loadState exampleHost exampleLoadEnv (Json Store.blobLossy))) false)
    as [b' Hb'].
  - vm_compute. reflexivity.
  - apply (f_equal (λ r, get (get (merged_of r) "island") "xpSec")) in Hb'.
    vm_compute in Hb'. discriminate Hb'.
Qed.

(* ================================================================== *)
(** * Stored durations *)

Lemma importStateFromFile_sessions `{H : Host} year incoming st' :
  importStateFromFile year (Json incoming) = Replaced st' →
  get st' "sessions" = get incoming "sessions"
  ∧ isArray (get incoming "sessions") = true.
Proof.
  unfold importStateFromFile.
  destruct (truthy incoming && typeof_object incoming && isArray (get incoming "sessions"))
    eqn:Hv; simpl; [| intros Hr; discriminate Hr].
  apply andb_prop in Hv as [_ Harr].
  destruct (put_if _ "xpSec" _ _) as [island' |]; simpl; [| intros Hr; discriminate Hr].
  destruct (put_if _ "growthSec" _ _) as [g1 |]; simpl; [| intros Hr; discriminate Hr].
  destruct (put_if _ "treeType" _ _) as [g2 |]; simpl; [| intros Hr; discriminate Hr].
  destruct (put_if _ "harvestedOnThisTree" _ _) as [g3 |]; simpl; [| intros Hr; discriminate Hr].
  intros Hr. injection Hr as <-. split; [| done].
  cbn [get]. by rewrite field_insert_eq.
Qed.

Lemma pullSessions_minDuration e rows st :
  minDuration st → Forall (λ r, 60 ≤ duration_sec r) rows →
  minDuration (pullSessions e rows st).
Proof.
  unfold minDuration. intros Hl Hr. apply Forall_forall. intros x Hx.
  destruct (pullSessions_origin e rows st x Hx) as [Hin | (r & Hin & ->)].
  - rewrite Forall_forall in Hl. by apply Hl.
  - rewrite Forall_forall in Hr. by apply Hr.
Qed.

(** C7, as the code has it. A session that [saveSession] records for a
    finite duration carries a whole duration of at least 60, and the ledger
    operations, with finite durations, keep every stored duration a whole
    number of at least 60; [deleteSessionById] adds no session. The pull
    phase and the import make no such check: a session of the list after
    the pull is a local session or carries the [duration_sec] of a remote
    row as it is (so the bound holds after a pull when it held locally and
    holds for every row), and an import stores the session array of the
    file as it is. *)
Theorem stored_durations `{H : Host} :
  (∀ e a st q,
     Ledger.arg_durationSec a = Fin q →
     fst (fst (Ledger.saveSession e a st)) = true →
     ∃ s z, Ledger.sessions (snd (fst (Ledger.saveSession e a st))) = s :: Ledger.sessions st
            ∧ Ledger.ses_durationSec s = Ledger.of_Z z
            ∧ 60 ≤ z)
  ∧ (∀ op st,
       Ledger.finiteSave op → Ledger.minDuration st →
       Ledger.minDuration (Ledger.stepLedger op st))
  ∧ (∀ i st x,
       x ∈ Ledger.sessions (snd (fst (Ledger.deleteSessionById i st))) →
       x ∈ Ledger.sessions st)
  ∧ (∀ e rows st x,
       x ∈ sessions (pullSessions e rows st) →
       x ∈ sessions st ∨ ∃ r, r ∈ rows ∧ ses_durationSec x = duration_sec r)
  ∧ (∀ e rows st,
       minDuration st → Forall (λ r, 60 ≤ duration_sec r) rows →
       minDuration (pullSessions e rows st))
  ∧ (∀ year incoming st',
       importStateFromFile year (Json incoming) = Replaced st' →
       get st' "sessions" = get incoming "sessions").
Proof.
  split; [| split; [| split; [| split; [| split]]]].
  - intros e a st q Hq Hok.
    pose proof (ledger_dur_cases (Ledger.arg_durationSec a)) as Hd. cbv zeta in Hd.
    rewrite Hq in Hd. destruct Hd as (_ & Hdur & _ & _ & Hlt). rewrite <- Hq in Hdur, Hlt.
    destruct (Z.ltb_spec (Math_round q) 60) as [Hlow | Hhigh].
    + rewrite (ledger_saveSession_reject e a st Hlt) in Hok. discriminate Hok.
    + destruct (ledger_saveSession_accept e a st Hlt) as (s & Heq & Hs & _).
      exists s, (Z.max 0 (Math_round q)). rewrite Heq. cbn [fst snd Ledger.sessions].
      split; [done |]. split; [by rewrite Hs, Hdur | lia].
  - apply ledger_step_minDuration.
  - intros i st x. unfold Ledger.deleteSessionById.
    destruct (truthy i); cbn [negb]; [| done].
    destruct (list_find _ _) as [[idx removed] |]; [| done].
    cbn [fst snd Ledger.sessions]. intros Hx.
    apply list_elem_of_lookup in Hx as [j Hj].
    destruct (decide (j < idx)%nat).
    + rewrite list_lookup_delete_lt in Hj by done. by eapply list_elem_of_lookup_2.
    + rewrite list_lookup_delete_ge in Hj by lia. by eapply list_elem_of_lookup_2.
  - apply pullSessions_origin.
  - apply pullSessions_minDuration.
  - intros year incoming st' Hr. by apply importStateFromFile_sessions in Hr as [? _].
Qed.

(** C7, refuted as stated: every stored session of the example lasts at
    least 60 seconds, a remote row of 30 seconds is pulled, and the session
    list then holds a session of 30 seconds. *)
Lemma pull_stores_short_session :
  minDuration exampleState
  ∧ ¬ minDuration (pullSessions exampleSyncEnv
                     [exampleSessionRow "s_Y" 1700000300000 30] exampleState).
Proof.
  split.
  - unfold minDuration. cbn [sessions exampleState]. constructor; [| constructor].
    unfold exampleSession. cbn [ses_durationSec]. lia.
  - unfold minDuration. intros Hm. apply Forall_cons in Hm as [Hm _].
    vm_compute in Hm. by apply Hm.
Qed.

Example import_stores_short_session :
  let st := imported_state (@importStateFromFile exampleHost 2026 (Json blobShortSession)) in
  get st "sessions" = VArr [ obj [ ("id", VStr "s_1"); ("durationSec", zn 5) ] ].
Proof. vm_compute. reflexivity. Qed.

(* ================================================================== *)
(** * What [loadState] returns *)

Import Loaded.


Section loaded.
Context `{H : Host}.

(** The sections of a merged state. *)
Lemma mergeDefaults_sections e X M b :
  mergeDefaults e X = Some (M, b) →
  ∃ merged P ts A I G,
    M = VObj merged
    ∧ repairProfile e (over (dProfile (currentYear e)) (get X "profile")) = Some P
    ∧ repairTasks e (if isArray (get X "tasks") then get X "tasks" else VArr []) = Some ts
    ∧ repairAudio (get X "audio") = Some A
    ∧ repairIsland (over dIsland (get X "island")) = Some I
    ∧ repairGarden (over dGarden (get X "garden")) = Some G
    ∧ merged !! "profile" = Some (VObj P)
    ∧ merged !! "ui" = Some (VObj (repairUi X (over dUi (get X "ui"))))
    ∧ merged !! "tasks" = Some (VArr ts)
    ∧ merged !! "audio" = Some (VObj A)
    ∧ merged !! "island" = Some (VObj I)
    ∧ merged !! "garden" = Some (VObj G)
    ∧ merged !! "labels" = Some (VObj (repairLabels (over dLabels (get X "labels"))))
    ∧ merged !! "habits" = Some (VObj (repairHabits (over dHabits (get X "habits"))))
    ∧ merged !! "pomodoro" = Some (VObj (over dPomodoro (get X "pomodoro")))
    ∧ merged !! "fruitCollection"
      = Some (VObj (over dFruitCollection (get X "fruitCollection")))
    ∧ merged !! "sessions"
      = Some (if isArray (get X "sessions") then get X "sessions" else VArr [])
    ∧ covers (defaultState (currentYear e)) merged.
Proof.
  intros Hr. unfold mergeDefaults in Hr.
  destruct (not_nullish X); simpl in Hr; [| discriminate Hr].
  apply bind_Some in Hr as (P & HP & Hr).
  apply bind_Some in Hr as (I & HI & Hr).
  apply bind_Some in Hr as (G & HG & Hr).
  apply bind_Some in Hr as (ts & HT & Hr).
  apply bind_Some in Hr as (A & HA & Hr).
  injection Hr as HM Hb1.
  set (base := spread X ∪ defaultState (currentYear e)) in HM.
  assert (Hbase : covers (defaultState (currentYear e)) base) by apply covers_union_r.
  clearbody base.
  eexists _, P, ts, A, I, G. split; [symmetry; exact HM |].
  repeat (split; [first [assumption | by look] |]).
  auto 20 with covers.
Qed.

Lemma clamp_range n a b :
  (a <= b)%Qc →
  Blob.clamp n (Fin a) (Fin b) = NaN
  ∨ ∃ q, Blob.clamp n (Fin a) (Fin b) = Fin q ∧ (a <= q)%Qc ∧ (q <= b)%Qc.
Proof.
  intros Hab. unfold Blob.clamp, Blob.Math_max, Blob.Math_min.
  destruct n as [| | q |]; simpl; [by left | | |];
    repeat (match goal with
            | |- context [Qclt_le_dec ?x ?y] => destruct (Qclt_le_dec x y)
            end; simpl);
    right; eexists; (split; [reflexivity |]); unfold Qclt, Qcle in *; split; lra.
Qed.

Lemma nanOrWithin_clamp n a b :
  (a <= b)%Qc → nanOrWithin a b (VNum (Blob.clamp n (Fin a) (Fin b))).
Proof.
  intros Hab. destruct (clamp_range n a b Hab) as [-> | (q & -> & Hq)];
    [by left | right; by exists q].
Qed.

Lemma repairProfile_post e P0 P :
  repairProfile e P0 = Some P →
  (∃ t, P !! "theme" = Some (VStr t) ∧ t ∈ allowedThemes)
  ∧ isBoolean (field P "stopwatchCapOn")
  ∧ nanOrWithin 1 (Q2Qc 24) (field P "stopwatchCapHours")
  ∧ isNumber (field P "weeklyGoalHours").
Proof.
  intros Hr. unfold repairProfile in Hr.
  set (P1 := if bgThrows e P0 then P0 else delete "backgroundCustomData" P0) in Hr.
  apply bind_Some in Hr as (n & _ & Hr).
  apply bind_Some in Hr as (t & _ & Hr).
  apply bind_Some in Hr as (h & _ & Hr).
  injection Hr as HP.
  set (b := not_false _) in HP.
  set (c := Blob.clamp h _ _) in HP.
  set (t' := if bool_decide (t ∈ allowedThemes) then t else "midnight").
  assert (Ht' : t' ∈ allowedThemes).
  { subst t'. case_bool_decide; [done |]. unfold allowedThemes. left. }
  assert (F1 : P !! "weeklyGoalHours" = Some (VNum n)).
  { subst P. case_bool_decide; by look. }
  assert (F2 : P !! "theme" = Some (VStr t')).
  { subst P t'. case_bool_decide; by look. }
  assert (F3 : P !! "stopwatchCapOn" = Some (VBool b)).
  { subst P. case_bool_decide; by look. }
  assert (F4 : P !! "stopwatchCapHours" = Some (VNum c)).
  { subst P. case_bool_decide; by look. }
  split; [by exists t' |].
  unfold field. rewrite F1, F3, F4. simpl.
  split; [by exists b |]. split; [| by exists n].
  subst c. by apply nanOrWithin_clamp.
Qed.

Lemma repairUi_post st U0 :
  field (repairUi st U0) "worldView" = VStr "island"
  ∨ field (repairUi st U0) "worldView" = VStr "garden".
Proof.
  unfold repairUi. rewrite field_insert_eq. unfold Blob.normalizeRewardMode.
  destruct (is_str _ _); [by right | by left].
Qed.

Lemma repairLabels_post L0 :
  isList (field (repairLabels L0) "items")
  ∧ (field (repairLabels L0) "view" = VStr "list"
     ∨ field (repairLabels L0) "view" = VStr "grid")
  ∧ (field (repairLabels L0) "sort" = VStr "date"
     ∨ field (repairLabels L0) "sort" = VStr "name").
Proof.
  unfold repairLabels. fields. split; [| split].
  - destruct (field L0 "items") as [| | | | | l |] eqn:E; simpl; by eexists.
  - destruct (is_str _ _); [by left | by right].
  - destruct (is_str _ _); [by left | by right].
Qed.

Lemma repairAudio_post a A :
  repairAudio a = Some A →
  field A "isPlaying" = VBool false
  ∧ nanOrWithin 0 (Q2Qc 100) (field A "ytVolume")
  ∧ nanOrWithin 0 1 (field A "master")
  ∧ nanOrWithin 0 1 (field A "videoBgOpacity")
  ∧ nanOrWithin 0 1 (field A "videoOverlayOpacity")
  ∧ isBoolean (field A "videoBgOn")
  ∧ ∃ vid, vid ≠ "" ∧ field A "lofiVideoId" = VStr vid
           ∧ field A "lofiEmbedUrl" = VStr (embedUrl vid).
Proof.
  intros Hr. unfold repairAudio in Hr.
  apply bind_Some in Hr as (master & _ & Hr).
  apply bind_Some in Hr as (amb & _ & Hr).
  apply bind_Some in Hr as (vid & Hvid & Hr).
  apply bind_Some in Hr as (op & _ & Hr).
  apply bind_Some in Hr as (ov & _ & Hr).
  apply bind_Some in Hr as (yt & _ & Hr).
  injection Hr as <-. fields.
  split; [done |].
  split; [apply nanOrWithin_clamp; vm_compute; discriminate |].
  split; [apply nanOrWithin_clamp; vm_compute; discriminate |].
  split; [apply nanOrWithin_clamp; vm_compute; discriminate |].
  split; [apply nanOrWithin_clamp; vm_compute; discriminate |].
  split; [by eexists |].
  exists vid. apply lofiVid_ok in Hvid as [Hv _].
  split; [intros ->; discriminate Hv | done].
Qed.

(** X27. Whatever the stored blob, the state that [loadState] returns has
    every section of the default state; its world view is the island or the
    garden, its theme one of the five themes, the view and the order of the
    labels are ["list"] or ["grid"] and ["date"] or ["name"]; the sessions,
    the tasks and the label items are arrays; the counters are numbers;
    playback is off; the video id is not empty and the embed URL is built
    from it. The volumes, the opacities and the stopwatch cap lie within
    their bounds or are [NaN]: a value that does not convert to a number is
    not replaced. *)
Theorem loadState_guarantees e raw M b :
  loadState e raw = Some (M, b) → loadedShape (currentYear e) M.
Proof.
  intros Hl.
  assert (Hm : ∃ X, mergeDefaults e X = Some (M, b)).
  { destruct raw as [| | X]; simpl in Hl.
    - exists (VObj ∅). by rewrite mergeDefaults_empty.
    - exists (VObj ∅). by rewrite mergeDefaults_empty.
    - by exists X. }
  destruct Hm as [X Hm].
  destruct (mergeDefaults_sections e X M b Hm)
    as (merged & P & ts & A & I & G & -> & HP & HT & HA & HI & HG
        & K1 & K2 & K3 & K4 & K5 & K6 & K7 & K8 & K9 & K10 & K11 & Kc).
  unfold loadedShape. cbn [get].
  rewrite !(field_lookup merged "profile" _ K1), !(field_lookup merged "ui" _ K2),
    !(field_lookup merged "tasks" _ K3), !(field_lookup merged "audio" _ K4),
    !(field_lookup merged "labels" _ K7), !(field_lookup merged "sessions" _ K11),
    !(field_lookup merged "island" _ K5), !(field_lookup merged "garden" _ K6).
  cbn [get].
  assert (HI' : isNumber (field I "xpSec")).
  { unfold repairIsland in HI. apply bind_Some in HI as (x & _ & HI).
    injection HI as <-. rewrite field_insert_eq. by exists x. }
  assert (HG' : isNumber (field G "growthSec") ∧ isNumber (field G "harvestedOnThisTree")).
  { unfold repairGarden in HG. apply bind_Some in HG as (g & _ & HG).
    apply bind_Some in HG as (h & _ & HG). injection HG as <-. fields.
    split; by eexists. }
  destruct HG' as [HG1 HG2].
  destruct (repairProfile_post e _ P HP) as ((t & Ft & Ht) & Hon & Hcap & Hgoal).
  destruct (repairLabels_post (over dLabels (get X "labels"))) as (Li & Lv & Ls).
  destruct (repairAudio_post _ A HA) as (A1 & A2 & A3 & A4 & A5 & _ & A7).
  split; [by exists merged |].
  split; [apply repairUi_post |].
  split; [exists t; split; [by rewrite (field_lookup P "theme" (VStr t)) | done] |].
  split; [done |]. split; [done |]. split; [done |].
  split; [done |]. split; [done |]. split; [done |].
  split; [destruct (isArray (get X "sessions")) eqn:E;
          [destruct (get X "sessions"); try discriminate E |]; by eexists |].
  split; [by eexists |].
  repeat (split; [done |]). done.
Qed.

Lemma task_shape_bare t : task_shape t → bareTask t.
Proof.
  intros (id & text & dn & created & ->). split; [| split; reflexivity].
  eexists id, (slice0 80 text), dn, created. split; [reflexivity | apply slice0_length].
Qed.

(** X28. The tasks of a loaded state are rebuilt from four members: each
    is an object with exactly [id], [text] (cut to 80 units), [done] and
    [createdTs]. The description and the label that [addTask] stores are
    not carried over: after a load no task has a [desc] or a [labelId]. *)
Theorem loadState_drops_task_details e raw M b :
  loadState e raw = Some (M, b) →
  ∃ ts, get M "tasks" = VArr ts ∧ Forall bareTask ts.
Proof.
  intros Hl.
  assert (Hm : ∃ X, mergeDefaults e X = Some (M, b)).
  { destruct raw as [| | X]; simpl in Hl.
    - exists (VObj ∅). by rewrite mergeDefaults_empty.
    - exists (VObj ∅). by rewrite mergeDefaults_empty.
    - by exists X. }
  destruct Hm as [X Hm].
  destruct (mergeDefaults_sections e X M b Hm)
    as (merged & P & ts & A & I & G & -> & HP & HT & HA & HI & HG
        & K1 & K2 & K3 & _).
  exists ts. cbn [get]. split; [by rewrite (field_lookup merged "tasks" _ K3) |].
  assert (Hs : Forall task_shape ts).
  { unfold repairTasks in HT.
    destruct (if isArray (get X "tasks") then get X "tasks" else VArr []);
      try (injection HT as <-; constructor).
    by eapply repairTasksFrom_shape. }
  eapply Forall_impl; [exact Hs | apply task_shape_bare].
Qed.

Lemma lookup_empty_field k : field ∅ k = VUndef.
Proof. unfold field. by rewrite lookup_empty. Qed.

(** X29. A stored text that parses to [null] makes [loadState] throw: the
    members of [null] cannot be read. A stored boolean or number loads to
    the default state. *)
Theorem loadState_scalars e :
  loadState e (Json VNull) = None
  ∧ (∀ c, loadState e (Json (VBool c))
          = Some (VObj (defaultState (currentYear e)), bgStored e))
  ∧ (∀ n, loadState e (Json (VNum n))
          = Some (VObj (defaultState (currentYear e)), bgStored e)).
Proof.
  split; [reflexivity |].
  split; intros c; rewrite <- (mergeDefaults_empty e); cbn [loadState];
    unfold mergeDefaults; cbn [get spread not_nullish negb];
    rewrite !lookup_empty_field; reflexivity.
Qed.

(* ---------------------------------------------------------------- *)
(** ** What an import accepts and migrates *)

Lemma importStateFromFile_island year incoming st' :
  importStateFromFile year (Json incoming) = Replaced st' →
  ∃ merged island',
    st' = VObj merged
    ∧ covers (defaultState year) merged
    ∧ merged !! "island" = Some (VObj island')
    ∧ merged !! "sessions" = Some (get incoming "sessions")
    ∧ put_if (not_nullish
                (v_nullish (v_nullish (v_nullish
                   (v_and (get incoming "island")
                          (v_nullish (get (get incoming "island") "xpSec")
                                     (get (get incoming "island") "xp_sec")))
                   (get incoming "island_xp_sec"))
                   (get_opt (get incoming "profile") "island_xp_sec"))
                   (get_opt (get incoming "profile") "islandXpSec")))
         "xpSec"
         (VNum <$> to_number
                (v_nullish (v_nullish (v_nullish
                   (v_and (get incoming "island")
                          (v_nullish (get (get incoming "island") "xpSec")
                                     (get (get incoming "island") "xp_sec")))
                   (get incoming "island_xp_sec"))
                   (get_opt (get incoming "profile") "island_xp_sec"))
                   (get_opt (get incoming "profile") "islandXpSec")))
         (over dIsland (get incoming "island")) = Some island'.
Proof.
  unfold importStateFromFile.
  destruct (truthy incoming && typeof_object incoming && isArray (get incoming "sessions"))
    eqn:Hv; simpl; [| intros Hr; discriminate Hr].
  destruct (put_if _ "xpSec" _ _) as [island' |] eqn:HI; simpl; [| intros Hr; discriminate Hr].
  destruct (put_if _ "growthSec" _ _) as [g1 |]; simpl; [| intros Hr; discriminate Hr].
  destruct (put_if _ "treeType" _ _) as [g2 |]; simpl; [| intros Hr; discriminate Hr].
  destruct (put_if _ "harvestedOnThisTree" _ _) as [g3 |]; simpl; [| intros Hr; discriminate Hr].
  intros Hr. injection Hr as <-.
  set (base := spread incoming ∪ defaultState year).
  assert (Hbase : covers (defaultState year) base) by apply covers_union_r.
  clearbody base.
  eexists _, island'. split; [reflexivity |].
  split; [auto 20 with covers |].
  split; [by look |]. split; [by look | done].
Qed.

(** X30. [importStateFromFile] rejects everything but an object whose
    [sessions] member is an array. The state it installs has every section
    of the default state and the sessions of the file as they are. The
    island's [xpSec] of an older backup is migrated: a number under
    [island.xpSec] is kept, and when the file has no [island] member the
    number under the flat key [island_xp_sec] becomes [island.xpSec]. *)
Theorem importStateFromFile_spec (year : Z) :
  (∀ content,
     importStateFromFile year content = Rejected
     ↔ match content with
       | Json (VObj m) => isArray (field m "sessions") = false
       | _ => True
       end)
  ∧ (∀ incoming st,
       importStateFromFile year (Json incoming) = Replaced st →
       (∃ merged, st = VObj merged ∧ covers (defaultState year) merged)
       ∧ get st "sessions" = get incoming "sessions")
  ∧ (∀ m I x st,
       m !! "island" = Some (VObj I) → I !! "xpSec" = Some (VNum x) →
       importStateFromFile year (Json (VObj m)) = Replaced st →
       get (get st "island") "xpSec" = VNum x)
  ∧ (∀ m x st,
       m !! "island" = None → m !! "island_xp_sec" = Some (VNum x) →
       importStateFromFile year (Json (VObj m)) = Replaced st →
       get (get st "island") "xpSec" = VNum x).
Proof.
  split; [| split; [| split]].
  - intros content. unfold importStateFromFile.
    destruct content as [| | incoming]; [done | done |].
    destruct incoming as [| | b | n | s | l | m]; cbn [truthy truthy_value typeof_object
      andb negb isArray get]; try (by destruct (truthy _)); try done.
    + by destruct b.
    + destruct (isArray (field m "sessions")) eqn:E; cbn [negb]; [| done].
      split; [| discriminate].
      destruct (put_if _ "xpSec" _ _) as [island' |]; simpl; [| discriminate].
      destruct (put_if _ "growthSec" _ _) as [g1 |]; simpl; [| discriminate].
      destruct (put_if _ "treeType" _ _) as [g2 |]; simpl; [| discriminate].
      destruct (put_if _ "harvestedOnThisTree" _ _) as [g3 |]; simpl; discriminate.
  - intros incoming st Hr.
    destruct (importStateFromFile_island year incoming st Hr)
      as (merged & island' & -> & Hc & _ & Hs & _).
    split; [by exists merged |]. cbn [get]. by rewrite (field_lookup merged "sessions" _ Hs).
  - intros m I x st Hi Hx Hr.
    destruct (importStateFromFile_island year (VObj m) st Hr)
      as (merged & island' & -> & _ & Hk & _ & Hp).
    cbn [get] in *. rewrite (field_lookup merged "island" _ Hk). cbn [get].
    rewrite (field_lookup m "island" _ Hi) in Hp. cbn [get v_and truthy truthy_value] in Hp.
    rewrite (field_lookup I "xpSec" _ Hx) in Hp.
    cbn [v_nullish not_nullish put_if to_number fmap option_fmap option_map mbind
           option_bind] in Hp.
    injection Hp as <-. by rewrite field_insert_eq.
  - intros m x st Hi Hx Hr.
    destruct (importStateFromFile_island year (VObj m) st Hr)
      as (merged & island' & -> & _ & Hk & _ & Hp).
    cbn [get] in *. rewrite (field_lookup merged "island" _ Hk). cbn [get].
    assert (Hu : field m "island" = VUndef) by (unfold field; by rewrite Hi).
    rewrite Hu in Hp. cbn [get v_and truthy truthy_value] in Hp.
    rewrite (field_lookup m "island_xp_sec" _ Hx) in Hp.
    cbn [v_nullish not_nullish put_if to_number fmap option_fmap option_map mbind
           option_bind] in Hp.
    injection Hp as <-. by rewrite field_insert_eq.
Qed.

End loaded.

Lemma loadState_guarantees_witness :
  loadedShape 2026 (merged_of (@loadState exampleHost exampleLoadEnv (Json blobPlain))).
Proof.
  apply (@loadState_guarantees exampleHost exampleLoadEnv (Json blobPlain) _ false).
  vm_compute. reflexivity.
Defined.

Lemma loadState_drops_task_details_witness :
  ∃ ts, get (merged_of (@loadState exampleHost exampleLoadEnv (Json blobTaskDetails))) "tasks"
        = VArr ts
        ∧ Forall bareTask ts.
Proof.
  apply (@loadState_drops_task_details exampleHost exampleLoadEnv
           (Json blobTaskDetails) _ false).
  vm_compute. reflexivity.
Defined.

Example loadState_task_details_example :
  get (merged_of (@loadState exampleHost exampleLoadEnv (Json blobTaskDetails))) "tasks"
  = VArr [ obj [ ("id", VStr "id_4e_18c"); ("text", VStr "read chapter 3");
                 ("done", VBool false); ("createdTs", zn 1700000000000) ] ].
Proof. vm_compute. reflexivity. Qed.
